(** * ai-repo-insights: scoring, ranking and history-tracking core

    A shallow embedding of the Go packages [models], [classifier],
    [calculator], [history] and [summary], followed by the properties
    established about them.

    Conventions of the embedding:
    - a Go [string] is a sequence of bytes, here a [string] of 8-bit
      [ascii] characters; the functions of package [strings] are modelled
      on ASCII text (bytes below 128), where Go's Unicode-aware functions
      and the byte-wise ones below agree;
    - a Go [int] is a 64-bit two's complement integer, here a [Z] with the
      wrap-around written out where the code computes on stored values;
    - a Go [map[string]V] is a [gmap string V]; a [range] over a map visits
      its entries in an order Go leaves unspecified, here an explicit
      enumeration handed to the function that ranges;
    - a Go [float64] is an IEEE 754 binary64 number, here a [spec_float]
      with precision 53 and maximal exponent 1024;
    - a Go slice is a window on a backing array that lives in a heap. *)

From Stdlib Require Import ZArith Bool Ascii String List Lia.
From Stdlib Require Import Floats.SpecFloat.
From Stdlib Require Import Sorting.Sorted Sorting.Permutation.
From stdpp Require Import base option list gmap strings.

Local Open Scope string_scope.
Local Open Scope Z_scope.

(** ** Go's [int] *)

Module GoInt.

Definition minInt : Z := - 2 ^ 63.
Definition maxInt : Z := 2 ^ 63 - 1.

(** The value a 64-bit register holds after an operation whose exact
    result is [z]. *)
Definition wrap (z : Z) : Z := (z + 2 ^ 63) mod 2 ^ 64 - 2 ^ 63.

Definition add (x y : Z) : Z := wrap (x + y).

(** [x++] *)
Definition incr (x : Z) : Z := add x 1.

Definition inRange (z : Z) : Prop := minInt <= z <= maxInt.

End GoInt.

(** ** Go's [float64] *)

Module float64.

Definition prec : Z := 53.
Definition emax : Z := 1024.

Definition add := SFadd prec emax.
Definition mul := SFmul prec emax.
Definition div := SFdiv prec emax.

(** [float64(x)] for an [int] [x]: the nearest binary64 number, ties to
    even. *)
Definition ofInt (x : Z) : spec_float := binary_normalize prec emax x 0 false.

(** The [float64] a decimal constant [num/den] of the source denotes:
    the nearest binary64 number ([num] and [den] are small, hence exact,
    and the division rounds once). *)
Definition constant (num den : Z) : spec_float := div (ofInt num) (ofInt den).

(** The integer part of a finite number, rounding toward zero. *)
Definition truncate (f : spec_float) : option Z :=
  match f with
  | S754_zero _ => Some 0
  | S754_finite s m e =>
      let magnitude := Z.shiftl (Zpos m) e in
      Some (if s then - magnitude else magnitude)
  | _ => None
  end.

(** The largest integer not above a finite number. *)
Definition floor (f : spec_float) : option Z :=
  match f with
  | S754_zero _ => Some 0
  | S754_finite s m e => Some (Z.shiftl (if s then Zneg m else Zpos m) e)
  | _ => None
  end.

(** The conversion of [f] to [int] that takes [integerPart f] as its
    value. Where that is no [int] (NaN, an infinity, a value out of
    range) Go leaves the result to the implementation; amd64 gives the
    least [int]. *)
Definition convert (integerPart : spec_float -> option Z) (f : spec_float) : Z :=
  match integerPart f with
  | Some z => if (GoInt.minInt <=? z) && (z <=? GoInt.maxInt) then z else GoInt.minInt
  | None => GoInt.minInt
  end.

(** [int(f)]: Go truncates toward zero. *)
Definition toInt (f : spec_float) : Z := convert truncate f.

(** Neither a negative number nor minus infinity. *)
Definition notNegative (f : spec_float) : Prop :=
  match f with
  | S754_finite true _ _ | S754_infinity true => False
  | _ => True
  end.

End float64.

(** ** Package [models] *)

(** Field names are those of the Go structs; where two structs share a
    field name the later one carries a prefix ([rep_RepoKey] is
    [RepeaterInfo.RepoKey]). *)

Module models.

(** [time.Time], as the instant it denotes (nanoseconds since the epoch). *)
Definition Time := Z.

Record RepoMetadata := {
  Owner : string;
  Name : string;
  URL : string;
  Description : string;
  Language : string;
  Topics : list string;
  Stars : Z;
  Forks : Z;
  StarsToday : Z;
  StarsThisWeek : Z;
  StarsThisMonth : Z;
  CreatedAt : Time
}.

Record ClassifiedRepo := {
  Metadata : RepoMetadata;
  Categories : list string;
  PrimaryCategory : string;
  MatchScore : Z
}.

Record ScoredRepo := {
  Repo : ClassifiedRepo;
  TotalStars : Z;
  Heat7 : Z;
  Heat30 : Z;
  Prev30 : Z;
  Score : Z
}.

(** [func (r *RepoMetadata) Key() string] *)
Definition RepoMetadata_Key (r : RepoMetadata) : string :=
  Owner r ++ "/" ++ Name r.

(** [func (c *ClassifiedRepo) Key() string] *)
Definition ClassifiedRepo_Key (c : ClassifiedRepo) : string :=
  RepoMetadata_Key (Metadata c).

(** [func (s *ScoredRepo) Key() string] *)
Definition Key (s : ScoredRepo) : string :=
  ClassifiedRepo_Key (Repo s).

(** [func (s *ScoredRepo) SortKey() (int, int)] *)
Definition SortKey (s : ScoredRepo) : Z * Z := (Heat30 s, Score s).

Record RepoHistory := {
  WeeksInTop : Z;
  LastSeenReport : string;
  LastSeenDate : string;
  FirstSeenReport : string;
  FirstSeenDate : string
}.

(** [History.History] is the map, [History.LatestReport] the ID of the
    last report. *)
Record History := {
  LatestReport : string;
  HistoryMap : gmap string RepoHistory
}.

(** [func NewHistory() *History] *)
Definition NewHistory : History :=
  {| LatestReport := ""; HistoryMap := ∅ |}.

Record MetaInfo := {
  RunDate : string;
  meta_WindowDays : Z;
  meta_ShortWindowDays : Z;
  meta_TopN : Z;
  meta_FilterDomain : string
}.

Record CategoryStats := {
  cat_Name : string;
  cat_Count : Z;
  AvgHeat7 : spec_float;
  AvgScore : spec_float
}.

Record LanguageStats := {
  lang_Name : string;
  lang_Count : Z
}.

Record NewReposInfo := {
  new_Count : Z;
  ThresholdDays : Z;
  new_Repos : list string
}.

Record DarkHorseInfo := {
  dh_RepoKey : string;
  dh_RepoName : string;
  dh_URL : string;
  dh_Score : Z;
  dh_Heat30 : Z;
  dh_Heat7 : Z;
  dh_Category : string
}.

Record RepeaterInfo := {
  rep_RepoKey : string;
  rep_RepoName : string;
  rep_URL : string;
  rep_WeeksInTop : Z;
  CurrentHeat7 : Z;
  rep_Category : string
}.

Record TopRepoInfo := {
  Rank : Z;
  top_RepoKey : string;
  top_RepoName : string;
  top_URL : string;
  top_Category : string;
  top_Language : string;
  top_Heat7 : Z;
  top_Heat30 : Z;
  top_Score : Z;
  top_Description : string
}.

Record SummaryJSON := {
  Meta : MetaInfo;
  sum_Categories : list CategoryStats;
  Languages : list LanguageStats;
  NewRepos : NewReposInfo;
  DarkHorses : list DarkHorseInfo;
  Repeaters : list RepeaterInfo;
  TopRepos : list TopRepoInfo
}.

(** [func FormatRepoURL(owner string, name string) string] *)
Definition FormatRepoURL (owner name : string) : string :=
  "https://github.com/" ++ owner ++ "/" ++ name.

(** [func FormatRepoKey(owner string, name string) string] *)
Definition FormatRepoKey (owner name : string) : string :=
  owner ++ "/" ++ name.

(** What a call of [ParseRepoKey] ends with: the two parts and a nil
    error, an error, or the panic of an index out of range. *)
Inductive ParseResult :=
| Parsed (owner name : string)
| Invalid (err : string)
| IndexPanic.

(** [key[lo:hi]] *)
Definition sliceOf (key : string) (lo hi : nat) : string :=
  substring lo (hi - lo) key.

(** [fmt.Errorf] with the format of [ParseRepoKey]. *)
Definition invalidKey (key : string) : string :=
  "invalid repo key format: " ++ key.

(** The loop of [ParseRepoKey], at index [i] with [rest = key[i:]]:
    either it returns, or it ends with [parsed], [n] and [start].
    [parsed] is an array of two strings. *)
Fixpoint parseLoop (key rest : string) (i : nat) (parsed : list string) (n start : nat)
    : ParseResult + (list string * nat * nat) :=
  match rest with
  | EmptyString => inr (parsed, n, start)
  | String ch rest' =>
      if Ascii.eqb ch "/"
      then
        if (2 <=? n)%nat then inl (Invalid (invalidKey key))
        else if (n <? 2)%nat
             then parseLoop key rest' (S i) (<[n := sliceOf key start i]> parsed)
                            (S n) (S i)
             else inl IndexPanic
      else parseLoop key rest' (S i) parsed n start
  end.

(** [func ParseRepoKey(key string) (owner string, name string, err error)] *)
Definition ParseRepoKey (key : string) : ParseResult :=
  match parseLoop key key 0 [""; ""] 0 0 with
  | inl returned => returned
  | inr (parsed, n, start) =>
      if negb (n =? 1)%nat then Invalid (invalidKey key)
      else if (n <? 2)%nat
           then
             let parsed := <[n := sliceOf key start (String.length key)]> parsed in
             Parsed (default "" (parsed !! 0%nat)) (default "" (parsed !! 1%nat))
           else IndexPanic
  end.

End models.
(** ** Package [errors] *)

Module errors.

Inductive ErrorType :=
| ErrorTypeConfig | ErrorTypeDataFetch | ErrorTypeFilesystem | ErrorTypeReportGen
| ErrorTypeRepoFetch | ErrorTypeClassify | ErrorTypeCache
| ErrorTypeRateLimit | ErrorTypeNetwork | ErrorTypeAPI | ErrorTypeLLM.

(** A Go [error] as this program reads it: [None] is the nil error,
    [Some text] an error whose [Error()] is [text]. *)
Definition error : Type := option string.

(** [Underlying] is the wrapped error. *)
Record AppError := {
  Type_ : ErrorType;
  Message : string;
  Context : gmap string string;
  Underlying : error
}.

(** [func NewFilesystemError(message string, path string, err error) *AppError] *)
Definition NewFilesystemError (message path : string) (err : error) : AppError :=
  {| Type_ := ErrorTypeFilesystem;
     Message := message;
     Underlying := err;
     Context := {[ "path" := path ]} |}.

(** [func (e *AppError) IsCritical() bool] *)
Definition IsCritical (e : AppError) : bool :=
  match Type_ e with
  | ErrorTypeConfig | ErrorTypeDataFetch | ErrorTypeFilesystem | ErrorTypeReportGen => true
  | _ => false
  end.

(** A Go result pair [(v, err)]: either a value with a nil error, or a
    nil value with an error. *)
Inductive result (A : Type) :=
| Ok (v : A)
| Err (e : AppError).
Arguments Ok {A} v.
Arguments Err {A} e.

(** The text of an [ErrorType]. *)
Definition typeText (t : ErrorType) : string :=
  match t with
  | ErrorTypeConfig => "CONFIG"
  | ErrorTypeDataFetch => "DATA_FETCH"
  | ErrorTypeFilesystem => "FILESYSTEM"
  | ErrorTypeReportGen => "REPORT_GEN"
  | ErrorTypeRepoFetch => "REPO_FETCH"
  | ErrorTypeClassify => "CLASSIFY"
  | ErrorTypeCache => "CACHE"
  | ErrorTypeRateLimit => "RATE_LIMIT"
  | ErrorTypeNetwork => "NETWORK"
  | ErrorTypeAPI => "API"
  | ErrorTypeLLM => "LLM"
  end.

(** [func (e *AppError) Error() string] *)
Definition Error (e : AppError) : string :=
  match Underlying e with
  | Some underlying =>
      "[" ++ typeText (Type_ e) ++ "] " ++ Message e ++ ": " ++ underlying
  | None => "[" ++ typeText (Type_ e) ++ "] " ++ Message e
  end.

(** [func (e *AppError) IsRetryable() bool] *)
Definition IsRetryable (e : AppError) : bool :=
  match Type_ e with
  | ErrorTypeRateLimit | ErrorTypeNetwork | ErrorTypeAPI | ErrorTypeLLM => true
  | _ => false
  end.

(** [func NewConfigError(message string, err error) *AppError] *)
Definition NewConfigError (message : string) (err : error) : AppError :=
  {| Type_ := ErrorTypeConfig; Message := message; Underlying := err; Context := ∅ |}.

(** [func NewDataFetchError(message string, err error) *AppError] *)
Definition NewDataFetchError (message : string) (err : error) : AppError :=
  {| Type_ := ErrorTypeDataFetch; Message := message; Underlying := err; Context := ∅ |}.

(** [func NewRepoFetchError(owner string, repo string, err error) *AppError] *)
Definition NewRepoFetchError (owner repo : string) (err : error) : AppError :=
  {| Type_ := ErrorTypeRepoFetch;
     Message := "failed to fetch repository " ++ owner ++ "/" ++ repo;
     Underlying := err;
     Context := <["repo" := repo]> {[ "owner" := owner ]} |}.

(** [func NewRateLimitError(resetTime string) *AppError] *)
Definition NewRateLimitError (resetTime : string) : AppError :=
  {| Type_ := ErrorTypeRateLimit;
     Message := "GitHub API rate limit exceeded";
     Underlying := None;
     Context := {[ "reset_time" := resetTime ]} |}.

(** [func NewNetworkError(message string, err error) *AppError] *)
Definition NewNetworkError (message : string) (err : error) : AppError :=
  {| Type_ := ErrorTypeNetwork; Message := message; Underlying := err; Context := ∅ |}.

(** [func NewLLMError(message string, err error) *AppError] *)
Definition NewLLMError (message : string) (err : error) : AppError :=
  {| Type_ := ErrorTypeLLM; Message := message; Underlying := err; Context := ∅ |}.

(** [func (e *AppError) WithContext(key string, value string) *AppError]:
    the receiver, which it updates in place and returns. *)
Definition WithContext (e : AppError) (key value : string) : AppError :=
  {| Type_ := Type_ e; Message := Message e; Underlying := Underlying e;
     Context := <[key := value]> (Context e) |}.

End errors.
(** ** Package [strings] of the Go library, on ASCII text *)

(** Go's strings are byte sequences, read as UTF-8 by [ToLower], [Fields]
    and [TrimSpace]. The definitions below are those functions on text
    whose every byte is below 128, where a byte is a character; on other
    text Go also lowers letters outside A-Z and also splits and trims at
    white space outside ASCII. The theorems that compare matching and
    trimming with the specification are stated for ASCII text. *)

Module strings.

Definition isUpper (c : ascii) : bool :=
  (("A" <=? c) && (c <=? "Z"))%char.

Definition lowerChar (c : ascii) : ascii :=
  if isUpper c then ascii_of_nat (nat_of_ascii c + 32) else c.

(** [strings.ToLower], on ASCII text: the letters A to Z are lowered. *)
Fixpoint ToLower (s : string) : string :=
  match s with
  | EmptyString => EmptyString
  | String c rest => String (lowerChar c) (ToLower rest)
  end.

(** [strings.HasPrefix(s, prefix)] *)
Definition HasPrefix (s prefix : string) : bool := String.prefix prefix s.

(** [strings.Contains(s, substr)] *)
Fixpoint Contains (s substr : string) : bool :=
  if HasPrefix s substr then true
  else match s with
       | EmptyString => false
       | String _ rest => Contains rest substr
       end.

(** The white space [strings.Fields] splits ASCII text on:
    tab, line feed, vertical tab, form feed, carriage return, space. *)
Definition isSpace (c : ascii) : bool :=
  let n := nat_of_ascii c in
  ((9 <=? n) && (n <=? 13) || (n =? 32))%nat.

(** [fieldsFrom word s]: the fields of [s], where [word] is the part
    already read of the field under way. *)
Fixpoint fieldsFrom (word s : string) : list string :=
  match s with
  | EmptyString => if String.eqb word "" then [] else [word]
  | String c rest =>
      if isSpace c
      then if String.eqb word "" then fieldsFrom "" rest
           else word :: fieldsFrom "" rest
      else fieldsFrom (word ++ String c "") rest
  end.

(** [strings.Fields], on ASCII text. *)
Definition Fields (s : string) : list string := fieldsFrom "" s.

(** Is [c] one of the characters of [cutset]? *)
Fixpoint inCutset (cutset : string) (c : ascii) : bool :=
  match cutset with
  | EmptyString => false
  | String d rest => Ascii.eqb c d || inCutset rest c
  end.

(** [strings.TrimLeft] *)
Fixpoint TrimLeft (s cutset : string) : string :=
  match s with
  | EmptyString => EmptyString
  | String c rest => if inCutset cutset c then TrimLeft rest cutset else s
  end.

(** [strings.TrimRight] *)
Fixpoint TrimRight (s cutset : string) : string :=
  match s with
  | EmptyString => EmptyString
  | String c rest =>
      match TrimRight rest cutset with
      | EmptyString => if inCutset cutset c then EmptyString else String c EmptyString
      | kept => String c kept
      end
  end.

(** [strings.Trim] *)
Definition Trim (s cutset : string) : string :=
  TrimRight (TrimLeft s cutset) cutset.

(** [strings.Join] *)
Definition Join (elems : list string) (sep : string) : string :=
  String.concat sep elems.

End strings.

(** ** Package [config] *)

Module config.

(** [Categories] is a Go map: it has no order of its own. *)
Record KeywordConfig := {
  Include : list string;
  Exclude : list string;
  Categories : gmap string (list string)
}.

Record Settings := {
  WindowDays : Z;
  ShortWindowDays : Z;
  TopN : Z;
  NewRepoThresholdDays : Z;
  DarkHorseAccelThreshold : Z;
  CacheTTLHours : Z;
  ReportLanguage : string;
  ReportIDFormat : string;
  FilterDomain : string
}.

Record LLMConfig := {
  BaseURL : string;
  Model : string;
  Provider : string;
  TimeoutSeconds : Z;
  MaxRetries : Z;
  RoleDescription : string;
  OutputTone : string;
  Temperature : spec_float
}.

Record Config := {
  cfg_Languages : list string;
  cfg_Keywords : KeywordConfig;
  cfg_Settings : Settings;
  cfg_LLM : LLMConfig
}.

(** One check of [Validate]: [if cond { errors = append(errors, message) }]. *)
Definition check (cond : bool) (message : string) (errors : list string) : list string :=
  if cond then (errors ++ [message])%list else errors.

(** [float64] comparisons [a < b] and [a == b]. *)
Definition fltb (a b : spec_float) : bool := SFltb a b.
Definition feqb (a b : spec_float) : bool := SFeqb a b.

(** [func (c *Config) Validate() []string] *)
Definition Validate (c : Config) : list string :=
  let errors := [] in
  let errors := check (length (cfg_Languages c) =? 0)%nat
                      "languages list cannot be empty" errors in
  let errors := check (length (Include (cfg_Keywords c)) =? 0)%nat
                      "include keywords cannot be empty" errors in
  let errors := check (size (Categories (cfg_Keywords c)) =? 0)%nat
                      "categories cannot be empty" errors in
  let errors := check (WindowDays (cfg_Settings c) <=? 0)
                      "window_days must be greater than 0" errors in
  let errors := check (ShortWindowDays (cfg_Settings c) <=? 0)
                      "short_window_days must be greater than 0" errors in
  let errors := check (ShortWindowDays (cfg_Settings c) >? WindowDays (cfg_Settings c))
                      "short_window_days must be less than or equal to window_days"
                      errors in
  let errors := check (TopN (cfg_Settings c) <=? 0)
                      "top_n must be greater than 0" errors in
  let errors := check (String.eqb (ReportLanguage (cfg_Settings c)) "")
                      "report_language cannot be empty" errors in
  let errors := check (String.eqb (FilterDomain (cfg_Settings c)) "")
                      "filter_domain cannot be empty" errors in
  let errors := check (NewRepoThresholdDays (cfg_Settings c) <? 0)
                      "new_repo_threshold_days cannot be negative" errors in
  let errors := check (DarkHorseAccelThreshold (cfg_Settings c) <? 0)
                      "dark_horse_accel_threshold cannot be negative" errors in
  let errors := check (CacheTTLHours (cfg_Settings c) <? 0)
                      "cache_ttl_hours cannot be negative" errors in
  let errors := check (String.eqb (BaseURL (cfg_LLM c)) "")
                      "llm base_url cannot be empty" errors in
  let errors := check (String.eqb (Model (cfg_LLM c)) "")
                      "llm model cannot be empty" errors in
  let errors := check (TimeoutSeconds (cfg_LLM c) <=? 0)
                      "llm timeout_seconds must be greater than 0" errors in
  let errors := check (MaxRetries (cfg_LLM c) <? 0)
                      "llm max_retries cannot be negative" errors in
  let errors := check (String.eqb (RoleDescription (cfg_LLM c)) "")
                      "llm role_description cannot be empty" errors in
  let errors := check (String.eqb (OutputTone (cfg_LLM c)) "")
                      "llm output_tone cannot be empty" errors in
  let errors := check (fltb (Temperature (cfg_LLM c)) (float64.ofInt 0)
                       || fltb (float64.ofInt 2) (Temperature (cfg_LLM c)))
                      "llm temperature must be between 0 and 2" errors in
  errors.

(** [func applySettingsDefaults(s *Settings)]: the settings it leaves. *)
Definition applySettingsDefaults (s : Settings) : Settings :=
  {| WindowDays := WindowDays s;
     ShortWindowDays := ShortWindowDays s;
     TopN := TopN s;
     NewRepoThresholdDays :=
       if NewRepoThresholdDays s =? 0 then 90 else NewRepoThresholdDays s;
     DarkHorseAccelThreshold :=
       if DarkHorseAccelThreshold s =? 0 then 100 else DarkHorseAccelThreshold s;
     CacheTTLHours := if CacheTTLHours s =? 0 then 24 else CacheTTLHours s;
     ReportLanguage := ReportLanguage s;
     ReportIDFormat :=
       if String.eqb (ReportIDFormat s) "" then "YYYY-MM-weekN" else ReportIDFormat s;
     FilterDomain := FilterDomain s |}.

(** [func detectProvider(baseURL string) string] *)
Definition detectProvider (baseURL : string) : string :=
  if String.eqb baseURL "" then "openai"
  else if strings.Contains baseURL "generativelanguage.googleapis.com" then "gemini"
  else "openai".

(** [func applyLLMDefaults(l *LLMConfig)]: the configuration it leaves. *)
Definition applyLLMDefaults (l : LLMConfig) : LLMConfig :=
  {| BaseURL := BaseURL l;
     Model := Model l;
     Provider := if String.eqb (Provider l) "" then detectProvider (BaseURL l)
                 else Provider l;
     TimeoutSeconds := if TimeoutSeconds l =? 0 then 60 else TimeoutSeconds l;
     MaxRetries := if MaxRetries l =? 0 then 3 else MaxRetries l;
     RoleDescription := RoleDescription l;
     OutputTone := if String.eqb (OutputTone l) ""
                   then "concise, analytical, non-promotional" else OutputTone l;
     Temperature := if feqb (Temperature l) (float64.ofInt 0)
                    then float64.constant 7 10 else Temperature l |}.

(** What [loadJSONFile] gives for each of the four files of the
    directory: the decoded value, or the text of the error. *)
Record ConfigFiles := {
  languagesFile : list string + string;
  keywordsFile : KeywordConfig + string;
  settingsFile : Settings + string;
  llmFile : LLMConfig + string
}.

(** [func Load(configDir string) (Config, error)], on the files of the
    directory. *)
Definition Load (files : ConfigFiles) : errors.result Config :=
  match languagesFile files with
  | inr err => errors.Err (errors.NewConfigError "failed to load languages.json" (Some err))
  | inl languages =>
      match keywordsFile files with
      | inr err => errors.Err (errors.NewConfigError "failed to load keywords.json" (Some err))
      | inl keywords =>
          match settingsFile files with
          | inr err => errors.Err (errors.NewConfigError "failed to load settings.json" (Some err))
          | inl settings =>
              let settings := applySettingsDefaults settings in
              match llmFile files with
              | inr err => errors.Err (errors.NewConfigError "failed to load llm.json" (Some err))
              | inl llm =>
                  let llm := applyLLMDefaults llm in
                  errors.Ok {| cfg_Languages := languages;
                               cfg_Keywords := keywords;
                               cfg_Settings := settings;
                               cfg_LLM := llm |}
              end
          end
      end
  end.

End config.
(** ** Ranging over a Go map *)

(** [order] is one of the sequences in which a [range] may visit the
    entries of [m]: each entry once, in any order. *)
Definition enumerates {V : Type} (order : list (string * V)) (m : gmap string V) : Prop :=
  Permutation order (map_to_list m).

(** ** Package [classifier] *)

Module classifier.
Import models config.

Record Classifier := { keywords : KeywordConfig }.

(** [func New(keywords config.KeywordConfig) *Classifier] *)
Definition New (kw : KeywordConfig) : Classifier := {| keywords := kw |}.

(** [func (c *Classifier) buildSearchText(repo models.RepoMetadata) string] *)
Definition buildSearchText (c : Classifier) (repo : RepoMetadata) : string :=
  let parts := [Name repo; Description repo] in
  let parts := (parts ++ Topics repo)%list in
  strings.ToLower (strings.Join parts " ").

(** The cutset [matchesKeyword] trims from a word: full stop, comma,
    semicolon, colon, exclamation and question mark, the three pairs of
    brackets, the double quote (byte 34) and the single quote. *)
Definition punctuation : string :=
  ".,;:!?()[]{}" ++ String (ascii_of_nat 34) "'".

(** The loop of [matchesKeyword] over the words of the text. *)
Fixpoint matchesWords (keyword : string) (words : list string) : bool :=
  match words with
  | [] => false
  | word :: rest =>
      let word := strings.Trim word punctuation in
      if String.eqb word keyword || String.eqb word (keyword ++ "s") then true
      else if (4 <=? String.length keyword)%nat && strings.HasPrefix word keyword then true
      else matchesWords keyword rest
  end.

(** [func (c *Classifier) matchesKeyword(text string, keyword string) bool] *)
Definition matchesKeyword (c : Classifier) (text keyword : string) : bool :=
  let keyword := strings.ToLower keyword in
  let text := strings.ToLower text in
  if strings.Contains keyword "-" then strings.Contains text keyword
  else
    let words := strings.Fields text in
    matchesWords keyword words.

(** [func (c *Classifier) matchesInclude(repo models.RepoMetadata) bool] *)
Definition matchesInclude (c : Classifier) (repo : RepoMetadata) : bool :=
  let searchText := buildSearchText c repo in
  existsb (fun keyword => matchesKeyword c searchText keyword) (Include (keywords c)).

(** [func (c *Classifier) matchesExclude(repo models.RepoMetadata) bool] *)
Definition matchesExclude (c : Classifier) (repo : RepoMetadata) : bool :=
  let searchText := buildSearchText c repo in
  existsb (fun keyword => matchesKeyword c searchText keyword) (Exclude (keywords c)).

(** [func (c *Classifier) assignCategories(repo models.RepoMetadata) []string],
    the [range] over [c.keywords.Categories] visiting [order]. *)
Definition assignCategories (c : Classifier) (order : list (string * list string))
    (repo : RepoMetadata) : list string :=
  let searchText := buildSearchText c repo in
  fold_left (fun (categories : list string) '(categoryName, keywords) =>
               if existsb (fun keyword => matchesKeyword c searchText keyword) keywords
               then (categories ++ [categoryName])%list
               else categories) order [].

(** The inner loop of [selectPrimaryCategory]: how many of [keywords]
    match. The count is at most the length of the slice. *)
Definition countMatches (c : Classifier) (searchText : string) (keywords : list string) : Z :=
  fold_left (fun matches keyword =>
               if matchesKeyword c searchText keyword then matches + 1 else matches)
            keywords 0.

(** [func (c *Classifier) selectPrimaryCategory(repo models.RepoMetadata,
      categories []string) string]. Reading a key the map lacks gives the
    nil slice. *)
Definition selectPrimaryCategory (c : Classifier) (repo : RepoMetadata)
    (categories : list string) : string :=
  match categories with
  | [] => ""
  | first :: _ =>
      let searchText := buildSearchText c repo in
      snd (fold_left (fun '(maxMatches, primaryCategory) categoryName =>
                        let keywords := default [] (Categories (keywords c) !! categoryName) in
                        let matches := countMatches c searchText keywords in
                        if matches >? maxMatches then (matches, categoryName)
                        else (maxMatches, primaryCategory))
                     categories (0, first))
  end.

(** [func (c *Classifier) calculateMatchScore(repo models.RepoMetadata) int],
    the [range] over [c.keywords.Categories] visiting [order]. *)
Definition calculateMatchScore (c : Classifier) (order : list (string * list string))
    (repo : RepoMetadata) : Z :=
  let searchText := buildSearchText c repo in
  let score := countMatches c searchText (Include (keywords c)) in
  fold_left (fun score '(_, keywords) =>
               fold_left (fun score keyword =>
                            if matchesKeyword c searchText keyword then score + 1 else score)
                         keywords score) order score.

(** The body of the loop of [Classify], for the repo at position [i];
    [sched i] is the order in which the map of categories is visited
    while that repo is classified. *)
Definition classifyOne (c : Classifier) (sched : nat -> list (string * list string))
    (state : nat * list ClassifiedRepo) (repo : RepoMetadata) : nat * list ClassifiedRepo :=
  let '(i, classified) := state in
  (S i,
   if matchesInclude c repo && negb (matchesExclude c repo)
   then
     let categories := assignCategories c (sched i) repo in
     let primaryCategory := selectPrimaryCategory c repo categories in
     let matchScore := calculateMatchScore c (sched i) repo in
     (classified ++ [ {| Metadata := repo;
                         models.Categories := categories;
                         PrimaryCategory := primaryCategory;
                         MatchScore := matchScore |} ])%list
   else classified).

(** [func (c *Classifier) Classify(repos []models.RepoMetadata) []models.ClassifiedRepo] *)
Definition Classify (c : Classifier) (sched : nat -> list (string * list string))
    (repos : list RepoMetadata) : list ClassifiedRepo :=
  snd (fold_left (classifyOne c sched) repos (0%nat, [])).

(** Every order the schedule hands out is an enumeration of the map. *)
Definition validSchedule (c : Classifier) (sched : nat -> list (string * list string)) : Prop :=
  forall i, enumerates (sched i) (Categories (keywords c)).

End classifier.

(** ** Package [sort] of the Go library *)

Module sort.

Section Stable.
Context {A : Type}.
Variable less : A -> A -> bool.

(** One step of insertion sort: [x] goes before the first element it is
    less than, hence after every element it is not less than. *)
Fixpoint insert (x : A) (sorted : list A) : list A :=
  match sorted with
  | [] => [x]
  | y :: rest => if less x y then x :: sorted else y :: insert x rest
  end.

(** What [sort.SliceStable] leaves in the slice: the elements sorted by
    [less], equal elements in their original order. For a [less] that
    is a strict weak order there is one such sequence (lemma
    [stable_sort_unique]), whatever the algorithm; this is insertion
    sort, taking the elements in input order. *)
Definition stable (data : list A) : list A :=
  fold_left (fun sorted x => insert x sorted) data [].

End Stable.

End sort.

(** ** Slices and their backing arrays *)

Module slices.

(** A slice header: the backing array it points into, where its window
    starts there, its length and its capacity. *)
Record Slice := {
  array : nat;
  offset : nat;
  len : nat;
  cap : nat
}.

(** The backing arrays allocated so far, by address. *)
Abbreviation Heap A := (list (list A)) (only parsing).

Section Heap.
Context {A : Type}.

Definition backing (h : Heap A) (s : Slice) : list A :=
  default [] (h !! array s).

(** The elements a slice shows. *)
Definition elems (h : Heap A) (s : Slice) : list A :=
  take (len s) (drop (offset s) (backing h s)).

(** The slice lies within an allocated array. *)
Definition valid (h : Heap A) (s : Slice) : Prop :=
  (array s < length h)%nat /\
  (len s <= cap s)%nat /\
  (offset s + cap s <= length (backing h s))%nat.

(** [make([]A, n)]: a fresh array of [n] zero values. *)
Definition make (zero : A) (n : nat) (h : Heap A) : Slice * Heap A :=
  ({| array := length h; offset := 0; len := n; cap := n |},
   (h ++ [replicate n zero])%list).

(** Overwrite the first [length vals] elements of the window of [s]. *)
Definition store (h : Heap A) (s : Slice) (vals : list A) : Heap A :=
  let a := backing h s in
  <[array s := (take (offset s) a ++ vals
                ++ drop (offset s + length vals) a)%list]> h.

(** [copy(dst, src)]: the first [min(len(dst), len(src))] elements. *)
Definition copy (h : Heap A) (dst src : Slice) : Heap A :=
  let n := Nat.min (len dst) (len src) in
  store h dst (take n (elems h src)).

(** [sort.SliceStable(s, less)], which sorts in place. *)
Definition SliceStable (h : Heap A) (s : Slice) (less : A -> A -> bool) : Heap A :=
  store h s (sort.stable less (elems h s)).

(** [s[:hi]]; a panic ([None]) when [hi] is out of range. *)
Definition upTo (s : Slice) (hi : Z) : option Slice :=
  if (0 <=? hi) && (hi <=? Z.of_nat (cap s))
  then Some {| array := array s; offset := offset s;
               len := Z.to_nat hi; cap := cap s |}
  else None.

End Heap.

End slices.

(** ** Package [calculator] *)

Module calculator.
Import models slices.

Record ScoreCalculator := {
  windowDays : Z;
  shortWindowDays : Z
}.

(** [func New(windowDays int, shortWindowDays int) *ScoreCalculator] *)
Definition New (windowDays shortWindowDays : Z) : ScoreCalculator :=
  {| windowDays := windowDays; shortWindowDays := shortWindowDays |}.

(** The body of the loop of [CalculateScores]. The sum is evaluated left
    to right, each operation rounded on its own (no fused multiply-add,
    as the compiler emits for amd64). *)
Definition scoreRepo (repo : ClassifiedRepo) : ScoredRepo :=
  let starsToday := StarsToday (Metadata repo) in
  let starsThisWeek := StarsThisWeek (Metadata repo) in
  let starsThisMonth := StarsThisMonth (Metadata repo) in
  let heat30 := starsThisMonth in
  let heat7 := starsThisWeek in
  let dailyRate := float64.ofInt starsToday in
  let weeklyAvgRate := float64.div (float64.ofInt starsThisWeek) (float64.constant 7 1) in
  let monthlyAvgRate := float64.div (float64.ofInt starsThisMonth) (float64.constant 30 1) in
  let scoreValue :=
    float64.add
      (float64.add (float64.mul dailyRate (float64.constant 6 10))
                   (float64.mul weeklyAvgRate (float64.constant 3 10)))
      (float64.mul monthlyAvgRate (float64.constant 1 10)) in
  let score := float64.toInt scoreValue in
  {| Repo := repo;
     TotalStars := Stars (Metadata repo);
     Heat7 := heat7;
     Heat30 := heat30;
     Prev30 := 0;
     Score := score |}.

(** [func (sc *ScoreCalculator) CalculateScores(repos []models.ClassifiedRepo)
      []models.ScoredRepo] *)
Definition CalculateScores (sc : ScoreCalculator) (repos : list ClassifiedRepo)
    : list ScoredRepo :=
  fold_left (fun (scoredRepos : list ScoredRepo) repo =>
               (scoredRepos ++ [scoreRepo repo])%list) repos [].

(** The comparison [RankRepositories] sorts by: [heat_30] descending,
    then [score] descending. *)
Definition rankLess (a b : ScoredRepo) : bool :=
  if negb (Heat30 a =? Heat30 b) then Heat30 a >? Heat30 b
  else Score a >? Score b.

(** The zero value of [models.ScoredRepo]. *)
Definition zeroScoredRepo : ScoredRepo :=
  {| Repo := {| Metadata := {| Owner := ""; Name := ""; URL := ""; Description := "";
                               Language := ""; Topics := []; Stars := 0; Forks := 0;
                               StarsToday := 0; StarsThisWeek := 0; StarsThisMonth := 0;
                               CreatedAt := 0 |};
                Categories := []; PrimaryCategory := ""; MatchScore := 0 |};
     TotalStars := 0; Heat7 := 0; Heat30 := 0; Prev30 := 0; Score := 0 |}.

(** [func (sc *ScoreCalculator) RankRepositories(scoredRepos []models.ScoredRepo)
      []models.ScoredRepo]: the slice returned and the heap left. *)
Definition RankRepositories (sc : ScoreCalculator) (h : Heap ScoredRepo)
    (scoredRepos : Slice) : Slice * Heap ScoredRepo :=
  let '(ranked, h) := make zeroScoredRepo (len scoredRepos) h in
  let h := copy h ranked scoredRepos in
  let h := SliceStable h ranked rankLess in
  (ranked, h).

(** [func (sc *ScoreCalculator) RankAndSelectTop(scoredRepos []models.ScoredRepo,
      topN int) []models.ScoredRepo]: the slice returned, [None] for a
    panic, and the heap left. *)
Definition RankAndSelectTop (sc : ScoreCalculator) (h : Heap ScoredRepo)
    (scoredRepos : Slice) (topN : Z) : option Slice * Heap ScoredRepo :=
  let '(ranked, h) := RankRepositories sc h scoredRepos in
  if Z.of_nat (len ranked) >? topN
  then (upTo ranked topN, h)
  else (Some ranked, h).

(** Non-increasing in [(Heat_30, Score)], compared lexicographically. *)
Definition keyGe (a b : ScoredRepo) : Prop :=
  Heat30 a > Heat30 b \/ (Heat30 a = Heat30 b /\ Score a >= Score b).

End calculator.

(** ** Package [history] *)

Module history.
Import models errors.

(** The value [json.Unmarshal] fills in from a well-formed document: the
    map stays [nil] ([None]) when the document has no ["history"] member. *)
Record DecodedHistory := {
  dec_LatestReport : string;
  dec_History : option (gmap string RepoHistory)
}.

(** The bytes of a file, up to what [json.Unmarshal] makes of them:
    rejected with an error, or decoded. [json.MarshalIndent] writes a
    document that decodes to the value it was given. *)
Inductive FileData :=
| Malformed (err : string)
| Document (d : DecodedHistory).

(** The state of the file at [historyPath], as [os.Stat] and
    [os.ReadFile] see it. *)
Inductive FileState :=
| NotExist
| Unreadable (err : string)
| Readable (data : FileData).

Record Manager := { historyPath : string }.

(** [func NewManager(historyPath string, logger zerolog.Logger) *Manager] *)
Definition NewManager (path : string) : Manager := {| historyPath := path |}.

(** [json.Unmarshal(data, &history)] *)
Definition jsonUnmarshal (data : FileData) : DecodedHistory + string :=
  match data with
  | Malformed err => inr err
  | Document d => inl d
  end.

(** [func (m *Manager) LoadHistory() (History, error)] *)
Definition LoadHistory (m : Manager) (fs : FileState) : result History :=
  match fs with
  | NotExist => Ok NewHistory
  | Unreadable err =>
      Err (NewFilesystemError "failed to read history file" (historyPath m) (Some err))
  | Readable data =>
      match jsonUnmarshal data with
      | inr err =>
          Err (NewFilesystemError "failed to parse history file" (historyPath m)
                                  (Some err))
      | inl history =>
          Ok {| LatestReport := dec_LatestReport history;
                HistoryMap := match dec_History history with
                              | None => ∅
                              | Some entries => entries
                              end |}
      end
  end.

(** First loop of [UpdateHistory]: the set of current keys. *)
Definition buildCurrentKeys (currentTop : list ScoredRepo) : gmap string bool :=
  fold_left (fun keys repo => <[Key repo := true]> keys) currentTop ∅.

(** [currentRepoKeys[repoKey]], [false] for a missing key. *)
Definition isCurrent (currentRepoKeys : gmap string bool) (repoKey : string) : bool :=
  default false (currentRepoKeys !! repoKey).

(** Body of the second loop: update or initialise one repo. *)
Definition touch (reportID reportDate : string)
    (entries : gmap string RepoHistory) (repo : ScoredRepo) : gmap string RepoHistory :=
  let repoKey := Key repo in
  match entries !! repoKey with
  | Some existingHistory =>
      <[repoKey := {| WeeksInTop := GoInt.incr (WeeksInTop existingHistory);
                      LastSeenReport := reportID;
                      LastSeenDate := reportDate;
                      FirstSeenReport := FirstSeenReport existingHistory;
                      FirstSeenDate := FirstSeenDate existingHistory |}]> entries
  | None =>
      <[repoKey := {| WeeksInTop := 1;
                      LastSeenReport := reportID;
                      LastSeenDate := reportDate;
                      FirstSeenReport := reportID;
                      FirstSeenDate := reportDate |}]> entries
  end.

(** Third loop: the keys to remove, in the order the [range] over the map
    ([visited]) meets them. *)
Definition collectRemovals (currentRepoKeys : gmap string bool)
    (visited : list string) : list string :=
  fold_left (fun (reposToRemove : list string) repoKey =>
               if negb (isCurrent currentRepoKeys repoKey)
               then (reposToRemove ++ [repoKey])%list
               else reposToRemove) visited [].

(** Fourth loop: delete them. *)
Definition removeAll (reposToRemove : list string)
    (entries : gmap string RepoHistory) : gmap string RepoHistory :=
  fold_left (fun entries repoKey => delete repoKey entries) reposToRemove entries.

(** [UpdateHistory] after a successful load, with the order [range]
    visits the keys of the map given by [rangeKeys]. *)
Definition updateLoaded (rangeKeys : gmap string RepoHistory -> list string)
    (history : History) (currentTop : list ScoredRepo)
    (reportID reportDate : string) : History :=
  let currentRepoKeys := buildCurrentKeys currentTop in
  let entries := fold_left (touch reportID reportDate) currentTop (HistoryMap history) in
  let reposToRemove := collectRemovals currentRepoKeys (rangeKeys entries) in
  let entries := removeAll reposToRemove entries in
  {| LatestReport := reportID; HistoryMap := entries |}.

(** The keys of a map in stdpp's enumeration order; [updateLoaded] gives
    the same map for every other order (lemma [updateLoaded_any_order]). *)
Definition mapKeys (entries : gmap string RepoHistory) : list string :=
  (map_to_list entries).*1.

(** [func (m *Manager) UpdateHistory(currentTop []models.ScoredRepo,
      reportID string, reportDate string) (History, error)] *)
Definition UpdateHistory (m : Manager) (fs : FileState)
    (currentTop : list ScoredRepo) (reportID reportDate : string) : result History :=
  match LoadHistory m fs with
  | Err err => Err err
  | Ok history => Ok (updateLoaded mapKeys history currentTop reportID reportDate)
  end.

(** [func (m *Manager) SaveHistory(history *models.History) error], when
    [os.MkdirAll] and [os.WriteFile] succeed: the file then holds the
    document of [history]. *)
Definition SaveHistory (m : Manager) (history : History) (fs : FileState) : FileState :=
  Readable (Document {| dec_LatestReport := LatestReport history;
                        dec_History := Some (HistoryMap history) |}).

(** One update of the stored history: [UpdateHistory], then
    [SaveHistory] of the history it returned, if any. *)
Definition runOnce (m : Manager) (fs : FileState)
    (currentTop : list ScoredRepo) (reportID reportDate : string)
    : FileState * result History :=
  match UpdateHistory m fs currentTop reportID reportDate with
  | Ok history => (SaveHistory m history fs, Ok history)
  | Err err => (fs, Err err)
  end.

(** A run's arguments. *)
Record Run := {
  run_top : list ScoredRepo;
  run_reportID : string;
  run_reportDate : string
}.

(** The histories returned by a sequence of runs, oldest first, and the
    file they leave. *)
Fixpoint runAll (m : Manager) (fs : FileState) (runs : list Run)
    : FileState * list (result History) :=
  match runs with
  | [] => (fs, [])
  | r :: rest =>
      let '(fs1, out) := runOnce m fs (run_top r) (run_reportID r) (run_reportDate r) in
      let '(fs2, outs) := runAll m fs1 rest in
      (fs2, out :: outs)
  end.

(** [first_seen_date <= last_seen_date], dates compared as Go compares
    strings (byte-wise, which on ["YYYY-MM-DD"] is the calendar order). *)
Definition datesOrdered (e : RepoHistory) : bool :=
  String.leb (FirstSeenDate e) (LastSeenDate e).

End history.

(** ** Package [summary] *)

Module summary.
Import models config.

Record Builder := { settings : Settings }.

(** [func NewBuilder(settings config.Settings) *Builder] *)
Definition NewBuilder (settings : Settings) : Builder := {| settings := settings |}.

(** [type categoryAggregator struct] *)
Record categoryAggregator := {
  agg_name : string;
  agg_count : Z;
  heat7Sum : Z;
  scoreSum : Z
}.

(** What a call of [BuildSummary] takes from its environment: the clock,
    and the orders in which the two [range] loops over maps visit them. *)
Record Env := {
  now : Time;
  rangeCategories : gmap string categoryAggregator -> list (string * categoryAggregator);
  rangeLanguages : gmap string Z -> list (string * Z)
}.

(** [func (b *Builder) buildMeta(runDate string) models.MetaInfo] *)
Definition buildMeta (b : Builder) (runDate : string) : MetaInfo :=
  {| RunDate := runDate;
     meta_WindowDays := WindowDays (settings b);
     meta_ShortWindowDays := ShortWindowDays (settings b);
     meta_TopN := TopN (settings b);
     meta_FilterDomain := FilterDomain (settings b) |}.

(** [func (b *Builder) aggregateCategories(repos []models.ScoredRepo)
      []models.CategoryStats]. The counts are at most the length of the
    slice; the sums are sums of stored values and may wrap. *)
Definition aggregateCategories (b : Builder) (env : Env) (repos : list ScoredRepo)
    : list CategoryStats :=
  let categoryMap :=
    fold_left (fun (categoryMap : gmap string categoryAggregator) repo =>
                 let category := PrimaryCategory (Repo repo) in
                 let agg :=
                   default {| agg_name := category; agg_count := 0;
                              heat7Sum := 0; scoreSum := 0 |}
                           (categoryMap !! category) in
                 <[category := {| agg_name := agg_name agg;
                                  agg_count := agg_count agg + 1;
                                  heat7Sum := GoInt.add (heat7Sum agg) (Heat7 repo);
                                  scoreSum := GoInt.add (scoreSum agg) (Score repo) |}]>
                   categoryMap)
              repos ∅ in
  fold_left (fun (stats : list CategoryStats) '(_, agg) =>
               (stats ++ [ {| cat_Name := agg_name agg;
                              cat_Count := agg_count agg;
                              AvgHeat7 := float64.div (float64.ofInt (heat7Sum agg))
                                                      (float64.ofInt (agg_count agg));
                              AvgScore := float64.div (float64.ofInt (scoreSum agg))
                                                      (float64.ofInt (agg_count agg)) |} ])%list)
            (rangeCategories env categoryMap) [].

(** [func (b *Builder) aggregateLanguages(repos []models.ScoredRepo)
      []models.LanguageStats] *)
Definition aggregateLanguages (b : Builder) (env : Env) (repos : list ScoredRepo)
    : list LanguageStats :=
  let languageMap :=
    fold_left (fun (languageMap : gmap string Z) repo =>
                 let language := Language (Metadata (Repo repo)) in
                 <[language := default 0 (languageMap !! language) + 1]> languageMap)
              repos ∅ in
  fold_left (fun (stats : list LanguageStats) '(lang, count) =>
               (stats ++ [ {| lang_Name := lang; lang_Count := count |} ])%list)
            (rangeLanguages env languageMap) [].

(** [t.AddDate(0, 0, days)] in a location without clock changes; a
    [Time] counts nanoseconds. *)
Definition AddDays (t : Time) (days : Z) : Time := t + days * 86400000000000.

(** [func (b *Builder) identifyNewRepos(repos []models.ScoredRepo) models.NewReposInfo] *)
Definition identifyNewRepos (b : Builder) (env : Env) (repos : list ScoredRepo)
    : NewReposInfo :=
  let thresholdDate := AddDays (now env) (- NewRepoThresholdDays (settings b)) in
  let newRepos :=
    fold_left (fun (newRepos : list string) repo =>
                 if CreatedAt (Metadata (Repo repo)) >? thresholdDate
                 then (newRepos ++ [Key repo])%list
                 else newRepos) repos [] in
  {| new_Count := Z.of_nat (length newRepos);
     ThresholdDays := NewRepoThresholdDays (settings b);
     new_Repos := newRepos |}.

(** [func (b *Builder) identifyDarkHorses(repos []models.ScoredRepo)
      []models.DarkHorseInfo] *)
Definition identifyDarkHorses (b : Builder) (repos : list ScoredRepo)
    : list DarkHorseInfo :=
  fold_left (fun (darkHorses : list DarkHorseInfo) repo =>
               if Score repo >=? DarkHorseAccelThreshold (settings b)
               then (darkHorses ++ [ {| dh_RepoKey := Key repo;
                                        dh_RepoName := Name (Metadata (Repo repo));
                                        dh_URL := URL (Metadata (Repo repo));
                                        dh_Score := Score repo;
                                        dh_Heat30 := Heat30 repo;
                                        dh_Heat7 := Heat7 repo;
                                        dh_Category := PrimaryCategory (Repo repo) |} ])%list
               else darkHorses) repos [].

(** The body of the loop of [identifyRepeaters]. *)
Definition repeaterStep (history : History)
    (repeaters : list RepeaterInfo) (repo : ScoredRepo) : list RepeaterInfo :=
  let key := Key repo in
  match HistoryMap history !! key with
  | Some histEntry =>
      if WeeksInTop histEntry >=? 2
      then (repeaters ++ [ {| rep_RepoKey := key;
                              rep_RepoName := Name (Metadata (Repo repo));
                              rep_URL := URL (Metadata (Repo repo));
                              rep_WeeksInTop := WeeksInTop histEntry;
                              CurrentHeat7 := Heat7 repo;
                              rep_Category := PrimaryCategory (Repo repo) |} ])%list
      else repeaters
  | None => repeaters
  end.

(** [func (b *Builder) identifyRepeaters(repos []models.ScoredRepo,
      history *models.History) []models.RepeaterInfo] *)
Definition identifyRepeaters (b : Builder) (repos : list ScoredRepo)
    (history : History) : list RepeaterInfo :=
  fold_left (repeaterStep history) repos [].

(** [func (b *Builder) buildTopRepos(repos []models.ScoredRepo) []models.TopRepoInfo] *)
Definition buildTopRepos (b : Builder) (repos : list ScoredRepo) : list TopRepoInfo :=
  imap (fun i repo =>
          {| Rank := Z.of_nat i + 1;
             top_RepoKey := Key repo;
             top_RepoName := Name (Metadata (Repo repo));
             top_URL := URL (Metadata (Repo repo));
             top_Category := PrimaryCategory (Repo repo);
             top_Language := Language (Metadata (Repo repo));
             top_Heat7 := Heat7 repo;
             top_Heat30 := Heat30 repo;
             top_Score := Score repo;
             top_Description := Description (Metadata (Repo repo)) |}) repos.

(** [func (b *Builder) BuildSummary(topRepos []models.ScoredRepo,
      history *models.History, runDate string) models.SummaryJSON] *)
Definition BuildSummary (b : Builder) (env : Env) (topRepos : list ScoredRepo)
    (history : History) (runDate : string) : SummaryJSON :=
  {| Meta := buildMeta b runDate;
     sum_Categories := aggregateCategories b env topRepos;
     Languages := aggregateLanguages b env topRepos;
     NewRepos := identifyNewRepos b env topRepos;
     DarkHorses := identifyDarkHorses b topRepos;
     Repeaters := identifyRepeaters b topRepos history;
     TopRepos := buildTopRepos b topRepos |}.

(** The repeater record [identifyRepeaters] emits for [repo] when its
    history entry counts [weeks]. *)
Definition repeaterOf (repo : ScoredRepo) (weeks : Z) : RepeaterInfo :=
  {| rep_RepoKey := Key repo;
     rep_RepoName := Name (Metadata (Repo repo));
     rep_URL := URL (Metadata (Repo repo));
     rep_WeeksInTop := weeks;
     CurrentHeat7 := Heat7 repo;
     rep_Category := PrimaryCategory (Repo repo) |}.

End summary.

(** ** Package [fetcher] *)

Module fetcher.
Import models errors.

(** The HTTP client and the logger have no part in what follows. *)
Record TrendingFetcher := { languages : list string }.

(** [func New(languages []string, logger zerolog.Logger) *TrendingFetcher] *)
Definition New (languages : list string) : TrendingFetcher :=
  {| languages := languages |}.

(** [func (f *TrendingFetcher) deduplicateRepos(repos []models.RepoMetadata)
      []models.RepoMetadata]. Reading a key the map [seen] lacks gives
    [false]. *)
Definition deduplicateRepos (f : TrendingFetcher) (repos : list RepoMetadata)
    : list RepoMetadata :=
  snd (fold_left (fun '(seen, unique) repo =>
                    let key := RepoMetadata_Key repo in
                    if negb (default false ((seen : gmap string bool) !! key))
                    then (<[key := true]> seen, (unique ++ [repo])%list)
                    else (seen, unique))
                 repos (∅, [])).

(** The body of the loop of [FetchTrending]; [fetchTrendingForLanguage i]
    is what the [i]-th call of that method returns. *)
Definition fetchOne
    (fetchTrendingForLanguage : nat -> string -> result (list RepoMetadata))
    (state : nat * list RepoMetadata * option AppError) (lang : string)
    : nat * list RepoMetadata * option AppError :=
  let '(i, allRepos, lastErr) := state in
  match fetchTrendingForLanguage i lang with
  | Err err => (S i, allRepos, Some err)
  | Ok repos => (S i, (allRepos ++ repos)%list, lastErr)
  end.

(** [func (f *TrendingFetcher) FetchTrending() ([]models.RepoMetadata, error)] *)
Definition FetchTrending (f : TrendingFetcher)
    (fetchTrendingForLanguage : nat -> string -> result (list RepoMetadata))
    : result (list RepoMetadata) :=
  let '(_, allRepos, lastErr) :=
    fold_left (fetchOne fetchTrendingForLanguage) (languages f) (0%nat, [], None) in
  if (length allRepos =? 0)%nat
  then match lastErr with
       | Some err =>
           Err (NewDataFetchError "failed to fetch trending data for any language"
                                  (Some (Error err)))
       | None => Err (NewDataFetchError "no trending data retrieved" None)
       end
  else Ok (deduplicateRepos f allRepos).

(** The characters of the class [[\d,]]. *)
Definition isDigit (c : ascii) : bool := (("0" <=? c) && (c <=? "9"))%char.
Definition isDigitOrComma (c : ascii) : bool := isDigit c || Ascii.eqb c ",".

(** The longest prefix of [s] in the class. *)
Fixpoint takeRun (s : string) : string :=
  match s with
  | EmptyString => EmptyString
  | String c rest => if isDigitOrComma c then String c (takeRun rest) else EmptyString
  end.

(** [regexp.MustCompile("[\d,]+").FindString]: the leftmost match, as
    long as it can be; the empty string when there is none. *)
Fixpoint FindString (s : string) : string :=
  match s with
  | EmptyString => EmptyString
  | String c rest => if isDigitOrComma c then String c (takeRun rest) else FindString rest
  end.

(** [strings.ReplaceAll(s, ",", "")] *)
Fixpoint removeCommas (s : string) : string :=
  match s with
  | EmptyString => EmptyString
  | String c rest => if Ascii.eqb c "," then removeCommas rest
                     else String c (removeCommas rest)
  end.

(** The number a string of decimal digits writes. *)
Definition digitsValue (s : string) : Z :=
  fold_left (fun acc c => acc * 10 + (Z.of_nat (nat_of_ascii c) - 48))
            (list_ascii_of_string s) 0.

(** [strconv.Atoi] on a string of decimal digits, which is all that
    [parseStars] hands it: a syntax error on the empty string, a range
    error above the largest [int]. *)
Definition Atoi (s : string) : option Z :=
  if String.eqb s "" then None
  else if digitsValue s >? GoInt.maxInt then None
  else Some (digitsValue s).

(** [func (f *TrendingFetcher) parseStars(text string) int] *)
Definition parseStars (f : TrendingFetcher) (text : string) : Z :=
  let match_ := FindString text in
  if String.eqb match_ "" then 0
  else
    let match_ := removeCommas match_ in
    match Atoi match_ with
    | None => 0
    | Some stars => stars
    end.

End fetcher.
(** ** Package [report]: the sanitisers and the number format *)

Module report.

(** [func SanitizeURL(url string) string] *)
Definition SanitizeURL (url : string) : string :=
  if negb (strings.HasPrefix url "http://") && negb (strings.HasPrefix url "https://")
  then "https://" ++ url
  else url.

(** [strings.ReplaceAll(s, old, new)] for an [old] of one character. *)
Fixpoint ReplaceAll (s : string) (old : ascii) (new : string) : string :=
  match s with
  | EmptyString => EmptyString
  | String c rest =>
      if Ascii.eqb c old then new ++ ReplaceAll rest old new
      else String c (ReplaceAll rest old new)
  end.

(** The white space [strings.TrimSpace] trims from ASCII text: tab,
    line feed, vertical tab, form feed, carriage return, space. *)
Definition asciiSpace : string :=
  String (ascii_of_nat 9) (String (ascii_of_nat 10) (String (ascii_of_nat 11)
    (String (ascii_of_nat 12) (String (ascii_of_nat 13) " ")))).

(** [strings.TrimSpace], on ASCII text; on text with bytes above 127
    Go trims the white space of Unicode as well (U+0085, U+00A0 and
    others), so that what it returns is then a substring of what this
    returns. *)
Definition TrimSpace (s : string) : string := strings.Trim s asciiSpace.

(** [func SanitizeRepoName(name string) string] *)
Definition SanitizeRepoName (name : string) : string :=
  let name := ReplaceAll name "[" "" in
  let name := ReplaceAll name "]" "" in
  let name := ReplaceAll name "(" "" in
  let name := ReplaceAll name ")" "" in
  TrimSpace name.

(** The class [\s] of the regular expressions of Go: tab, line feed,
    form feed, carriage return, space. *)
Definition isReSpace (c : ascii) : bool :=
  let n := nat_of_ascii c in
  ((n =? 9) || (n =? 10) || (n =? 12) || (n =? 13) || (n =? 32))%nat.

(** [regexp.MustCompile("\s+").ReplaceAllString(s, " ")]: every
    longest run of white space becomes one space; [inRun] tells that
    the run under way has been replaced already. *)
Fixpoint collapseSpace (inRun : bool) (s : string) : string :=
  match s with
  | EmptyString => EmptyString
  | String c rest =>
      if isReSpace c
      then if inRun then collapseSpace true rest
           else String " " (collapseSpace true rest)
      else String c (collapseSpace false rest)
  end.

(** [func SanitizeDescription(desc string) string] *)
Definition SanitizeDescription (desc : string) : string :=
  let desc := ReplaceAll desc (ascii_of_nat 10) " " in
  let desc := ReplaceAll desc (ascii_of_nat 13) " " in
  let desc := collapseSpace false desc in
  let desc := TrimSpace desc in
  if (200 <? String.length desc)%nat
  then substring 0 197 desc ++ "..."
  else desc.

(** The character of a decimal digit. *)
Definition digitOf (d : Z) : ascii := ascii_of_nat (Z.to_nat (48 + d)).

(** The decimal digits of [n >= 0], for a [fuel] of at least their
    number. *)
Fixpoint decimal (fuel : nat) (n : Z) : string :=
  match fuel with
  | O => EmptyString
  | S fuel' =>
      (if n <? 10 then EmptyString else decimal fuel' (n / 10))
      ++ String (digitOf (n mod 10)) EmptyString
  end.

Fixpoint zeros (k : nat) : string :=
  match k with
  | O => EmptyString
  | S k' => String "0" (zeros k')
  end.

(** [fmt.Sprintf("%d", n)]; an [int] has at most nineteen digits. *)
Definition formatInt (n : Z) : string :=
  if n <? 0 then "-" ++ decimal 20 (- n) else decimal 20 n.

(** [fmt.Sprintf("%03d", n)]: zeros fill up to three characters, after
    the sign. *)
Definition formatInt03 (n : Z) : string :=
  if n <? 0
  then let digits := decimal 20 (- n) in "-" ++ zeros (2 - String.length digits) ++ digits
  else let digits := decimal 20 n in zeros (3 - String.length digits) ++ digits.

(** [func formatNumber(n int) string], with [fuel] for the depth of the
    recursion: [None] when the fuel runs out. [-n], [n/1000] and
    [n%1000] are those of Go's [int]. *)
Fixpoint formatNumber (fuel : nat) (n : Z) : option string :=
  match fuel with
  | O => None
  | S fuel' =>
      if n <? 0
      then match formatNumber fuel' (GoInt.wrap (- n)) with
           | Some s => Some ("-" ++ s)
           | None => None
           end
      else if n <? 1000 then Some (formatInt n)
      else match formatNumber fuel' (Z.quot n 1000) with
           | Some s => Some (s ++ "," ++ formatInt03 (Z.rem n 1000))
           | None => None
           end
  end.

(** [func formatAcceleration(accel int) string] *)
Definition formatAcceleration (accel : Z) : string :=
  let sign := if accel >? 0 then "+" else "" in
  sign ++ formatInt accel ++ "%".

End report.
(** * Properties *)

(** ** Go's [int] *)

Lemma wrap_inRange (z : Z) : GoInt.inRange z -> GoInt.wrap z = z.
Proof.
  unfold GoInt.inRange, GoInt.wrap, GoInt.minInt, GoInt.maxInt. intros Hz.
  rewrite Z.mod_small by lia. lia.
Qed.

Lemma incr_below_max (x : Z) :
  GoInt.minInt <= x < GoInt.maxInt -> GoInt.incr x = x + 1.
Proof.
  intros Hx. unfold GoInt.incr, GoInt.add. apply wrap_inRange.
  unfold GoInt.inRange. lia.
Qed.

(** ** The history manager *)

Section HistoryFacts.
Import models errors history.

Variables reportID reportDate : string.

(** The entry a repo of the current top gets, from the entry it had. *)
Definition bump (old : option RepoHistory) : RepoHistory :=
  match old with
  | Some e => {| WeeksInTop := GoInt.incr (WeeksInTop e);
                 LastSeenReport := reportID;
                 LastSeenDate := reportDate;
                 FirstSeenReport := FirstSeenReport e;
                 FirstSeenDate := FirstSeenDate e |}
  | None => {| WeeksInTop := 1;
               LastSeenReport := reportID;
               LastSeenDate := reportDate;
               FirstSeenReport := reportID;
               FirstSeenDate := reportDate |}
  end.

Lemma touch_lookup (entries : gmap string RepoHistory) repo k :
  touch reportID reportDate entries repo !! k =
    if decide (k = Key repo) then Some (bump (entries !! k)) else entries !! k.
Proof.
  unfold touch. case_decide as Hk.
  - subst k. destruct (entries !! Key repo) eqn:E; now rewrite lookup_insert_eq.
  - destruct (entries !! Key repo); now rewrite lookup_insert_ne.
Qed.

(** Once marked, a key stays in the map. *)
Lemma touch_all_keeps (top : list ScoredRepo) (entries : gmap string RepoHistory) k :
  is_Some (entries !! k) ->
  is_Some (fold_left (touch reportID reportDate) top entries !! k).
Proof.
  revert entries. induction top as [|repo top IH]; intros entries Hk; simpl; [done|].
  apply IH. rewrite touch_lookup. case_decide; eauto.
Qed.

Lemma touch_all_lookup_in (top : list ScoredRepo) (entries : gmap string RepoHistory) k :
  k ∈ Key <$> top ->
  is_Some (fold_left (touch reportID reportDate) top entries !! k).
Proof.
  revert entries. induction top as [|repo top IH]; intros entries Hk; simpl.
  - by apply elem_of_nil in Hk.
  - rewrite fmap_cons in Hk. apply elem_of_cons in Hk as [->|Hk].
    + apply touch_all_keeps. rewrite touch_lookup, decide_True by done. eauto.
    + by apply IH.
Qed.

Lemma touch_all_lookup_notin (top : list ScoredRepo) (entries : gmap string RepoHistory) k :
  k ∉ Key <$> top ->
  fold_left (touch reportID reportDate) top entries !! k = entries !! k.
Proof.
  revert entries. induction top as [|repo top IH]; intros entries Hk; simpl; [done|].
  rewrite fmap_cons in Hk. apply not_elem_of_cons in Hk as [Hne Hk].
  rewrite IH by done. rewrite touch_lookup. by rewrite decide_False.
Qed.

(** With pairwise distinct keys every repo of the top is marked once. *)
Lemma touch_all_lookup_nodup (top : list ScoredRepo) (entries : gmap string RepoHistory) k :
  NoDup (Key <$> top) -> k ∈ Key <$> top ->
  fold_left (touch reportID reportDate) top entries !! k = Some (bump (entries !! k)).
Proof.
  revert entries. induction top as [|repo top IH]; intros entries Hnd Hk; simpl.
  - by apply elem_of_nil in Hk.
  - rewrite fmap_cons in Hnd, Hk. apply NoDup_cons in Hnd as [Hfresh Hnd].
    apply elem_of_cons in Hk as [->|Hk].
    + rewrite touch_all_lookup_notin by done.
      rewrite touch_lookup. by rewrite decide_True.
    + rewrite IH by done. rewrite touch_lookup.
      rewrite decide_False; [done|]. intros ->. contradiction.
Qed.

Lemma buildCurrentKeys_from (top : list ScoredRepo) (keys : gmap string bool) k :
  default false (fold_left (fun keys repo => <[Key repo := true]> keys) top keys !! k)
  = if decide (k ∈ Key <$> top) then true else default false (keys !! k).
Proof.
  revert keys. induction top as [|repo top IH]; intros keys.
  - simpl fold_left. rewrite decide_False; [done|]. apply not_elem_of_nil.
  - simpl fold_left. rewrite IH, fmap_cons. destruct (decide (k ∈ Key <$> top)) as [Hin|Hnin].
    + rewrite decide_True; [done|]. by apply elem_of_cons; right.
    + destruct (decide (k = Key repo)) as [->|Hne].
      * rewrite lookup_insert_eq. rewrite decide_True; [done|]. by apply elem_of_cons; left.
      * rewrite lookup_insert_ne by done. rewrite decide_False; [done|].
        intros [?|?]%elem_of_cons; contradiction.
Qed.

Lemma isCurrent_spec (top : list ScoredRepo) k :
  isCurrent (buildCurrentKeys top) k = true <-> k ∈ Key <$> top.
Proof.
  unfold isCurrent, buildCurrentKeys. rewrite buildCurrentKeys_from.
  rewrite lookup_empty. simpl. case_decide; split; intros; done.
Qed.

Lemma collectRemovals_from cur (visited acc : list string) :
  fold_left (fun (reposToRemove : list string) repoKey =>
               if negb (isCurrent cur repoKey)
               then (reposToRemove ++ [repoKey])%list
               else reposToRemove) visited acc
  = (acc ++ List.filter (fun k => negb (isCurrent cur k)) visited)%list.
Proof.
  revert acc. induction visited as [|k visited IH]; intros acc; simpl.
  - by rewrite app_nil_r.
  - rewrite IH. destruct (negb (isCurrent cur k)); [|done].
    by rewrite <- app_assoc.
Qed.

Lemma collectRemovals_elem cur (visited : list string) k :
  k ∈ collectRemovals cur visited <-> k ∈ visited /\ isCurrent cur k = false.
Proof.
  unfold collectRemovals. rewrite collectRemovals_from. simpl.
  rewrite !list_elem_of_In, filter_In, negb_true_iff. tauto.
Qed.

Lemma removeAll_lookup (ks : list string) (entries : gmap string RepoHistory) k :
  removeAll ks entries !! k = if decide (k ∈ ks) then None else entries !! k.
Proof.
  unfold removeAll. revert entries. induction ks as [|k' ks IH]; intros entries.
  - simpl fold_left. rewrite decide_False; [done|]. apply not_elem_of_nil.
  - simpl fold_left. rewrite IH. destruct (decide (k ∈ ks)) as [Hin|Hnin].
    + rewrite decide_True; [done|]. by apply elem_of_cons; right.
    + destruct (decide (k = k')) as [->|Hne].
      * rewrite lookup_delete_eq. rewrite decide_True; [done|]. by apply elem_of_cons; left.
      * rewrite lookup_delete_ne by done. rewrite decide_False; [done|].
        intros [?|?]%elem_of_cons; contradiction.
Qed.

(** The order in which [range] visits the keys of a map. *)
Definition visitsKeys (rangeKeys : gmap string RepoHistory -> list string) : Prop :=
  forall entries k, k ∈ rangeKeys entries <-> is_Some (entries !! k).

Lemma mapKeys_visitsKeys : visitsKeys mapKeys.
Proof.
  intros entries k. unfold mapKeys. rewrite list_elem_of_fmap. split.
  - intros [[k' v] [-> Hin]]. apply elem_of_map_to_list in Hin. eauto.
  - intros [v Hv]. exists (k, v). split; [done|]. by apply elem_of_map_to_list.
Qed.

(** Mark and sweep: the keys of the top keep what the marking loop gave
    them, every other key is gone. *)
Lemma updateLoaded_lookup rangeKeys (h : History) (top : list ScoredRepo) k :
  visitsKeys rangeKeys ->
  HistoryMap (updateLoaded rangeKeys h top reportID reportDate) !! k =
    if decide (k ∈ Key <$> top)
    then fold_left (touch reportID reportDate) top (HistoryMap h) !! k
    else None.
Proof.
  intros Hrange. unfold updateLoaded. simpl. rewrite removeAll_lookup.
  set (marked := fold_left (touch reportID reportDate) top (HistoryMap h)).
  destruct (decide (k ∈ Key <$> top)) as [Hin|Hnin].
  - rewrite decide_False; [done|]. intros [_ Hcur]%collectRemovals_elem.
    apply isCurrent_spec in Hin. congruence.
  - destruct (marked !! k) eqn:E.
    + rewrite decide_True; [done|]. apply collectRemovals_elem. split.
      * apply Hrange. eauto.
      * destruct (isCurrent (buildCurrentKeys top) k) eqn:Hc; [|done].
        apply isCurrent_spec in Hc. contradiction.
    + by case_decide.
Qed.

(** The result does not depend on the order of the [range]. *)
Lemma updateLoaded_any_order rangeKeys (h : History) (top : list ScoredRepo) :
  visitsKeys rangeKeys ->
  updateLoaded rangeKeys h top reportID reportDate
  = updateLoaded mapKeys h top reportID reportDate.
Proof.
  intros Hrange.
  assert (HistoryMap (updateLoaded rangeKeys h top reportID reportDate)
          = HistoryMap (updateLoaded mapKeys h top reportID reportDate)) as Heq.
  { apply map_eq. intros k.
    rewrite !updateLoaded_lookup by (done || apply mapKeys_visitsKeys). done. }
  unfold updateLoaded in *. simpl in *. by rewrite Heq.
Qed.

End HistoryFacts.

(** Byte-wise comparison of strings is a total preorder. *)

Lemma ascii_compare_N (a b : ascii) :
  Ascii.compare a b = N.compare (N_of_ascii a) (N_of_ascii b).
Proof. reflexivity. Qed.

Lemma ascii_compare_Eq (a b : ascii) : Ascii.compare a b = Eq -> a = b.
Proof.
  rewrite ascii_compare_N. intros H%N.compare_eq_iff.
  rewrite <- (ascii_N_embedding a), <- (ascii_N_embedding b). by rewrite H.
Qed.

Lemma string_compare_refl (s : string) : String.compare s s = Eq.
Proof.
  induction s as [|a s IH]; simpl; [done|].
  rewrite ascii_compare_N, N.compare_refl. exact IH.
Qed.

Lemma string_leb_refl (s : string) : String.leb s s = true.
Proof. unfold String.leb. by rewrite string_compare_refl. Qed.

Lemma string_compare_trans_le (s1 s2 s3 : string) :
  String.compare s1 s2 <> Gt -> String.compare s2 s3 <> Gt ->
  String.compare s1 s3 <> Gt.
Proof.
  revert s2 s3. induction s1 as [|a s1 IH]; intros [|b s2] [|c s3]; simpl; try done.
  rewrite !ascii_compare_N.
  destruct (N.compare_spec (N_of_ascii a) (N_of_ascii b)) as [Hab|Hab|Hab];
  destruct (N.compare_spec (N_of_ascii b) (N_of_ascii c)) as [Hbc|Hbc|Hbc];
  destruct (N.compare_spec (N_of_ascii a) (N_of_ascii c)) as [Hac|Hac|Hac];
  try done; try lia.
  apply IH.
Qed.

Lemma string_leb_trans (s1 s2 s3 : string) :
  String.leb s1 s2 = true -> String.leb s2 s3 = true -> String.leb s1 s3 = true.
Proof.
  unfold String.leb. intros H12 H23.
  pose proof (string_compare_trans_le s1 s2 s3) as Ht.
  destruct (String.compare s1 s2), (String.compare s2 s3), (String.compare s1 s3);
    try done; exfalso; by apply Ht.
Qed.

Section HistoryClaims.
Import models errors history.

(** What the specification says [UpdateHistory] returns, for a file
    state and the arguments of the call. *)
Definition UpdateHistory_spec (m : Manager) (fs : FileState)
    (currentTop : list ScoredRepo) (r d : string) : Prop :=
  forall h, LoadHistory m fs = Ok h ->
  exists h', UpdateHistory m fs currentTop r d = Ok h' /\
    LatestReport h' = r /\
    (forall k, is_Some (HistoryMap h' !! k) <-> k ∈ Key <$> currentTop) /\
    (forall k e, k ∈ Key <$> currentTop -> HistoryMap h !! k = Some e ->
       HistoryMap h' !! k =
         Some {| WeeksInTop := GoInt.incr (WeeksInTop e);
                 LastSeenReport := r;
                 LastSeenDate := d;
                 FirstSeenReport := FirstSeenReport e;
                 FirstSeenDate := FirstSeenDate e |}) /\
    (forall k, k ∈ Key <$> currentTop -> HistoryMap h !! k = None ->
       HistoryMap h' !! k =
         Some {| WeeksInTop := 1;
                 LastSeenReport := r;
                 LastSeenDate := d;
                 FirstSeenReport := r;
                 FirstSeenDate := d |}) /\
    (forall k, k ∉ Key <$> currentTop -> HistoryMap h' !! k = None).

(** Every entry of a history has its dates in order. *)
Definition datesInvariant (h : History) : Prop :=
  forall k e, HistoryMap h !! k = Some e -> datesOrdered e = true.

(** No entry of a history was first seen after [d]. *)
Definition firstSeenBy (d : string) (h : History) : Prop :=
  forall k e, HistoryMap h !! k = Some e -> String.leb (FirstSeenDate e) d = true.

(** The histories the manager hands out: the one [LoadHistory] reads
    from the file, and those a sequence of runs returns. *)
Definition producedBy (m : Manager) (fs : FileState) (runs : list Run) (h : History) : Prop :=
  LoadHistory m fs = Ok h \/ Ok h ∈ (runAll m fs runs).2.

(** The report dates of the runs never go back. *)
Fixpoint chronological (runs : list Run) : Prop :=
  match runs with
  | [] => True
  | r :: rest =>
      match rest with
      | [] => True
      | r' :: _ => String.leb (run_reportDate r) (run_reportDate r') = true
      end /\ chronological rest
  end.

(** The file the runs start from holds no history, or one whose dates
    are in order and not after the first run. *)
Definition startsClean (m : Manager) (fs : FileState) (runs : list Run) : Prop :=
  forall h0, LoadHistory m fs = Ok h0 ->
    datesInvariant h0 /\
    match runs with
    | [] => True
    | r :: _ => firstSeenBy (run_reportDate r) h0
    end.

End HistoryClaims.

Section HistoryDates.
Import models errors history.

(** What a run with date [d] keeps true of every entry. *)
Definition seenBy (d : string) (entries : gmap string RepoHistory) : Prop :=
  forall k e, entries !! k = Some e ->
    datesOrdered e = true /\ String.leb (FirstSeenDate e) d = true.

Lemma touch_seenBy r d (entries : gmap string RepoHistory) repo :
  seenBy d entries -> seenBy d (touch r d entries repo).
Proof.
  intros Hinv k e. rewrite touch_lookup. case_decide as Hk; [|apply Hinv].
  intros [= <-]. unfold bump, datesOrdered.
  destruct (entries !! k) as [old|] eqn:Hold; simpl.
  - destruct (Hinv k old Hold) as [_ Hfirst]. by split.
  - split; apply string_leb_refl.
Qed.

Lemma touch_all_seenBy r d (top : list ScoredRepo) (entries : gmap string RepoHistory) :
  seenBy d entries -> seenBy d (fold_left (touch r d) top entries).
Proof.
  revert entries. induction top as [|repo top IH]; intros entries Hinv; simpl; [done|].
  apply IH. by apply touch_seenBy.
Qed.

Lemma updateLoaded_seenBy (h : History) (top : list ScoredRepo) r d :
  seenBy d (HistoryMap h) ->
  seenBy d (HistoryMap (updateLoaded mapKeys h top r d)).
Proof.
  intros Hinv k e. rewrite updateLoaded_lookup by apply mapKeys_visitsKeys.
  case_decide; [|done]. by apply touch_all_seenBy.
Qed.

Lemma seenBy_later d d' (entries : gmap string RepoHistory) :
  String.leb d d' = true -> seenBy d entries -> seenBy d' entries.
Proof.
  intros Hle Hinv k e He. destruct (Hinv k e He) as [Hord Hfirst].
  split; [done|]. by apply string_leb_trans with d.
Qed.

(** Saving and loading again gives the history back. *)
Lemma LoadHistory_SaveHistory (m : Manager) (h : History) (fs : FileState) :
  LoadHistory m (SaveHistory m h fs) = Ok h.
Proof. by destruct h. Qed.

Lemma runAll_dates (m : Manager) (runs : list Run) :
  forall fs, chronological runs -> startsClean m fs runs ->
  forall h, Ok h ∈ (runAll m fs runs).2 -> datesInvariant h.
Proof.
  induction runs as [|r rest IH]; intros fs Hchron Hstart h Hin.
  - simpl in Hin. by apply elem_of_nil in Hin.
  - simpl in Hin. unfold runOnce, UpdateHistory in Hin.
    destruct Hchron as [Hnext Hchron].
    destruct (LoadHistory m fs) as [h0|err] eqn:Hload.
    + destruct (Hstart h0 Hload) as [Hord Hfirst].
      set (h1 := updateLoaded mapKeys h0 (run_top r) (run_reportID r) (run_reportDate r)) in *.
      assert (Hseen : seenBy (run_reportDate r) (HistoryMap h1)).
      { apply updateLoaded_seenBy. intros k e He. split; [by apply (Hord k)|by apply (Hfirst k)]. }
      destruct (runAll m (SaveHistory m h1 fs) rest) as [fs2 outs] eqn:Hrest.
      simpl in Hin. apply elem_of_cons in Hin as [[= ->]|Hin].
      * intros k e He. by apply (Hseen k e).
      * apply (IH (SaveHistory m h1 fs)); [done| |by rewrite Hrest].
        intros h0' Hload'. rewrite LoadHistory_SaveHistory in Hload'.
        injection Hload' as <-. split.
        -- intros k e He. by apply (Hseen k e).
        -- destruct rest as [|r' rest']; [done|].
           intros k e He.
           by apply (seenBy_later (run_reportDate r) (run_reportDate r') _ Hnext Hseen k e).
    + destruct (runAll m fs rest) as [fs2 outs] eqn:Hrest.
      simpl in Hin. apply elem_of_cons in Hin as [[=]|Hin].
      apply (IH fs); [done| |by rewrite Hrest].
      intros h0' Hload'. congruence.
Qed.

End HistoryDates.

(** ** Stable sorting *)

Lemma filter_none {A : Type} (P : A -> Prop) `{forall x, Decision (P x)} (l : list A) :
  Forall (fun z => ~ P z) l -> filter P l = [].
Proof.
  induction 1 as [|z l Hz _ IH]; [done|]. by rewrite filter_cons_False.
Qed.

Section StableSort.
Context {A K : Type} `{EqDecision K}.
Variable key : A -> K.
Variable ltk : K -> K -> bool.

(** The comparison looks at keys only, and orders them strictly and
    totally. *)
Hypothesis ltk_irrefl : forall k, ltk k k = false.
Hypothesis ltk_trans : forall a b c, ltk a b = true -> ltk b c = true -> ltk a c = true.
Hypothesis ltk_total : forall a b, ltk a b = false -> ltk b a = false -> a = b.

Definition lessByKey (x y : A) : bool := ltk (key x) (key y).

(** [x] may stand before [y]: [y] is not less than [x]. *)
Definition inOrderByKey (x y : A) : Prop := lessByKey y x = false.

(** The elements with a given key, in their order. *)
Definition withKey (k : K) (l : list A) : list A := filter (fun z => key z = k) l.

Lemma ltk_asym a b : ltk a b = true -> ltk b a = false.
Proof.
  intros Hab. destruct (ltk b a) eqn:Hba; [|done].
  by rewrite <- (ltk_irrefl a), (ltk_trans a b a).
Qed.

Lemma insert_perm x (l : list A) : Permutation (sort.insert lessByKey x l) (x :: l).
Proof.
  induction l as [|y l IH]; simpl; [done|].
  destruct (lessByKey x y); [done|].
  rewrite IH. apply perm_swap.
Qed.

Lemma stable_snoc (l : list A) x :
  sort.stable lessByKey (l ++ [x]) = sort.insert lessByKey x (sort.stable lessByKey l).
Proof. unfold sort.stable. by rewrite fold_left_app. Qed.

Lemma stable_perm (l : list A) : Permutation (sort.stable lessByKey l) l.
Proof.
  induction l as [|x l IH] using rev_ind; [done|].
  rewrite stable_snoc, insert_perm, IH. apply Permutation_cons_append.
Qed.

Lemma stable_length (l : list A) : length (sort.stable lessByKey l) = length l.
Proof. apply Permutation_length, stable_perm. Qed.

Lemma insert_sorted x (l : list A) :
  StronglySorted inOrderByKey l -> StronglySorted inOrderByKey (sort.insert lessByKey x l).
Proof.
  induction 1 as [|y l Hsorted IH Hall]; simpl.
  - repeat constructor.
  - destruct (lessByKey x y) eqn:Hxy.
    + constructor; [by constructor|]. constructor.
      * by apply ltk_asym.
      * eapply Forall_impl; [exact Hall|]. intros z Hz. unfold inOrderByKey, lessByKey in *.
        destruct (ltk (key z) (key x)) eqn:Hzx; [|done].
        by rewrite (ltk_trans _ _ _ Hzx Hxy) in Hz.
    + constructor; [done|].
      eapply Permutation_Forall; [symmetry; apply insert_perm|]. by constructor.
Qed.

Lemma stable_sorted (l : list A) : StronglySorted inOrderByKey (sort.stable lessByKey l).
Proof.
  induction l as [|x l IH] using rev_ind; [constructor|].
  rewrite stable_snoc. by apply insert_sorted.
Qed.

(** A new element goes behind the elements of its key. *)
Lemma insert_withKey k x (l : list A) :
  StronglySorted inOrderByKey l ->
  withKey k (sort.insert lessByKey x l) =
    (withKey k l ++ if decide (key x = k) then [x] else [])%list.
Proof.
  unfold withKey. induction 1 as [|y l Hsorted IH Hall]; simpl.
  - rewrite filter_cons, filter_nil. by case_decide.
  - destruct (lessByKey x y) eqn:Hxy.
    + rewrite filter_cons. destruct (decide (key x = k)) as [Hk|Hk]; [|by rewrite app_nil_r].
      assert (Hnone : filter (fun z => key z = k) (y :: l) = []).
      { apply filter_none. constructor.
        - intros Hy. unfold lessByKey in Hxy. rewrite Hk, <- Hy, ltk_irrefl in Hxy. done.
        - eapply Forall_impl; [exact Hall|]. intros z Hz Hkz.
          unfold inOrderByKey, lessByKey in *. rewrite Hkz, <- Hk in Hz. congruence. }
      by rewrite Hnone.
    + rewrite !(filter_cons _ y), IH. by destruct (decide (key y = k)).
Qed.

Lemma stable_withKey k (l : list A) :
  withKey k (sort.stable lessByKey l) = withKey k l.
Proof.
  induction l as [|x l IH] using rev_ind; [done|].
  rewrite stable_snoc, insert_withKey by apply stable_sorted.
  rewrite IH. unfold withKey. rewrite filter_app, filter_cons, filter_nil. by case_decide.
Qed.

(** Two sorted sequences of the same elements that keep the elements of
    each key in the same order are equal. *)
Lemma sorted_stable_eq (l1 l2 : list A) :
  Permutation l1 l2 ->
  StronglySorted inOrderByKey l1 -> StronglySorted inOrderByKey l2 ->
  (forall k, withKey k l1 = withKey k l2) ->
  l1 = l2.
Proof.
  revert l2. induction l1 as [|x t1 IH]; intros l2 Hperm Hs1 Hs2 Hkeys.
  - by apply Permutation_nil in Hperm.
  - destruct l2 as [|y t2]; [by apply Permutation_sym, Permutation_nil in Hperm|].
    apply StronglySorted_inv in Hs1 as [Hs1 Hall1].
    apply StronglySorted_inv in Hs2 as [Hs2 Hall2].
    assert (Hxy : lessByKey x y = false).
    { assert (Hin : x ∈ y :: t2) by (rewrite <- Hperm; by left).
      apply elem_of_cons in Hin as [->|Hin]; [apply ltk_irrefl|].
      rewrite Forall_forall in Hall2. by apply Hall2. }
    assert (Hyx : lessByKey y x = false).
    { assert (Hin : y ∈ x :: t1) by (rewrite Hperm; by left).
      apply elem_of_cons in Hin as [->|Hin]; [apply ltk_irrefl|].
      rewrite Forall_forall in Hall1. by apply Hall1. }
    assert (Hk : key x = key y) by (by apply ltk_total).
    pose proof (Hkeys (key x)) as Hhead. unfold withKey in Hhead.
    rewrite !filter_cons, decide_True, decide_True in Hhead by done.
    injection Hhead as -> Htail.
    f_equal. apply IH; [by apply Permutation_cons_inv in Hperm|done|done|].
    intros k. specialize (Hkeys k). unfold withKey in *.
    rewrite !filter_cons in Hkeys. case_decide; [by injection Hkeys|done].
Qed.

(** Hence the result of a stable sort does not depend on the algorithm. *)
Lemma stable_sort_unique (l sorted : list A) :
  Permutation sorted l ->
  StronglySorted inOrderByKey sorted ->
  (forall k, withKey k sorted = withKey k l) ->
  sorted = sort.stable lessByKey l.
Proof.
  intros Hperm Hsorted Hkeys. apply sorted_stable_eq.
  - by rewrite stable_perm.
  - done.
  - apply stable_sorted.
  - intros k. by rewrite stable_withKey.
Qed.

End StableSort.

(** ** Slices *)

Section SliceFacts.
Import slices.
Context {A : Type}.
Implicit Types (h : Heap A) (s : Slice) (a vals : list A).

Lemma backing_older h a s : (array s < length h)%nat -> backing (h ++ [a])%list s = backing h s.
Proof. intros Hlt. unfold backing. by rewrite lookup_app_l. Qed.

Lemma elems_older h a s : (array s < length h)%nat -> elems (h ++ [a])%list s = elems h s.
Proof. intros Hlt. unfold elems. by rewrite backing_older. Qed.

Lemma backing_fresh h a s : array s = length h -> backing (h ++ [a])%list s = a.
Proof.
  intros Heq. unfold backing. rewrite lookup_app_r by lia.
  by rewrite Heq, Nat.sub_diag.
Qed.

(** Writing through a slice of the newest array leaves the older arrays
    alone. *)
Lemma store_fresh h a s vals :
  array s = length h ->
  store (h ++ [a])%list s vals =
    (h ++ [take (offset s) a ++ vals ++ drop (offset s + length vals) a])%list.
Proof.
  intros Heq. unfold store. rewrite backing_fresh by done.
  rewrite Heq, insert_app_r_alt by lia. by rewrite Nat.sub_diag.
Qed.

Lemma elems_length h s : valid h s -> length (elems h s) = len s.
Proof.
  intros (_ & Hcap & Hfit). unfold elems. rewrite length_take, length_drop. lia.
Qed.

(** A slice that covers the whole of the newest array shows it. *)
Lemma elems_whole h a s :
  array s = length h -> offset s = 0%nat -> len s = length a ->
  elems (h ++ [a])%list s = a.
Proof.
  intros Harr Hoff Hlen. unfold elems. rewrite backing_fresh by done.
  rewrite Hoff, Hlen. simpl. by rewrite take_ge.
Qed.

End SliceFacts.

(** ** Ranking *)

Section RankFacts.
Import models slices calculator.

(** The order [rankLess] puts on sort keys: greater first. *)
Definition keyBefore (k1 k2 : Z * Z) : bool :=
  if negb (k1.1 =? k2.1) then k1.1 >? k2.1 else k1.2 >? k2.2.

Lemma rankLess_byKey a b : rankLess a b = lessByKey SortKey keyBefore a b.
Proof. reflexivity. Qed.

Lemma keyBefore_irrefl k : keyBefore k k = false.
Proof. unfold keyBefore. rewrite Z.eqb_refl. simpl. lia. Qed.

Lemma keyBefore_trans a b c :
  keyBefore a b = true -> keyBefore b c = true -> keyBefore a c = true.
Proof.
  unfold keyBefore. destruct a as [a1 a2], b as [b1 b2], c as [c1 c2]; simpl.
  destruct (Z.eqb_spec a1 b1), (Z.eqb_spec b1 c1), (Z.eqb_spec a1 c1); simpl; lia.
Qed.

Lemma keyBefore_total a b : keyBefore a b = false -> keyBefore b a = false -> a = b.
Proof.
  unfold keyBefore. destruct a as [a1 a2], b as [b1 b2]; simpl.
  destruct (Z.eqb_spec a1 b1), (Z.eqb_spec b1 a1); simpl; intros; f_equal; lia.
Qed.

Lemma inOrder_keyGe a b : inOrderByKey SortKey keyBefore a b <-> keyGe a b.
Proof.
  unfold inOrderByKey, lessByKey, keyBefore, keyGe, SortKey. simpl.
  destruct (Z.eqb_spec (Heat30 b) (Heat30 a)); simpl; lia.
Qed.

Lemma StronglySorted_iff {B : Type} (R1 R2 : B -> B -> Prop) (l : list B) :
  (forall x y, R1 x y <-> R2 x y) -> StronglySorted R1 l -> StronglySorted R2 l.
Proof.
  intros HR. induction 1 as [|x l _ IH Hall]; constructor; [done|].
  eapply Forall_impl; [exact Hall|]. intros y. apply HR.
Qed.

Lemma StronglySorted_take {B : Type} (R : B -> B -> Prop) (n : nat) (l : list B) :
  StronglySorted R l -> StronglySorted R (take n l).
Proof.
  intros Hs. revert n. induction Hs as [|x l _ IH Hall]; intros [|n]; simpl; try constructor.
  - apply IH.
  - by apply Forall_take.
Qed.

(** The ranked sequence of a list of scored repos. *)
Definition ranking (input : list ScoredRepo) : list ScoredRepo :=
  sort.stable rankLess input.

Lemma ranking_perm input : Permutation (ranking input) input.
Proof. apply (stable_perm SortKey keyBefore). Qed.

Lemma ranking_sorted input : StronglySorted keyGe (ranking input).
Proof.
  eapply StronglySorted_iff; [apply inOrder_keyGe|].
  apply (stable_sorted SortKey keyBefore);
    [apply keyBefore_irrefl|apply keyBefore_trans].
Qed.

Lemma ranking_stable input k :
  filter (fun r => SortKey r = k) (ranking input) = filter (fun r => SortKey r = k) input.
Proof.
  apply (stable_withKey SortKey keyBefore);
    [apply keyBefore_irrefl|apply keyBefore_trans].
Qed.

(** Whatever stable sort the library runs, it returns [ranking]. *)
Lemma ranking_unique input sorted :
  Permutation sorted input ->
  StronglySorted keyGe sorted ->
  (forall k, filter (fun r => SortKey r = k) sorted = filter (fun r => SortKey r = k) input) ->
  sorted = ranking input.
Proof.
  intros Hperm Hsorted Hkeys.
  apply (stable_sort_unique SortKey keyBefore);
    [apply keyBefore_irrefl|apply keyBefore_trans|apply keyBefore_total|done| |done].
  eapply StronglySorted_iff; [|exact Hsorted]. intros x y. symmetry. apply inOrder_keyGe.
Qed.

(** [RankRepositories] allocates one array and writes nowhere else. *)
Lemma RankRepositories_fresh sc (h : Heap ScoredRepo) s :
  exists fresh,
    RankRepositories sc h s =
      ({| array := length h; offset := 0; len := len s; cap := len s |},
       (h ++ [fresh])%list).
Proof.
  unfold RankRepositories, make, copy, SliceStable.
  rewrite store_fresh by done. rewrite store_fresh by done. eauto.
Qed.

Lemma RankRepositories_valid sc (h : Heap ScoredRepo) s :
  valid h s ->
  RankRepositories sc h s =
    ({| array := length h; offset := 0; len := len s; cap := len s |},
     (h ++ [ranking (elems h s)])%list).
Proof.
  intros Hvalid. pose proof (elems_length h s Hvalid) as Hlen.
  destruct Hvalid as (Harr & Hcap & Hfit).
  unfold RankRepositories, make, copy, SliceStable.
  rewrite store_fresh by done. simpl.
  rewrite elems_older by done.
  rewrite Nat.min_id, take_ge by lia.
  rewrite drop_ge by (rewrite length_replicate; lia).
  rewrite app_nil_r.
  rewrite store_fresh by done. simpl.
  rewrite elems_whole by done.
  unfold ranking. f_equal. f_equal. f_equal.
  rewrite drop_ge; [by rewrite app_nil_r|].
  rewrite (stable_length SortKey keyBefore). lia.
Qed.

End RankFacts.

(** ** Floating-point facts *)

Section FloatFacts.
Import float64.

Lemma binary_round_aux_notNegative m e l :
  notNegative (binary_round_aux prec emax false m e l).
Proof.
  unfold binary_round_aux.
  destruct (shr_fexp prec emax m e l) as [mrs e'].
  destruct (shr_fexp prec emax _ e' loc_Exact) as [mrs'' e''].
  destruct (shr_m mrs''); simpl; [done| |done].
  by destruct (e'' <=? emax - prec).
Qed.

Lemma binary_round_notNegative m e : notNegative (binary_round prec emax false m e).
Proof.
  unfold binary_round. destruct (shl_align _ _ _) as [mz ez].
  apply binary_round_aux_notNegative.
Qed.

Lemma ofInt_notNegative (x : Z) : 0 <= x -> notNegative (ofInt x).
Proof.
  intros Hx. unfold ofInt, binary_normalize. destruct x as [|p|p]; [done| |lia].
  apply binary_round_notNegative.
Qed.

Lemma mul_notNegative x y : notNegative x -> notNegative y -> notNegative (mul x y).
Proof.
  destruct x as [[]|[]| |[] mx ex], y as [[]|[]| |[] my ey]; simpl; try done.
  intros _ _. apply binary_round_aux_notNegative.
Qed.

Lemma add_notNegative x y : notNegative x -> notNegative y -> notNegative (add x y).
Proof.
  destruct x as [[]|[]| |[] mx ex], y as [[]|[]| |[] my ey]; simpl; try done.
  intros _ _. apply binary_round_notNegative.
Qed.

(** Division by a positive finite number. *)
Lemma div_notNegative x my ey :
  notNegative x -> notNegative (div x (S754_finite false my ey)).
Proof.
  destruct x as [[]|[]| |[] mx ex]; simpl; try done.
  intros _. unfold div, SFdiv.
  destruct (SFdiv_core_binary prec emax (Z.pos mx) ex (Z.pos my) ey) as [[mz ez] lz].
  apply binary_round_aux_notNegative.
Qed.

(** On a number [+-m * 2^-p] the two integer parts are the two integer
    divisions: [floor] rounds down, [truncate] toward zero. *)
Lemma floor_as_div s m p :
  floor (S754_finite s m (Z.neg p)) =
    Some ((if s then Z.neg m else Z.pos m) / 2 ^ Z.pos p).
Proof.
  unfold floor. f_equal.
  change (Z.shiftl ?a (Z.neg p)) with (Z.shiftr a (Z.pos p)).
  by apply Z.shiftr_div_pow2.
Qed.

Lemma truncate_as_quot s m p :
  truncate (S754_finite s m (Z.neg p)) =
    Some ((if s then Z.neg m else Z.pos m) ÷ 2 ^ Z.pos p).
Proof.
  unfold truncate. f_equal.
  change (Z.shiftl ?a (Z.neg p)) with (Z.shiftr a (Z.pos p)).
  rewrite Z.shiftr_div_pow2 by done.
  assert (Hpow : 0 < 2 ^ Z.pos p) by (apply Z.pow_pos_nonneg; lia).
  destruct s.
  - change (Z.neg m) with (- Z.pos m). rewrite Z.quot_opp_l by lia.
    by rewrite Z.quot_div_nonneg by lia.
  - by rewrite Z.quot_div_nonneg by lia.
Qed.

(** Above zero, rounding down and rounding toward zero agree. *)
Lemma floor_truncate f : notNegative f -> floor f = truncate f.
Proof. by destruct f as [|[]| |[] m e]. Qed.

Lemma convert_floor_truncate f : notNegative f -> convert floor f = toInt f.
Proof. intros Hf. unfold toInt, convert. by rewrite floor_truncate. Qed.

Lemma mul_comm x y : mul x y = mul y x.
Proof.
  destruct x as [sx|sx| |sx mx ex], y as [sy|sy| |sy my ey]; simpl;
    try (by rewrite (xorb_comm sx sy)); try done.
  by rewrite (xorb_comm sx sy), (Pos.mul_comm mx my), (Z.add_comm ex ey).
Qed.

(** The constants of the score formula, as binary64 numbers. *)
Lemma constants_bits :
  constant 6 10 = S754_finite false 5404319552844595 (-53) /\
  constant 3 10 = S754_finite false 5404319552844595 (-54) /\
  constant 1 10 = S754_finite false 7205759403792794 (-56) /\
  constant 7 1 = S754_finite false 7881299347898368 (-50) /\
  constant 30 1 = S754_finite false 8444249301319680 (-48).
Proof. repeat split; reflexivity. Qed.

End FloatFacts.

(** ** The score *)

Section ScoreFacts.
Import models calculator.

(** The sum the specification writes,
    [0.6 * starsToday + 0.3 * (starsThisWeek / 7) + 0.1 * (starsThisMonth / 30)],
    in floating-point arithmetic. *)
Definition weightedSum (starsToday starsThisWeek starsThisMonth : Z) : spec_float :=
  float64.add
    (float64.add
       (float64.mul (float64.constant 6 10) (float64.ofInt starsToday))
       (float64.mul (float64.constant 3 10)
          (float64.div (float64.ofInt starsThisWeek) (float64.constant 7 1))))
    (float64.mul (float64.constant 1 10)
       (float64.div (float64.ofInt starsThisMonth) (float64.constant 30 1))).

(** The score the specification writes: the floor of that sum. *)
Definition floorScore (repo : ClassifiedRepo) : Z :=
  float64.convert float64.floor
    (weightedSum (StarsToday (Metadata repo)) (StarsThisWeek (Metadata repo))
                 (StarsThisMonth (Metadata repo))).

(** The same sum cut off toward zero, which is what [int(scoreValue)]
    does. *)
Definition truncatedScore (repo : ClassifiedRepo) : Z :=
  float64.toInt
    (weightedSum (StarsToday (Metadata repo)) (StarsThisWeek (Metadata repo))
                 (StarsThisMonth (Metadata repo))).

Lemma Score_truncated repo : Score (scoreRepo repo) = truncatedScore repo.
Proof.
  unfold truncatedScore, weightedSum.
  rewrite (mul_comm (float64.constant 6 10)), (mul_comm (float64.constant 3 10)),
    (mul_comm (float64.constant 1 10)).
  reflexivity.
Qed.

Lemma weightedSum_notNegative a b c :
  0 <= a -> 0 <= b -> 0 <= c -> float64.notNegative (weightedSum a b c).
Proof.
  intros Ha Hb Hc. unfold weightedSum.
  destruct constants_bits as (H6 & H3 & H1 & H7 & H30).
  rewrite H6, H3, H1, H7, H30.
  repeat first [ apply add_notNegative | apply mul_notNegative | apply div_notNegative
               | by apply ofInt_notNegative | exact I ].
Qed.

Lemma CalculateScores_map sc repos : CalculateScores sc repos = scoreRepo <$> repos.
Proof.
  unfold CalculateScores.
  assert (Hgen : forall acc,
    fold_left (fun (scoredRepos : list ScoredRepo) repo =>
                 (scoredRepos ++ [scoreRepo repo])%list) repos acc
    = (acc ++ (scoreRepo <$> repos))%list).
  { induction repos as [|repo repos IH]; intros acc; simpl.
    - by rewrite app_nil_r.
    - rewrite IH. by rewrite <- app_assoc. }
  apply Hgen.
Qed.

End ScoreFacts.

(** ** Loops that append *)

(** A loop that appends [f x] to its result for each [x] builds the
    concatenation of the [f x]. *)
Lemma fold_left_append {A B : Type} (f : A -> list B) (l : list A) (acc : list B) :
  fold_left (fun acc x => (acc ++ f x)%list) l acc = (acc ++ flat_map f l)%list.
Proof.
  revert acc. induction l as [|x l IH]; intros acc; simpl.
  - by rewrite app_nil_r.
  - by rewrite IH, app_assoc.
Qed.

Lemma fold_left_ext {A B : Type} (f g : B -> A -> B) (l : list A) (acc : B) :
  (forall b a, f b a = g b a) -> fold_left f l acc = fold_left g l acc.
Proof.
  intros Hfg. revert acc. induction l as [|x l IH]; intros acc; simpl; [done|].
  by rewrite Hfg, IH.
Qed.

Lemma flat_map_filter_map {A B : Type} (p : A -> bool) (f : A -> B) (l : list A) :
  flat_map (fun x => if p x then [f x] else []) l = f <$> List.filter p l.
Proof.
  induction l as [|x l IH]; simpl; [done|].
  destruct (p x); simpl; by rewrite IH.
Qed.

(** ** Strings *)

Section StringFacts.
Import strings.

Lemma append_nil (s : string) : ("" ++ s)%string = s.
Proof. reflexivity. Qed.

Lemma append_cons (c : ascii) (s t : string) :
  (String c s ++ t)%string = String c (s ++ t)%string.
Proof. reflexivity. Qed.

Lemma prefix_spec (p s : string) :
  String.prefix p s = true <-> exists rest, s = (p ++ rest)%string.
Proof.
  revert s. induction p as [|a p IH]; intros s.
  - destruct s; simpl; split; eauto.
  - destruct s as [|b s]; simpl.
    + split; [done|]. by intros [rest Hrest].
    + destruct (ascii_dec a b) as [->|Hne].
      * rewrite IH. split; intros [rest Hrest]; exists rest.
        -- by rewrite append_cons, <- Hrest.
        -- rewrite append_cons in Hrest. by injection Hrest.
      * split; [done|]. intros [rest Hrest].
        rewrite append_cons in Hrest. injection Hrest as <- _. done.
Qed.




(** A keyword has a hyphen. *)
Definition hasHyphen (keyword : string) : Prop :=
  exists pre post, keyword = (pre ++ "-" ++ post)%string.


End StringFacts.

(** ** The classifier *)

Section ClassifierFacts.
Import models config classifier.

Variable c : Classifier.




(** How many keywords of a list match a text. *)
Lemma countMatches_from (text : string) (kws : list string) (acc : Z) :
  fold_left (fun matches keyword =>
               if matchesKeyword c text keyword then matches + 1 else matches) kws acc
  = acc + Z.of_nat (length (List.filter (matchesKeyword c text) kws)).
Proof.
  revert acc. induction kws as [|kw kws IH]; intros acc; simpl; [lia|].
  rewrite IH. destruct (matchesKeyword c text kw); simpl; lia.
Qed.

Lemma countMatches_length (text : string) (kws : list string) :
  countMatches c text kws = Z.of_nat (length (List.filter (matchesKeyword c text) kws)).
Proof. unfold countMatches. rewrite countMatches_from. lia. Qed.


(** The number of keywords of category [name] that match the repo. *)
Definition matchCount (repo : RepoMetadata) (name : string) : Z :=
  countMatches c (buildSearchText c repo)
    (default [] (Categories (keywords c) !! name)).

Definition categoryMatches (repo : RepoMetadata) (entry : string * list string) : bool :=
  existsb (fun keyword => matchesKeyword c (buildSearchText c repo) keyword) entry.2.

Lemma assignCategories_filter order repo :
  assignCategories c order repo = (List.filter (categoryMatches repo) order).*1.
Proof.
  unfold assignCategories.
  rewrite (fold_left_ext _
    (fun acc entry => (acc ++ (if categoryMatches repo entry then [entry.1] else []))%list)).
  - rewrite fold_left_append. simpl. apply flat_map_filter_map.
  - intros acc [name kws]. unfold categoryMatches. simpl.
    destruct (existsb _ kws); [done|by rewrite app_nil_r].
Qed.

(** The loop of [selectPrimaryCategory]: it keeps the first category
    whose count beats the best so far. *)
Definition selectStep (repo : RepoMetadata) (state : Z * string) (categoryName : string)
    : Z * string :=
  let '(maxMatches, primaryCategory) := state in
  if matchCount repo categoryName >? maxMatches then (matchCount repo categoryName, categoryName)
  else (maxMatches, primaryCategory).

Lemma selectStep_fold repo (cats : list string) (m0 : Z) (p0 : string) :
  let '(m, p) := fold_left (selectStep repo) cats (m0, p0) in
  (m = m0 /\ p = p0 /\ Forall (fun n => matchCount repo n <= m0) cats) \/
  (exists pre post,
      cats = (pre ++ p :: post)%list /\ m = matchCount repo p /\ m0 < m /\
      Forall (fun n => matchCount repo n < m) pre /\
      Forall (fun n => matchCount repo n <= m) post).
Proof.
  revert m0 p0. induction cats as [|n cats IH]; intros m0 p0; simpl.
  - left. by repeat split.
  - destruct (matchCount repo n >? m0) eqn:Hcmp.
    + specialize (IH (matchCount repo n) n).
      destruct (fold_left (selectStep repo) cats (matchCount repo n, n)) as [m p].
      destruct IH as [(-> & -> & Hall)|(pre & post & -> & -> & Hlt & Hpre & Hpost)].
      * right. exists [], cats. repeat split; [lia|constructor|done].
      * right. exists (n :: pre), post. repeat split; [lia| |done].
        constructor; [lia|done].
    + specialize (IH m0 p0).
      destruct (fold_left (selectStep repo) cats (m0, p0)) as [m p].
      destruct IH as [(-> & -> & Hall)|(pre & post & -> & -> & Hlt & Hpre & Hpost)].
      * left. repeat split. constructor; [lia|done].
      * right. exists (n :: pre), post. repeat split; [done| |done].
        constructor; [lia|done].
Qed.

Lemma selectPrimaryCategory_fold repo (first : string) (rest : list string) :
  selectPrimaryCategory c repo (first :: rest)
  = (fold_left (selectStep repo) (first :: rest) (0, first)).2.
Proof.
  unfold selectPrimaryCategory. f_equal.
  apply fold_left_ext. by intros [maxMatches primaryCategory] categoryName.
Qed.


End ClassifierFacts.

(** ** The models of [strings.ToLower], [strings.Fields] and [strings.Trim] *)

Section StringModels.
Import strings.

(** Every character of [s] satisfies [p]. *)
Fixpoint allChars (p : ascii -> bool) (s : string) : bool :=
  match s with
  | EmptyString => true
  | String c rest => p c && allChars p rest
  end.

Definition notSpace (c : ascii) : bool := negb (isSpace c).

(** Every byte of the text is below 128: the text is ASCII, and the
    functions of [strings] above are those of Go on it. *)
Definition isASCII (s : string) : bool :=
  allChars (fun c => (nat_of_ascii c <? 128)%nat) s.

(** The last character of a string. *)
Fixpoint lastChar (s : string) : option ascii :=
  match s with
  | EmptyString => None
  | String c EmptyString => Some c
  | String _ rest => lastChar rest
  end.

Lemma append_nil_r (s : string) : (s ++ "")%string = s.
Proof. induction s as [|c s IH]; [done|]. by rewrite append_cons, IH. Qed.

Lemma append_assoc (s t u : string) : ((s ++ t) ++ u)%string = (s ++ t ++ u)%string.
Proof. induction s as [|c s IH]; [done|]. by rewrite !append_cons, IH. Qed.

Lemma allChars_app p (s t : string) :
  allChars p (s ++ t) = allChars p s && allChars p t.
Proof.
  induction s as [|c s IH]; [done|].
  rewrite append_cons. simpl. by rewrite IH, andb_assoc.
Qed.

Lemma lowerChar_idempotent (c : ascii) : lowerChar (lowerChar c) = lowerChar c.
Proof. by destruct c as [[] [] [] [] [] [] [] []]. Qed.

Lemma ToLower_idempotent (s : string) : ToLower (ToLower s) = ToLower s.
Proof.
  induction s as [|c s IH]; simpl; [done|]. by rewrite lowerChar_idempotent, IH.
Qed.

Lemma ToLower_no_upper (s : string) :
  allChars (fun c => negb (isUpper c)) (ToLower s) = true.
Proof.
  induction s as [|c s IH]; simpl; [done|]. rewrite IH, andb_true_r.
  by destruct c as [[] [] [] [] [] [] [] []].
Qed.

Lemma fieldsFrom_nil (word : string) :
  fieldsFrom word "" = if String.eqb word "" then [] else [word].
Proof. reflexivity. Qed.

Lemma fieldsFrom_cons (word : string) (c : ascii) (rest : string) :
  fieldsFrom word (String c rest) =
    if isSpace c
    then if String.eqb word "" then fieldsFrom "" rest else word :: fieldsFrom "" rest
    else fieldsFrom (word ++ String c "") rest.
Proof. reflexivity. Qed.

(** The fields are not empty and hold no white space. *)
Lemma fieldsFrom_tokens (s word w : string) :
  allChars notSpace word = true ->
  w ∈ fieldsFrom word s -> w <> "" /\ allChars notSpace w = true.
Proof.
  revert word. induction s as [|c s IH]; intros word Hword.
  - rewrite fieldsFrom_nil. destruct (String.eqb_spec word "") as [->|Hne].
    + by intros ?%elem_of_nil.
    + by intros ->%list_elem_of_singleton.
  - rewrite fieldsFrom_cons. destruct (isSpace c) eqn:Hc.
    + destruct (String.eqb_spec word "") as [->|Hne]; [by apply IH|].
      intros [->|Hin]%elem_of_cons; [done|]. by apply (IH "").
    + apply IH. rewrite allChars_app, Hword. simpl. unfold notSpace. by rewrite Hc.
Qed.

Lemma Fields_tokens (s w : string) :
  w ∈ Fields s -> w <> "" /\ allChars notSpace w = true.
Proof. by apply fieldsFrom_tokens. Qed.

Lemma fieldsFrom_word (w word s : string) :
  allChars notSpace w = true ->
  fieldsFrom word (w ++ s) = fieldsFrom (word ++ w) s.
Proof.
  revert word. induction w as [|c w IH]; intros word Hw.
  - by rewrite append_nil, append_nil_r.
  - simpl in Hw. apply andb_true_iff in Hw as [Hc Hw].
    rewrite append_cons, fieldsFrom_cons.
    unfold notSpace in Hc. apply negb_true_iff in Hc. rewrite Hc.
    rewrite IH by done. by rewrite append_assoc.
Qed.

(** Words joined by single spaces are split into the same words. *)
Lemma Fields_Join (words : list string) :
  Forall (fun w => w <> "" /\ allChars notSpace w = true) words ->
  Fields (Join words " ") = words.
Proof.
  unfold Fields, Join. induction 1 as [|w words [Hne Hw] Hall IH]; [done|].
  destruct words as [|w' words].
  - simpl. rewrite <- (append_nil_r w) at 1.
    rewrite fieldsFrom_word, append_nil by done.
    rewrite fieldsFrom_nil. by destruct (String.eqb_spec w "").
  - change (String.concat " " (w :: w' :: words))
      with (w ++ String " " (String.concat " " (w' :: words)))%string.
    rewrite fieldsFrom_word, append_nil, fieldsFrom_cons by done.
    simpl isSpace. cbv iota. destruct (String.eqb_spec w "") as [|_]; [done|].
    by rewrite IH.
Qed.

(** [TrimLeft] removes a prefix made of characters of the cutset, and
    what is left does not begin with one. *)
Lemma TrimLeft_spec (s cutset : string) :
  exists pre,
    s = (pre ++ TrimLeft s cutset)%string /\
    allChars (inCutset cutset) pre = true /\
    match TrimLeft s cutset with
    | String c _ => inCutset cutset c = false
    | EmptyString => True
    end.
Proof.
  induction s as [|c s (pre & Hs & Hpre & Hhead)]; simpl.
  - by exists "".
  - destruct (inCutset cutset c) eqn:Hc.
    + exists (String c pre). rewrite append_cons, <- Hs. simpl. by rewrite Hc, Hpre.
    + by exists "".
Qed.

(** [TrimRight] removes a suffix made of characters of the cutset, and
    what is left does not end with one. *)
Lemma TrimRight_spec (s cutset : string) :
  exists post,
    s = (TrimRight s cutset ++ post)%string /\
    allChars (inCutset cutset) post = true /\
    match lastChar (TrimRight s cutset) with
    | Some c => inCutset cutset c = false
    | None => True
    end.
Proof.
  induction s as [|c s (post & Hs & Hpost & Hlast)]; simpl.
  - by exists "".
  - destruct (TrimRight s cutset) as [|d kept] eqn:Hkept.
    + destruct (inCutset cutset c) eqn:Hc.
      * exists (String c post). rewrite append_nil in *. subst post. simpl.
        by rewrite Hc, Hpost.
      * exists post. rewrite append_cons, <- Hs. by repeat split.
    + exists post. rewrite append_cons, <- Hs. by repeat split.
Qed.

End StringModels.

Section ClassifyFacts.
Import models config classifier.

Variable c : Classifier.

(** The filter of [Classify]. *)
Definition passes (repo : RepoMetadata) : bool :=
  matchesInclude c repo && negb (matchesExclude c repo).

(** The record [Classify] appends for a repo that passes, when the map of
    categories is visited in [order]. *)
Definition classification (order : list (string * list string)) (repo : RepoMetadata)
    : ClassifiedRepo :=
  {| Metadata := repo;
     models.Categories := assignCategories c order repo;
     PrimaryCategory := selectPrimaryCategory c repo (assignCategories c order repo);
     MatchScore := calculateMatchScore c order repo |}.

Lemma Classify_from sched (repos : list RepoMetadata) (i : nat) (acc : list ClassifiedRepo) :
  fold_left (classifyOne c sched) repos (i, acc) =
    ((i + length repos)%nat,
     (acc ++ List.concat (imap (fun j repo =>
               if passes repo then [classification (sched (i + j)%nat) repo] else [])
             repos))%list).
Proof.
  revert i acc. induction repos as [|repo repos IH]; intros i acc; simpl.
  - by rewrite Nat.add_0_r, app_nil_r.
  - rewrite IH. f_equal; [lia|]. rewrite Nat.add_0_r.
    fold (passes repo). fold (classification (sched i) repo).
    replace (imap ((fun j repo0 =>
               if passes repo0 then [classification (sched (i + j)%nat) repo0] else []) ∘ S) repos)
      with (imap (fun j repo0 =>
               if passes repo0 then [classification (sched (S i + j)%nat) repo0] else []) repos).
    + destruct (passes repo); simpl; [by rewrite <- app_assoc|done].
    + apply imap_ext. intros j repo0 _. simpl. by rewrite Nat.add_succ_r.
Qed.

Lemma Classify_concat sched (repos : list RepoMetadata) :
  Classify c sched repos =
    List.concat (imap (fun j repo =>
      if passes repo then [classification (sched j) repo] else []) repos).
Proof. unfold Classify. by rewrite Classify_from. Qed.

(** The repos that come out are those that pass, in input order. *)
Lemma Classify_Metadata sched (repos : list RepoMetadata) :
  Metadata <$> Classify c sched repos = List.filter passes repos.
Proof.
  rewrite Classify_concat. generalize sched. clear sched.
  induction repos as [|repo repos IH]; intros sched; simpl; [done|].
  rewrite fmap_app.
  rewrite (imap_ext _ (fun j repo0 =>
             if passes repo0 then [classification (sched (S j)) repo0] else []))
    by done.
  rewrite (IH (fun j => sched (S j))). by destruct (passes repo).
Qed.

Lemma Classify_elem sched (repos : list RepoMetadata) (cr : ClassifiedRepo) :
  cr ∈ Classify c sched repos ->
  exists i, passes (Metadata cr) = true /\ Metadata cr ∈ repos /\
            cr = classification (sched i) (Metadata cr).
Proof.
  rewrite Classify_concat. generalize sched. clear sched.
  induction repos as [|repo repos IH]; intros sched; simpl.
  - by intros ?%elem_of_nil.
  - rewrite elem_of_app. intros [Hhere|Hlater].
    + destruct (passes repo) eqn:Hpass; [|by apply elem_of_nil in Hhere].
      apply list_elem_of_singleton in Hhere as ->. exists 0%nat. simpl.
      repeat split; [done|by left].
    + rewrite (imap_ext _ (fun j repo0 =>
               if passes repo0 then [classification (sched (S j)) repo0] else []))
        in Hlater by done.
      destruct (IH (fun j => sched (S j)) Hlater) as (i & Hpass & Hin & Hcr).
      exists (S i). repeat split; [done|by right|done].
Qed.


(** The entries of an enumeration are the entries of the map. *)
Lemma enumerates_lookup {V : Type} (order : list (string * V)) (m : gmap string V) n v :
  enumerates order m -> (n, v) ∈ order -> m !! n = Some v.
Proof.
  unfold enumerates. intros Hperm Hin. rewrite Hperm in Hin.
  by apply elem_of_map_to_list in Hin.
Qed.






End ClassifyFacts.

(** ** The summary builder *)

Section SummaryFacts.
Import models summary.

(** What [identifyRepeaters] emits for one repo. *)
Definition repeaterFor (history : History) (repo : ScoredRepo) : list RepeaterInfo :=
  match HistoryMap history !! Key repo with
  | Some histEntry =>
      if WeeksInTop histEntry >=? 2 then [repeaterOf repo (WeeksInTop histEntry)] else []
  | None => []
  end.

Lemma identifyRepeaters_flat_map b (repos : list ScoredRepo) (history : History) :
  identifyRepeaters b repos history = flat_map (repeaterFor history) repos.
Proof.
  unfold identifyRepeaters.
  rewrite (fold_left_ext _ (fun acc repo => (acc ++ repeaterFor history repo)%list)).
  - by rewrite fold_left_append.
  - intros acc repo. unfold repeaterStep, repeaterFor, repeaterOf.
    destruct (HistoryMap history !! Key repo) as [e|]; [|by rewrite app_nil_r].
    destruct (WeeksInTop e >=? 2); [done|by rewrite app_nil_r].
Qed.

End SummaryFacts.

(** ** Matching, in the words of the specification *)

(** The definitions of this section say what the specification says of
    lower case, of the tokens of a text and of trimming, without any of
    the functions of the code: they are what [matchesKeyword] and
    [Classify] are compared with. *)

Section MatchingSpec.
Import models config classifier.

(** The letters, upper case and lower case, in the same order. *)
Definition upperCaseLetters : list ascii :=
  list_ascii_of_string "ABCDEFGHIJKLMNOPQRSTUVWXYZ".
Definition lowerCaseLetters : list ascii :=
  list_ascii_of_string "abcdefghijklmnopqrstuvwxyz".

(** The letter of [lowers] at the place [c] has in [uppers]; [c]
    itself when it is not there. *)
Fixpoint letterFor (uppers lowers : list ascii) (c : ascii) : ascii :=
  match uppers, lowers with
  | upper :: uppers', lower :: lowers' =>
      if Ascii.eqb c upper then lower else letterFor uppers' lowers' c
  | _, _ => c
  end.

(** A text in lower case: each upper-case letter replaced by its
    lower-case letter, every other character kept. *)
Fixpoint lowercase_spec (s : string) : string :=
  match s with
  | EmptyString => EmptyString
  | String c rest =>
      String (letterFor upperCaseLetters lowerCaseLetters c) (lowercase_spec rest)
  end.

(** White space: tab, line feed, vertical tab, form feed, carriage
    return, space. *)
Definition whiteSpace : list ascii :=
  [ascii_of_nat 9; ascii_of_nat 10; ascii_of_nat 11; ascii_of_nat 12;
   ascii_of_nat 13; ascii_of_nat 32].

Definition isWhite (c : ascii) : bool := existsb (Ascii.eqb c) whiteSpace.
Definition isInk (c : ascii) : bool := negb (isWhite c).

(** [s] is empty or begins with white space. *)
Definition startsWhite (s : string) : Prop :=
  match s with
  | EmptyString => True
  | String c _ => isWhite c = true
  end.

(** [tokens_spec text tokens]: the text is made of the tokens, in
    order, each a longest stretch without white space, with white
    space between them and possibly before and after. *)
Inductive tokens_spec : string -> list string -> Prop :=
| tokens_none (gap : string) :
    allChars isWhite gap = true ->
    tokens_spec gap []
| tokens_more (gap token rest : string) (tokens : list string) :
    allChars isWhite gap = true ->
    token <> "" ->
    allChars isInk token = true ->
    startsWhite rest ->
    tokens_spec rest tokens ->
    tokens_spec (gap ++ token ++ rest) (token :: tokens).

(** The punctuation trimmed from a token: full stop, comma, semicolon,
    colon, exclamation mark, question mark, round, square and curly
    brackets, double quote (character 34) and single quote. *)
Definition punctuationMarks : list ascii :=
  [ "."; ","; ";"; ":"; "!"; "?"; "("; ")"; "["; "]"; "{"; "}";
    ascii_of_nat 34; "'" ]%char.

Definition isMark (c : ascii) : bool := existsb (Ascii.eqb c) punctuationMarks.

(** [trimmed_spec token core]: [core] is [token] without the
    punctuation marks around it: marks stand before and after it, and
    it neither begins nor ends with a mark. *)
Definition trimmed_spec (token core : string) : Prop :=
  exists before after,
    token = (before ++ core ++ after)%string /\
    allChars isMark before = true /\
    allChars isMark after = true /\
    match core with
    | String c _ => isMark c = false
    | EmptyString => True
    end /\
    match lastChar core with
    | Some c => isMark c = false
    | None => True
    end.

(** A trimmed token matches a keyword without a hyphen: it is the
    keyword, or the keyword followed by "s", or it begins with a
    keyword of four characters or more. *)
Definition tokenMatches_spec (keyword core : string) : Prop :=
  core = keyword \/
  core = (keyword ++ "s")%string \/
  ((4 <= String.length keyword)%nat /\ exists rest, core = (keyword ++ rest)%string).

(** What the specification says [matchesKeyword] decides: with the
    keyword and the text in lower case, a keyword with a hyphen matches
    when it is a substring of the text; any other keyword matches when
    some token of the text, trimmed of its punctuation, matches it. *)
Definition matchesKeyword_spec (text keyword : string) : Prop :=
  let keyword := lowercase_spec keyword in
  let text := lowercase_spec text in
  (hasHyphen keyword /\ exists pre post, text = (pre ++ keyword ++ post)%string) \/
  (~ hasHyphen keyword /\
   exists tokens token core,
     tokens_spec text tokens /\ token ∈ tokens /\
     trimmed_spec token core /\ tokenMatches_spec keyword core).

(** The parts of a text, with one space between two of them. *)
Fixpoint spaced_spec (parts : list string) : string :=
  match parts with
  | [] => EmptyString
  | [part] => part
  | part :: rest => (part ++ " " ++ spaced_spec rest)%string
  end.

(** The search text of a repo: its name, its description and its
    topics, a space between them, in lower case. *)
Definition searchText_spec (repo : RepoMetadata) : string :=
  lowercase_spec (spaced_spec (Name repo :: Description repo :: Topics repo)).

(** What the specification says of the filter: the search text
    matches some include keyword and no exclude keyword. *)
Definition keeps_spec (c : Classifier) (repo : RepoMetadata) : Prop :=
  (exists keyword, keyword ∈ Include (keywords c) /\
                   matchesKeyword_spec (searchText_spec repo) keyword) /\
  (forall keyword, keyword ∈ Exclude (keywords c) ->
                   ~ matchesKeyword_spec (searchText_spec repo) keyword).



(** [kept_spec c repos out]: [out] is made of the repos of [repos]
    that the filter keeps, in the order of [repos]; the others are
    left out. *)
Inductive kept_spec (c : Classifier) : list RepoMetadata -> list RepoMetadata -> Prop :=
| kept_none : kept_spec c [] []
| kept_keep (repo : RepoMetadata) (repos out : list RepoMetadata) :
    keeps_spec c repo -> kept_spec c repos out ->
    kept_spec c (repo :: repos) (repo :: out)
| kept_drop (repo : RepoMetadata) (repos out : list RepoMetadata) :
    ~ keeps_spec c repo -> kept_spec c repos out ->
    kept_spec c (repo :: repos) out.

(** *** The code against these definitions *)





Lemma allChars_ext (p q : ascii -> bool) (s : string) :
  (forall c, p c = q c) -> allChars p s = allChars q s.
Proof.
  intros Hpq. induction s as [|c s IH]; [done|]. simpl. by rewrite Hpq, IH.
Qed.




(** **** Tokens *)







(** **** Trimming *)












(** [kept_spec] leaves one output only. *)
Lemma kept_spec_unique (c : Classifier) (repos out out' : list RepoMetadata) :
  kept_spec c repos out -> kept_spec c repos out' -> out = out'.
Proof.
  intros Hout. revert out'.
  induction Hout as [|repo repos out Hkeep _ IH|repo repos out Hdrop _ IH];
    intros out' Hout'; inversion Hout'; subst; try done.
  - f_equal. by apply IH.
  - by apply IH.
Qed.

End MatchingSpec.
(** ** The primary category and the order of the visit *)

Section PrimaryFacts.
Import models config classifier.

Variable c : Classifier.






End PrimaryFacts.
(** ** The history manager: mark and sweep, loading, dates *)

Section HistoryTheorems.
Import models errors history.

(** A repo that carries only what the history manager reads: its key. *)
Definition repoNamed (owner name : string) : ScoredRepo :=
  {| Repo := {| Metadata := {| Owner := owner; Name := name; URL := ""; Description := "";
                               Language := ""; Topics := []; Stars := 0; Forks := 0;
                               StarsToday := 0; StarsThisWeek := 0; StarsThisMonth := 0;
                               CreatedAt := 0 |};
                Categories := []; PrimaryCategory := ""; MatchScore := 0 |};
     TotalStars := 0; Heat7 := 0; Heat30 := 0; Prev30 := 0; Score := 0 |}.

Definition dataPath : Manager := NewManager "data/history.json".

(** C1, as the specification states it, fails: a top list that names
    repo [owner1/repo1] twice, on a fresh history, leaves that repo with
    [weeks_in_top = 2], not the [1] of a fresh entry. *)
Lemma UpdateHistory_spec_fails_on_repeated_key :
  ~ UpdateHistory_spec dataPath NotExist
      [repoNamed "owner1" "repo1"; repoNamed "owner1" "repo1"]
      "2024-01-week1" "2024-01-07".
Proof.
  intros Hspec.
  destruct (Hspec NewHistory eq_refl) as (h' & Hrun & _ & _ & _ & Hfresh & _).
  unfold UpdateHistory in Hrun. simpl in Hrun. injection Hrun as <-.
  assert (Hin : "owner1/repo1" ∈ Key <$> [repoNamed "owner1" "repo1"; repoNamed "owner1" "repo1"])
    by (apply elem_of_cons; by left).
  specialize (Hfresh "owner1/repo1" Hin eq_refl).
  vm_compute in Hfresh. discriminate Hfresh.
Qed.

(** C1 (amended): for a top list whose repo keys are pairwise distinct,
    [UpdateHistory] on a loaded history [h] returns a history with
    exactly the keys of the top list; a key [h] had keeps its first-seen
    fields, has [weeks_in_top] incremented by one (in Go's [int]) and its
    last-seen fields set to the run's; a key [h] lacked gets
    [weeks_in_top = 1] with first-seen and last-seen set to the run's;
    every other key is gone; [latest_report] is the run's ID. *)
Theorem UpdateHistory_mark_and_sweep (m : Manager) (fs : FileState)
    (currentTop : list ScoredRepo) (r d : string) :
  NoDup (Key <$> currentTop) ->
  UpdateHistory_spec m fs currentTop r d.
Proof.
  intros Hnd h Hload. unfold UpdateHistory. rewrite Hload.
  eexists. split; [reflexivity|].
  assert (Hlk : forall k,
    HistoryMap (updateLoaded mapKeys h currentTop r d) !! k =
      if decide (k ∈ Key <$> currentTop) then Some (bump r d (HistoryMap h !! k)) else None).
  { intros k. rewrite updateLoaded_lookup by apply mapKeys_visitsKeys.
    case_decide; [|done]. by apply touch_all_lookup_nodup. }
  repeat split.
  - rewrite Hlk. case_decide; [done|]. by intros [? ?].
  - intros Hin. rewrite Hlk. rewrite decide_True by done. eauto.
  - intros k e Hin He. rewrite Hlk, decide_True by done. by rewrite He.
  - intros k Hin He. rewrite Hlk, decide_True by done. by rewrite He.
  - intros k Hnin. rewrite Hlk. by rewrite decide_False.
Qed.

(** The theorem at a first run with two repos. *)
Lemma UpdateHistory_mark_and_sweep_witness :
  NoDup (Key <$> [repoNamed "owner1" "repo1"; repoNamed "owner2" "repo2"]) /\
  UpdateHistory_spec dataPath NotExist
    [repoNamed "owner1" "repo1"; repoNamed "owner2" "repo2"]
    "2024-01-week1" "2024-01-07".
Proof.
  assert (Hnd : NoDup (Key <$> [repoNamed "owner1" "repo1"; repoNamed "owner2" "repo2"])).
  { apply (bool_decide_unpack _). vm_compute. exact I. }
  split; [exact Hnd|].
  apply (UpdateHistory_mark_and_sweep dataPath NotExist _ _ _ Hnd).
Defined.

(** C7: with no file [LoadHistory] returns the empty history (empty map,
    empty [latest_report]) and no error; with a file that cannot be read,
    or whose content does not parse, it returns an error and no history;
    [UpdateHistory] hands the same error to its caller. *)
Theorem LoadHistory_absent_or_corrupt (m : Manager) :
  LoadHistory m NotExist = Ok NewHistory /\
  HistoryMap NewHistory = ∅ /\ LatestReport NewHistory = "" /\
  (forall err,
     LoadHistory m (Unreadable err) =
       Err (NewFilesystemError "failed to read history file" (historyPath m)
                               (Some err))) /\
  (forall err,
     LoadHistory m (Readable (Malformed err)) =
       Err (NewFilesystemError "failed to parse history file" (historyPath m)
                               (Some err))) /\
  (forall fs, (exists h, LoadHistory m fs = Ok h) \/
              (exists e, LoadHistory m fs = Err e /\ IsCritical e = true /\
                         forall top r d, UpdateHistory m fs top r d = Err e)).
Proof.
  repeat split; try reflexivity.
  intros [|err|[err|doc]]; simpl.
  - left. eauto.
  - right. eexists. repeat split.
  - right. eexists. repeat split.
  - left. eauto.
Qed.

End HistoryTheorems.

Section HistoryDateTheorems.
Import models errors history.

Definition secondWeekFirst : list Run :=
  [ {| run_top := [repoNamed "owner1" "repo1"];
       run_reportID := "2024-01-week2"; run_reportDate := "2024-01-14" |};
    {| run_top := [repoNamed "owner1" "repo1"];
       run_reportID := "2024-01-week1"; run_reportDate := "2024-01-07" |} ].

Definition inOrder : list Run :=
  [ {| run_top := [repoNamed "owner1" "repo1"];
       run_reportID := "2024-01-week1"; run_reportDate := "2024-01-07" |};
    {| run_top := [repoNamed "owner1" "repo1"];
       run_reportID := "2024-01-week2"; run_reportDate := "2024-01-14" |} ].

(** The history the last of two runs returns, starting without a file. *)
Definition afterTwo (runs : list Run) : History :=
  match (runAll dataPath NotExist runs).2 with
  | [_; Ok h] => h
  | _ => NewHistory
  end.

(** C8, as the specification states it, fails: the dates of the runs are
    arbitrary, and a run dated 2024-01-14 followed by one dated
    2024-01-07, both with [owner1/repo1] in the top, returns a history
    where that repo was first seen on 2024-01-14 and last seen on
    2024-01-07. *)
Lemma dates_out_of_order_after_earlier_run :
  producedBy dataPath NotExist secondWeekFirst (afterTwo secondWeekFirst) /\
  ~ datesInvariant (afterTwo secondWeekFirst).
Proof.
  split.
  - right. simpl. apply elem_of_cons; right. apply elem_of_cons; left. reflexivity.
  - intros Hinv.
    specialize (Hinv "owner1/repo1"
      {| WeeksInTop := 2;
         LastSeenReport := "2024-01-week1"; LastSeenDate := "2024-01-07";
         FirstSeenReport := "2024-01-week2"; FirstSeenDate := "2024-01-14" |}).
    assert (Hlk : HistoryMap (afterTwo secondWeekFirst) !! "owner1/repo1" =
      Some {| WeeksInTop := 2;
         LastSeenReport := "2024-01-week1"; LastSeenDate := "2024-01-07";
         FirstSeenReport := "2024-01-week2"; FirstSeenDate := "2024-01-14" |})
      by (vm_compute; reflexivity).
    specialize (Hinv Hlk). vm_compute in Hinv. discriminate Hinv.
Qed.

(** C8 (amended): when the report dates of the runs never go back, and
    the file the runs start from is absent or holds a history whose
    dates are in order and not after the first run, every entry of every
    history that [LoadHistory] or a run's [UpdateHistory] returns has
    [first_seen_date <= last_seen_date]. *)
Theorem dates_ordered_when_chronological (m : Manager) (fs : FileState)
    (runs : list Run) (h : History) :
  chronological runs ->
  startsClean m fs runs ->
  producedBy m fs runs h ->
  datesInvariant h.
Proof.
  intros Hchron Hstart [Hload|Hrun].
  - by destruct (Hstart h Hload).
  - by apply (runAll_dates m runs fs).
Qed.

(** The theorem at two runs a week apart, in order. *)
Lemma dates_ordered_when_chronological_witness :
  chronological inOrder /\
  startsClean dataPath NotExist inOrder /\
  producedBy dataPath NotExist inOrder (afterTwo inOrder) /\
  datesInvariant (afterTwo inOrder).
Proof.
  assert (Hchron : chronological inOrder) by (vm_compute; auto).
  assert (Hstart : startsClean dataPath NotExist inOrder).
  { intros h0 [= <-]. split; intros k e Hlk; unfold NewHistory in Hlk; simpl in Hlk;
    rewrite lookup_empty in Hlk; discriminate Hlk. }
  assert (Hprod : producedBy dataPath NotExist inOrder (afterTwo inOrder)).
  { right. simpl. apply elem_of_cons; right. apply elem_of_cons; left. reflexivity. }
  split; [exact Hchron|]. split; [exact Hstart|]. split; [exact Hprod|].
  exact (dates_ordered_when_chronological dataPath NotExist inOrder (afterTwo inOrder)
           Hchron Hstart Hprod).
Defined.

End HistoryDateTheorems.

(** ** The score calculator: ranking *)

Section RankTheorems.
Import models slices calculator.

(** What the specification says [RankAndSelectTop] returns: no panic,
    and a slice that shows the first [topN] elements of the stable sort
    of the input by [(Heat_30, Score)] descending. The stable sort is
    pinned down by three facts: it permutes the input, it is sorted, and
    repos of equal [(Heat_30, Score)] keep their input order. *)
Definition RankAndSelectTop_spec (sc : ScoreCalculator) (h : Heap ScoredRepo)
    (s : Slice) (topN : Z) : Prop :=
  let input := elems h s in
  exists out h',
    RankAndSelectTop sc h s topN = (Some out, h') /\
    elems h' out = take (Z.to_nat topN) (ranking input) /\
    Permutation (ranking input) input /\
    StronglySorted keyGe (ranking input) /\
    (forall k, filter (fun r => SortKey r = k) (ranking input)
               = filter (fun r => SortKey r = k) input) /\
    Z.of_nat (length (elems h' out)) = Z.min topN (Z.of_nat (length input)) /\
    StronglySorted keyGe (elems h' out).

(** A repo with the given heat and score. *)
Definition scored (name : string) (heat30 score : Z) : ScoredRepo :=
  {| Repo := {| Metadata := {| Owner := "owner"; Name := name; URL := ""; Description := "";
                               Language := ""; Topics := []; Stars := 0; Forks := 0;
                               StarsToday := 0; StarsThisWeek := 0; StarsThisMonth := heat30;
                               CreatedAt := 0 |};
                Categories := []; PrimaryCategory := ""; MatchScore := 0 |};
     TotalStars := 0; Heat7 := 0; Heat30 := heat30; Prev30 := 0; Score := score |}.

(** A heap with one array of four repos, and the slice over it. *)
Definition fourRepos : Heap ScoredRepo :=
  [[scored "a" 10 5; scored "b" 30 1; scored "c" 10 5; scored "d" 10 7]].
Definition allFour : Slice := {| array := 0; offset := 0; len := 4; cap := 4 |}.

Lemma allFour_valid : valid fourRepos allFour.
Proof. unfold valid. simpl. lia. Qed.

(** C2, as the specification states it, fails: [topN] ranges over every
    [int], and for [topN = -1] the expression [ranked[:topN]] panics, so
    nothing is returned. *)
Lemma RankAndSelectTop_spec_fails_on_negative_topN :
  ~ RankAndSelectTop_spec (New 30 7) fourRepos allFour (-1).
Proof.
  intros (out & h' & Hrun & _). vm_compute in Hrun. discriminate Hrun.
Qed.

(** C2 (amended): for every slice of scored repos and every [topN >= 0],
    [RankAndSelectTop] returns the first [topN] elements of the stable
    sort of the input by [Heat_30] descending, then [Score] descending,
    repos of equal [(Heat_30, Score)] in their input order; the output
    has [min(topN, input length)] elements and is sorted non-increasing
    by [(Heat_30, Score)]; an input shorter than [topN] is no error. *)
Theorem RankAndSelectTop_stable_prefix (sc : ScoreCalculator) (h : Heap ScoredRepo)
    (s : Slice) (topN : Z) :
  valid h s -> 0 <= topN ->
  RankAndSelectTop_spec sc h s topN.
Proof.
  intros Hvalid HtopN. unfold RankAndSelectTop_spec, RankAndSelectTop.
  rewrite RankRepositories_valid by done. cbv zeta.
  pose proof (elems_length h s Hvalid) as Hlen.
  pose proof (Permutation_length (ranking_perm (elems h s))) as Hrlen.
  set (ranked := {| array := length h; offset := 0; len := len s; cap := len s |}).
  assert (Hwhole : elems (h ++ [ranking (elems h s)])%list ranked = ranking (elems h s)).
  { apply elems_whole; try done. simpl. lia. }
  destruct (Z.of_nat (len ranked) >? topN) eqn:Hcmp; simpl in Hcmp.
  - unfold upTo. simpl.
    replace ((0 <=? topN) && (topN <=? Z.of_nat (len s))) with true
      by (symmetry; apply andb_true_iff; lia).
    do 2 eexists. split; [reflexivity|].
    assert (Hout : elems (h ++ [ranking (elems h s)])%list
                     {| array := length h; offset := 0; len := Z.to_nat topN; cap := len s |}
                   = take (Z.to_nat topN) (ranking (elems h s))).
    { unfold elems. simpl. by rewrite backing_fresh. }
    rewrite Hout. repeat split.
    + apply ranking_perm.
    + apply ranking_sorted.
    + apply ranking_stable.
    + rewrite length_take. lia.
    + apply StronglySorted_take, ranking_sorted.
  - do 2 eexists. split; [reflexivity|].
    rewrite Hwhole. repeat split.
    + rewrite take_ge; [done|]. lia.
    + apply ranking_perm.
    + apply ranking_sorted.
    + apply ranking_stable.
    + lia.
    + apply ranking_sorted.
Qed.

(** The theorem at the four repos, top three. *)
Lemma RankAndSelectTop_stable_prefix_witness :
  valid fourRepos allFour /\ 0 <= 3 /\
  RankAndSelectTop_spec (New 30 7) fourRepos allFour 3.
Proof.
  assert (Hpos : 0 <= 3) by lia.
  split; [exact allFour_valid|]. split; [exact Hpos|].
  exact (RankAndSelectTop_stable_prefix (New 30 7) fourRepos allFour 3 allFour_valid Hpos).
Defined.

(** The ranking of the four repos: [b] first, then [d], then [a] before
    [c], which tie and keep their input order. *)
Example ranking_of_four :
  Name ∘ Metadata ∘ Repo <$> ranking (elems fourRepos allFour) = ["b"; "d"; "a"; "c"].
Proof. reflexivity. Qed.

(** C10: [RankRepositories] and [RankAndSelectTop] write to a freshly
    allocated array only: every array of the heap is as it was, so the
    caller's slice shows the same elements in the same order, and the
    slice returned points into the new array. This holds for every
    [topN], a panic included. *)
Theorem ranking_leaves_input_alone (sc : ScoreCalculator) (h : Heap ScoredRepo)
    (s : Slice) (topN : Z) :
  valid h s ->
  (exists fresh, (RankRepositories sc h s).2 = (h ++ [fresh])%list) /\
  elems (RankRepositories sc h s).2 s = elems h s /\
  array (RankRepositories sc h s).1 = length h /\
  (exists fresh, (RankAndSelectTop sc h s topN).2 = (h ++ [fresh])%list) /\
  elems (RankAndSelectTop sc h s topN).2 s = elems h s /\
  (forall out, (RankAndSelectTop sc h s topN).1 = Some out -> array out = length h).
Proof.
  intros (Harr & _).
  assert (Hsame : (RankAndSelectTop sc h s topN).2 = (RankRepositories sc h s).2).
  { unfold RankAndSelectTop. destruct (RankRepositories sc h s) as [ranked h1].
    by destruct (Z.of_nat (len ranked) >? topN). }
  assert (Hout : forall out, (RankAndSelectTop sc h s topN).1 = Some out ->
                             array out = array (RankRepositories sc h s).1).
  { unfold RankAndSelectTop. destruct (RankRepositories sc h s) as [ranked h1].
    destruct (Z.of_nat (len ranked) >? topN); simpl.
    - unfold upTo. intros out. case_match; [|done]. by intros [= <-].
    - by intros out [= <-]. }
  destruct (RankRepositories_fresh sc h s) as [fresh Hfresh].
  rewrite Hsame, Hfresh in *. simpl in *.
  repeat split; eauto using elems_older.
Qed.

(** The theorem at the four repos, top two. *)
Lemma ranking_leaves_input_alone_witness :
  valid fourRepos allFour /\
  elems (RankAndSelectTop (New 30 7) fourRepos allFour 2).2 allFour = elems fourRepos allFour.
Proof.
  split; [exact allFour_valid|].
  exact (proj1 (proj2 (proj2 (proj2 (proj2
    (ranking_leaves_input_alone (New 30 7) fourRepos allFour 2 allFour_valid)))))).
Defined.

End RankTheorems.

(** ** The score calculator: scores *)

Section ScoreTheorems.
Import models calculator.

(** A classified repo with the given star counters. *)
Definition withStars (starsToday starsThisWeek starsThisMonth : Z) : ClassifiedRepo :=
  {| Metadata := {| Owner := "owner"; Name := "repo"; URL := ""; Description := "";
                    Language := ""; Topics := []; Stars := 0; Forks := 0;
                    StarsToday := starsToday; StarsThisWeek := starsThisWeek;
                    StarsThisMonth := starsThisMonth; CreatedAt := 0 |};
     Categories := []; PrimaryCategory := ""; MatchScore := 0 |}.

Definition nonNegativeCounters (repo : ClassifiedRepo) : Prop :=
  0 <= StarsToday (Metadata repo) /\
  0 <= StarsThisWeek (Metadata repo) /\
  0 <= StarsThisMonth (Metadata repo).

(** What [CalculateScores] makes of one repo, with the score given by
    [score]. *)
Definition scoredAs (score : ClassifiedRepo -> Z) (repo : ClassifiedRepo) (s : ScoredRepo) : Prop :=
  Repo s = repo /\
  Heat7 s = StarsThisWeek (Metadata repo) /\
  Heat30 s = StarsThisMonth (Metadata repo) /\
  Score s = score repo.

(** What the specification says [CalculateScores] returns: one scored
    repo per input repo, in order, with the floor of the weighted sum as
    score. *)
Definition CalculateScores_spec (sc : ScoreCalculator) (repos : list ClassifiedRepo) : Prop :=
  Forall2 (scoredAs floorScore) repos (CalculateScores sc repos).

(** C3, as the specification states it, fails: for a repo with
    [starsToday = -1] and the other counters zero the weighted sum is
    [-0.6], whose floor is [-1]; the conversion to [int] cuts toward
    zero and the score is [0]. *)
Lemma CalculateScores_spec_fails_below_zero :
  ~ CalculateScores_spec (New 30 7) [withStars (-1) 0 0].
Proof.
  intros Hspec. apply Forall2_cons_1 in Hspec as [(_ & _ & _ & Hscore) _].
  vm_compute in Hscore. discriminate Hscore.
Qed.

(** C3 (amended): [CalculateScores] passes [Heat_7 = starsThisWeek] and
    [Heat_30 = starsThisMonth] through and computes the score as the
    weighted sum [0.6 * starsToday + 0.3 * (starsThisWeek / 7) +
    0.1 * (starsThisMonth / 30)] in floating-point arithmetic, cut off
    toward zero; for repos whose three counters are not negative that is
    the floor of the sum; counters 100, 350, 900 give [Score = 78]. *)
Theorem CalculateScores_truncated_sum (sc : ScoreCalculator) (repos : list ClassifiedRepo) :
  Forall2 (scoredAs truncatedScore) repos (CalculateScores sc repos) /\
  (Forall nonNegativeCounters repos -> CalculateScores_spec sc repos) /\
  Score <$> CalculateScores sc [withStars 100 350 900] = [78].
Proof.
  split; [|split].
  - rewrite CalculateScores_map. apply Forall2_fmap_r, Forall_Forall2_diag.
    apply Forall_forall. intros repo _. repeat split. apply Score_truncated.
  - intros Hpos. unfold CalculateScores_spec. rewrite CalculateScores_map.
    apply Forall2_fmap_r, Forall_Forall2_diag.
    eapply Forall_impl; [exact Hpos|]. intros repo (Ha & Hb & Hc).
    repeat split. rewrite Score_truncated. unfold truncatedScore, floorScore.
    symmetry. apply convert_floor_truncate. by apply weightedSum_notNegative.
  - vm_compute. reflexivity.
Qed.

(** The theorem at the example of the specification. *)
Lemma CalculateScores_truncated_sum_witness :
  Forall nonNegativeCounters [withStars 100 350 900] /\
  CalculateScores_spec (New 30 7) [withStars 100 350 900].
Proof.
  assert (Hpos : Forall nonNegativeCounters [withStars 100 350 900]).
  { repeat constructor; simpl; lia. }
  split; [exact Hpos|].
  exact (proj1 (proj2 (CalculateScores_truncated_sum (New 30 7) [withStars 100 350 900])) Hpos).
Defined.

End ScoreTheorems.

(** ** The classifier *)

Section ClassifierTheorems.
Import models config classifier.

(** A repo with a name, a description and topics. *)
Definition described (name description : string) (topics : list string) : RepoMetadata :=
  {| Owner := "owner"; Name := name; URL := ""; Description := description;
     Language := ""; Topics := topics; Stars := 0; Forks := 0;
     StarsToday := 0; StarsThisWeek := 0; StarsThisMonth := 0; CreatedAt := 0 |}.






(** Two categories with one keyword each, and a repo that matches both. *)
Definition agentAndLlm : Classifier :=
  New {| Include := ["llm"]; Exclude := [];
         Categories := {[ "agent" := ["agent"]; "llm" := ["llm"] ]} |}.
Definition llmAgent : RepoMetadata := described "toolkit" "llm agent" [].
Definition agentFirst : nat -> list (string * list string) :=
  fun _ => [("agent", ["agent"]); ("llm", ["llm"])].

Lemma agentFirst_valid : validSchedule agentAndLlm agentFirst.
Proof.
  intros i. unfold enumerates, agentFirst, agentAndLlm. simpl.
  rewrite map_to_list_insert by done. rewrite map_to_list_singleton. done.
Qed.









End ClassifierTheorems.

(** ** The summary builder *)

Section SummaryTheorems.
Import models summary.

(** C9: the repeaters of a summary are, in the order of the top list,
    the repos whose key has a history entry with [weeks_in_top >= 2],
    each with its key, name, URL, that [weeks_in_top], its current
    [Heat_7] and its primary category; a repo whose key the history
    lacks is not among them. *)
Theorem Repeaters_are_second_week_repos (b : Builder) (env : Env)
    (topRepos : list ScoredRepo) (history : History) (runDate : string) :
  Repeaters (BuildSummary b env topRepos history runDate)
    = flat_map (repeaterFor history) topRepos /\
  (forall info,
     info ∈ Repeaters (BuildSummary b env topRepos history runDate) <->
     exists repo histEntry,
       repo ∈ topRepos /\
       HistoryMap history !! Key repo = Some histEntry /\
       2 <= WeeksInTop histEntry /\
       info = {| rep_RepoKey := Key repo;
                 rep_RepoName := Name (Metadata (Repo repo));
                 rep_URL := URL (Metadata (Repo repo));
                 rep_WeeksInTop := WeeksInTop histEntry;
                 CurrentHeat7 := Heat7 repo;
                 rep_Category := PrimaryCategory (Repo repo) |}) /\
  (forall info,
     info ∈ Repeaters (BuildSummary b env topRepos history runDate) ->
     is_Some (HistoryMap history !! rep_RepoKey info)).
Proof.
  assert (Hiff : forall info,
     info ∈ flat_map (repeaterFor history) topRepos <->
     exists repo histEntry,
       repo ∈ topRepos /\
       HistoryMap history !! Key repo = Some histEntry /\
       2 <= WeeksInTop histEntry /\
       info = repeaterOf repo (WeeksInTop histEntry)).
  { intros info. rewrite list_elem_of_In, in_flat_map. split.
    - intros (repo & Hin & Hinfo). apply list_elem_of_In in Hin.
      unfold repeaterFor in Hinfo.
      destruct (HistoryMap history !! Key repo) as [e|] eqn:He; [|done].
      destruct (WeeksInTop e >=? 2) eqn:Hw; [|done].
      apply Z.geb_le in Hw.
      destruct Hinfo as [<-|[]]. exists repo, e. by repeat split.
    - intros (repo & e & Hin & He & Hw & ->). exists repo.
      split; [by apply list_elem_of_In|]. unfold repeaterFor. rewrite He.
      replace (WeeksInTop e >=? 2) with true by (symmetry; by apply Z.geb_le). by left. }
  simpl. rewrite identifyRepeaters_flat_map. split; [done|]. split; [exact Hiff|].
  intros info (repo & e & _ & He & _ & ->)%Hiff. simpl. eauto.
Qed.

End SummaryTheorems.

(** ** The examples of the specification and of the test suite *)

Section Examples.
Import models errors history classifier config summary.

(** The example of the specification: a first run on an empty history. *)
Example first_run_on_empty_history :
  exists h,
    UpdateHistory dataPath NotExist [repoNamed "owner1" "repo1"]
                  "2024-01-week1" "2024-01-07" = Ok h /\
    LatestReport h = "2024-01-week1" /\
    HistoryMap h !! "owner1/repo1" =
      Some {| WeeksInTop := 1;
              LastSeenReport := "2024-01-week1"; LastSeenDate := "2024-01-07";
              FirstSeenReport := "2024-01-week1"; FirstSeenDate := "2024-01-07" |} /\
    size (HistoryMap h) = 1%nat.
Proof. eexists. split; [reflexivity|]. by vm_compute. Qed.

(** The history file the tests start from: [owner1/repo1], seen once. *)
Definition weekOneFile : FileState :=
  Readable (Document
    {| dec_LatestReport := "2024-01-week1";
       dec_History := Some {[ "owner1/repo1" :=
         {| WeeksInTop := 1;
            LastSeenReport := "2024-01-week1"; LastSeenDate := "2024-01-07";
            FirstSeenReport := "2024-01-week1"; FirstSeenDate := "2024-01-07" |} ]} |}).

(** [TestUpdateHistory_PreservesFirstSeen]: two more weeks in the top. *)
Example third_week_keeps_first_seen :
  match (runAll dataPath weekOneFile
           [ {| run_top := [repoNamed "owner1" "repo1"];
                run_reportID := "2024-01-week2"; run_reportDate := "2024-01-14" |};
             {| run_top := [repoNamed "owner1" "repo1"];
                run_reportID := "2024-01-week3"; run_reportDate := "2024-01-21" |} ]).2 with
  | [_; Ok h] =>
      HistoryMap h !! "owner1/repo1" =
        Some {| WeeksInTop := 3;
                LastSeenReport := "2024-01-week3"; LastSeenDate := "2024-01-21";
                FirstSeenReport := "2024-01-week1"; FirstSeenDate := "2024-01-07" |}
  | _ => False
  end.
Proof. by vm_compute. Qed.

(** [TestUpdateHistory_EmptyCurrentTop]: every repo is removed. *)
Example empty_top_clears_history :
  exists h,
    UpdateHistory dataPath weekOneFile [] "2024-01-week2" "2024-01-14" = Ok h /\
    size (HistoryMap h) = 0%nat /\ LatestReport h = "2024-01-week2".
Proof. eexists. split; [reflexivity|]. by vm_compute. Qed.

(** The keywords of [TestClassifier_Classify]. *)
Definition testKeywords : KeywordConfig :=
  {| Include := ["ai"; "llm"; "machine-learning"];
     Exclude := ["tutorial"; "awesome-list"];
     Categories := {[ "agent" := ["agent"; "autonomous"];
                      "llm" := ["llm"; "language-model"; "gpt"];
                      "rag" := ["rag"; "retrieval"; "vector"] ]} |}.

(** [TestClassifier_Classify], first case: of three repos one passes. *)
Example one_of_three_passes :
  Name <$> (Metadata <$>
    Classify (classifier.New testKeywords) (fun _ => [])
      [ described "ai-project" "An AI project" ["machine-learning"];
        described "tutorial-repo" "AI tutorial" ["ai"];
        described "web-app" "A web application" ["web"] ])
  = ["ai-project"].
Proof. by vm_compute. Qed.

(** The stem rule of the specification: "agent" matches "agentic", and
    a keyword shorter than four characters has no stem rule. *)
Example stem_match :
  matchesKeyword (classifier.New testKeywords) "An agentic framework" "agent" = true /\
  matchesKeyword (classifier.New testKeywords) "Plugins for Vim" "llm" = false /\
  matchesKeyword (classifier.New testKeywords) "llmops" "llm" = false /\
  matchesKeyword (classifier.New testKeywords) "Two (LLMs)." "llm" = true /\
  matchesKeyword (classifier.New testKeywords) "a machine-learning-kit" "Machine-Learning" = true.
Proof. by vm_compute. Qed.

(** [TestIdentifyRepeaters]: of two repos in the history, the one in
    its third week is a repeater. *)
Example one_repeater :
  let history :=
    {| LatestReport := "";
       HistoryMap := {[ "owner/a" := {| WeeksInTop := 3; LastSeenReport := ""; LastSeenDate := "";
                                        FirstSeenReport := ""; FirstSeenDate := "" |};
                        "owner/b" := {| WeeksInTop := 1; LastSeenReport := ""; LastSeenDate := "";
                                        FirstSeenReport := ""; FirstSeenDate := "" |} ]} |} in
  (fun info => (rep_RepoKey info, rep_WeeksInTop info)) <$>
    identifyRepeaters (NewBuilder {| WindowDays := 30; ShortWindowDays := 7; TopN := 10;
                                     NewRepoThresholdDays := 90; DarkHorseAccelThreshold := 100;
                                     CacheTTLHours := 24; ReportLanguage := "en";
                                     ReportIDFormat := "YYYY-MM-weekN"; FilterDomain := "AI" |})
      [scored "a" 500 0; scored "b" 300 0; scored "c" 100 0] history
  = [("owner/a", 3)].
Proof. by vm_compute. Qed.

End Examples.
(** * Further properties *)

(** ** The history manager: streaks *)

Section HistoryStreaks.
Import models errors history.

Lemma wrap_add_l (a b : Z) : GoInt.wrap (GoInt.wrap a + b) = GoInt.wrap (a + b).
Proof.
  unfold GoInt.wrap. f_equal.
  replace ((a + 2 ^ 63) mod 2 ^ 64 - 2 ^ 63 + b + 2 ^ 63)
    with ((a + 2 ^ 63) mod 2 ^ 64 + b) by lia.
  rewrite Zplus_mod_idemp_l. f_equal. lia.
Qed.

(** How often a key occurs in a top list. *)
Definition occurrences (k : string) (top : list ScoredRepo) : nat :=
  length (filter (fun repo => Key repo = k) top).

(** The entry of a key that the update loop met [n] times, from the
    entry it had: [n] increments, the last-seen fields of the run, and
    the first-seen fields it had, or those of the run for a new key. *)
Definition bumpedBy (r d : string) (old : option RepoHistory) (n : nat) : RepoHistory :=
  {| WeeksInTop :=
       GoInt.wrap (match old with Some e => WeeksInTop e | None => 0 end + Z.of_nat n);
     LastSeenReport := r;
     LastSeenDate := d;
     FirstSeenReport := match old with Some e => FirstSeenReport e | None => r end;
     FirstSeenDate := match old with Some e => FirstSeenDate e | None => d end |}.

Lemma bump_bumpedBy r d old : bump r d old = bumpedBy r d old 1.
Proof. by destruct old. Qed.

Lemma bumpedBy_succ r d old n :
  bumpedBy r d (Some (bump r d old)) n = bumpedBy r d old (S n).
Proof.
  unfold bumpedBy. destruct old as [e|]; simpl bump; cbn [WeeksInTop FirstSeenReport FirstSeenDate].
  - f_equal. unfold GoInt.incr, GoInt.add. rewrite wrap_add_l. f_equal. lia.
  - f_equal. f_equal. lia.
Qed.

Lemma touch_all_occurrences r d (top : list ScoredRepo) (entries : gmap string RepoHistory) k :
  fold_left (touch r d) top entries !! k =
    match occurrences k top with
    | O => entries !! k
    | S n => Some (bumpedBy r d (entries !! k) (S n))
    end.
Proof.
  unfold occurrences. revert entries. induction top as [|repo top IH]; intros entries; [done|].
  simpl fold_left. rewrite IH, touch_lookup, filter_cons.
  destruct (decide (Key repo = k)) as [Hk|Hk].
  - rewrite decide_True by done. simpl length.
    destruct (length (filter (fun repo0 => Key repo0 = k) top)) as [|n].
    + by rewrite bump_bumpedBy.
    + by rewrite bumpedBy_succ.
  - by rewrite decide_False by done.
Qed.

Lemma occurrences_pos k (top : list ScoredRepo) :
  k ∈ Key <$> top -> (1 <= occurrences k top)%nat.
Proof.
  intros (repo & -> & Hin)%list_elem_of_fmap. unfold occurrences.
  assert (Hf : repo ∈ filter (fun repo0 => Key repo0 = Key repo) top)
    by (by apply list_elem_of_filter).
  destruct (filter _ top); [by apply elem_of_nil in Hf|simpl; lia].
Qed.

(** X1: [UpdateHistory] counts occurrences, not keys: a repo key that
    the top list names [n >= 1] times leaves with [weeks_in_top] raised
    by [n] (from 0 for a key the loaded history lacked, in Go's [int]),
    the run's last-seen fields, and the first-seen fields it had (the
    run's, for a new key). *)
Theorem UpdateHistory_counts_occurrences (m : Manager) (fs : FileState) (h : History)
    (currentTop : list ScoredRepo) (r d k : string) :
  LoadHistory m fs = Ok h ->
  k ∈ Key <$> currentTop ->
  exists h',
    UpdateHistory m fs currentTop r d = Ok h' /\
    HistoryMap h' !! k = Some (bumpedBy r d (HistoryMap h !! k) (occurrences k currentTop)).
Proof.
  intros Hload Hin. unfold UpdateHistory. rewrite Hload. eexists. split; [reflexivity|].
  rewrite updateLoaded_lookup by apply mapKeys_visitsKeys.
  rewrite decide_True by done. rewrite touch_all_occurrences.
  pose proof (occurrences_pos k currentTop Hin).
  by destruct (occurrences k currentTop); [lia|].
Qed.

(** The theorem at a top list that names one repo three times. *)
Lemma UpdateHistory_counts_occurrences_witness :
  LoadHistory dataPath NotExist = Ok NewHistory /\
  "owner1/repo1" ∈ Key <$> [repoNamed "owner1" "repo1"; repoNamed "owner2" "repo2";
                            repoNamed "owner1" "repo1"; repoNamed "owner1" "repo1"] /\
  exists h',
    UpdateHistory dataPath NotExist
      [repoNamed "owner1" "repo1"; repoNamed "owner2" "repo2";
       repoNamed "owner1" "repo1"; repoNamed "owner1" "repo1"] "week1" "2024-01-07" = Ok h' /\
    WeeksInTop <$> HistoryMap h' !! "owner1/repo1" = Some 3.
Proof.
  assert (Hin : "owner1/repo1" ∈ Key <$> [repoNamed "owner1" "repo1"; repoNamed "owner2" "repo2";
                            repoNamed "owner1" "repo1"; repoNamed "owner1" "repo1"])
    by (apply elem_of_cons; left; reflexivity).
  split; [reflexivity|]. split; [exact Hin|].
  destruct (UpdateHistory_counts_occurrences dataPath NotExist NewHistory _
              "week1" "2024-01-07" "owner1/repo1" eq_refl Hin) as (h' & Hrun & Hlk).
  exists h'. split; [exact Hrun|]. rewrite Hlk. reflexivity.
Defined.

(** X2: whatever the history file held and whatever the top list
    (repeated keys included), the history [UpdateHistory] returns tracks
    exactly the keys of the top list; it has as many entries as the top
    list has repos when their keys are distinct, and none for an empty
    top list. *)
Theorem UpdateHistory_tracks_top_keys (m : Manager) (fs : FileState) (h : History)
    (currentTop : list ScoredRepo) (r d : string) :
  LoadHistory m fs = Ok h ->
  exists h',
    UpdateHistory m fs currentTop r d = Ok h' /\
    dom (HistoryMap h') = list_to_set (Key <$> currentTop) /\
    (NoDup (Key <$> currentTop) -> size (HistoryMap h') = length currentTop) /\
    (currentTop = [] -> HistoryMap h' = ∅).
Proof.
  intros Hload. unfold UpdateHistory. rewrite Hload. eexists. split; [reflexivity|].
  set (h' := updateLoaded mapKeys h currentTop r d).
  assert (Hdom : dom (HistoryMap h') = list_to_set (Key <$> currentTop)).
  { apply set_eq. intros k. rewrite elem_of_dom, elem_of_list_to_set.
    unfold h'. rewrite updateLoaded_lookup by apply mapKeys_visitsKeys.
    case_decide as Hin.
    - split; [done|]. intros _. by apply touch_all_lookup_in.
    - split; [by intros [? ?]|done]. }
  split; [exact Hdom|]. split.
  - intros Hnd. rewrite <- size_dom, Hdom, size_list_to_set by done.
    by rewrite length_fmap.
  - intros ->. apply (dom_empty_iff_L (D:=gset string)). by rewrite Hdom.
Qed.

(** The theorem on the file of week one and an empty top list. *)
Lemma UpdateHistory_tracks_top_keys_witness :
  exists h',
    UpdateHistory dataPath weekOneFile [] "2024-01-week2" "2024-01-14" = Ok h' /\
    HistoryMap h' = ∅.
Proof.
  destruct (UpdateHistory_tracks_top_keys dataPath weekOneFile _ []
              "2024-01-week2" "2024-01-14" eq_refl) as (h' & Hrun & _ & _ & Hempty).
  exists h'. split; [exact Hrun|]. exact (Hempty eq_refl).
Defined.

(** The runs in which [k] is one of the pairwise distinct keys of the
    top list. *)
Definition inTop (k : string) (run : Run) : Prop :=
  NoDup (Key <$> run_top run) /\ k ∈ Key <$> run_top run.

(** The entry of [k] after one more run with [k] in the top. *)
Definition nextWeek (entry : option RepoHistory) (run : Run) : option RepoHistory :=
  Some (bump (run_reportID run) (run_reportDate run) entry).

Lemma runAll_streak (m : Manager) (k : string) (runs : list Run) :
  forall fs h0,
    LoadHistory m fs = Ok h0 -> Forall (inTop k) runs ->
    exists h',
      LoadHistory m (runAll m fs runs).1 = Ok h' /\
      HistoryMap h' !! k = fold_left nextWeek runs (HistoryMap h0 !! k) /\
      (runs <> [] -> last (runAll m fs runs).2 = Some (Ok h')).
Proof.
  induction runs as [|run rest IH]; intros fs h0 Hload Hall.
  - exists h0. by repeat split.
  - apply Forall_cons in Hall as [[Hnd Hin] Hall].
    simpl runAll. unfold runOnce, UpdateHistory. rewrite Hload.
    set (h1 := updateLoaded mapKeys h0 (run_top run) (run_reportID run) (run_reportDate run)).
    assert (Hk : HistoryMap h1 !! k = nextWeek (HistoryMap h0 !! k) run).
    { unfold h1. rewrite updateLoaded_lookup by apply mapKeys_visitsKeys.
      rewrite decide_True by done. by apply touch_all_lookup_nodup. }
    destruct (IH (SaveHistory m h1 fs) h1 (LoadHistory_SaveHistory m h1 fs) Hall)
      as (h' & Hload' & Hk' & Hlast).
    destruct (runAll m (SaveHistory m h1 fs) rest) as [fs2 outs] eqn:Hrest.
    exists h'. simpl in *. split; [done|]. split; [by rewrite Hk', Hk|].
    intros _. destruct rest as [|run' rest'].
    + simpl in Hrest. injection Hrest as <- <-.
      rewrite LoadHistory_SaveHistory in Hload'. by injection Hload' as <-.
    + rewrite last_cons. by rewrite Hlast.
Qed.

Lemma last_cons_default {A} (l : list A) (x d : A) :
  List.last (x :: l) d = List.last l x.
Proof.
  revert x d. induction l as [|y l IH]; intros x d; [done|].
  change (List.last (x :: y :: l) d) with (List.last (y :: l) d).
  by rewrite !IH.
Qed.

Lemma nextWeek_fold (rest : list Run) (w : Z) (cur : Run) (fr fd : string) :
  fold_left nextWeek rest
    (Some {| WeeksInTop := GoInt.wrap w;
             LastSeenReport := run_reportID cur; LastSeenDate := run_reportDate cur;
             FirstSeenReport := fr; FirstSeenDate := fd |})
  = Some {| WeeksInTop := GoInt.wrap (w + Z.of_nat (length rest));
            LastSeenReport := run_reportID (List.last rest cur);
            LastSeenDate := run_reportDate (List.last rest cur);
            FirstSeenReport := fr; FirstSeenDate := fd |}.
Proof.
  revert w cur. induction rest as [|run rest IH]; intros w cur.
  - simpl. by rewrite Z.add_0_r.
  - simpl fold_left. unfold nextWeek at 2. simpl bump.
    unfold GoInt.incr, GoInt.add. rewrite wrap_add_l, IH.
    f_equal. f_equal.
    + f_equal. simpl length. lia.
    + by rewrite last_cons_default.
    + by rewrite last_cons_default.
Qed.

(** X3: the streak counts consecutive runs. From a history without
    [k], after a sequence of saved runs that all have [k] among the
    distinct keys of their top list, the last history gives [k] a
    [weeks_in_top] equal to the number of runs (in Go's [int]), the
    first-seen fields of the first run and the last-seen fields of the
    last run. *)
Theorem streak_counts_consecutive_runs (m : Manager) (fs : FileState) (h0 : History)
    (k : string) (first : Run) (rest : list Run) :
  LoadHistory m fs = Ok h0 ->
  HistoryMap h0 !! k = None ->
  Forall (inTop k) (first :: rest) ->
  exists h,
    last (runAll m fs (first :: rest)).2 = Some (Ok h) /\
    HistoryMap h !! k =
      Some {| WeeksInTop := GoInt.wrap (Z.of_nat (length (first :: rest)));
              LastSeenReport := run_reportID (List.last rest first);
              LastSeenDate := run_reportDate (List.last rest first);
              FirstSeenReport := run_reportID first;
              FirstSeenDate := run_reportDate first |}.
Proof.
  intros Hload Hnone Hall.
  destruct (runAll_streak m k (first :: rest) fs h0 Hload Hall) as (h & _ & Hk & Hlast).
  exists h. split; [by apply Hlast|].
  rewrite Hk, Hnone. simpl fold_left. unfold nextWeek at 2. simpl bump.
  change 1 with (GoInt.wrap 1) at 1. rewrite nextWeek_fold.
  f_equal. f_equal. f_equal. simpl length. lia.
Qed.

(** Three weekly runs with the same repo in the top. *)
Definition threeWeeks : list Run :=
  [ {| run_top := [repoNamed "owner1" "repo1"];
       run_reportID := "2024-01-week1"; run_reportDate := "2024-01-07" |};
    {| run_top := [repoNamed "owner2" "repo2"; repoNamed "owner1" "repo1"];
       run_reportID := "2024-01-week2"; run_reportDate := "2024-01-14" |};
    {| run_top := [repoNamed "owner1" "repo1"];
       run_reportID := "2024-01-week3"; run_reportDate := "2024-01-21" |} ].

Lemma threeWeeks_inTop : Forall (inTop "owner1/repo1") threeWeeks.
Proof.
  repeat constructor; try (apply (bool_decide_unpack _); vm_compute; exact I).
Qed.

(** The theorem at three weekly runs from no file. *)
Lemma streak_counts_consecutive_runs_witness :
  LoadHistory dataPath NotExist = Ok NewHistory /\
  HistoryMap NewHistory !! "owner1/repo1" = None /\
  Forall (inTop "owner1/repo1") threeWeeks /\
  exists h,
    last (runAll dataPath NotExist threeWeeks).2 = Some (Ok h) /\
    WeeksInTop <$> HistoryMap h !! "owner1/repo1" = Some 3.
Proof.
  split; [reflexivity|]. split; [reflexivity|]. split; [exact threeWeeks_inTop|].
  destruct (streak_counts_consecutive_runs dataPath NotExist NewHistory "owner1/repo1"
              _ _ eq_refl eq_refl threeWeeks_inTop) as (h & Hlast & Hk).
  exists h. split; [exact Hlast|]. rewrite Hk. reflexivity.
Defined.

(** X4: the streak resets. Whatever the history held for [k], a saved
    run without [k] in its top list drops the entry, and the next run
    with [k] in its top list starts it again: [weeks_in_top = 1], first
    seen and last seen in that run. *)
Theorem streak_resets_after_gap (m : Manager) (fs : FileState) (h0 : History)
    (k : string) (gap back : Run) :
  LoadHistory m fs = Ok h0 ->
  k ∉ Key <$> run_top gap ->
  inTop k back ->
  exists h1 h2,
    (runAll m fs [gap; back]).2 = [Ok h1; Ok h2] /\
    HistoryMap h1 !! k = None /\
    HistoryMap h2 !! k =
      Some {| WeeksInTop := 1;
              LastSeenReport := run_reportID back; LastSeenDate := run_reportDate back;
              FirstSeenReport := run_reportID back; FirstSeenDate := run_reportDate back |}.
Proof.
  intros Hload Hgap [Hnd Hin]. simpl runAll. unfold runOnce, UpdateHistory.
  rewrite Hload. rewrite LoadHistory_SaveHistory.
  set (h1 := updateLoaded mapKeys h0 (run_top gap) (run_reportID gap) (run_reportDate gap)).
  assert (Hk1 : HistoryMap h1 !! k = None).
  { unfold h1. rewrite updateLoaded_lookup by apply mapKeys_visitsKeys.
    by rewrite decide_False. }
  do 2 eexists. split; [reflexivity|]. split; [exact Hk1|].
  rewrite updateLoaded_lookup by apply mapKeys_visitsKeys.
  rewrite decide_True by done. rewrite touch_all_lookup_nodup by done.
  by rewrite Hk1.
Qed.

(** The theorem at a repo in its first week that misses a week. *)
Lemma streak_resets_after_gap_witness :
  exists h1 h2,
    (runAll dataPath weekOneFile
       [ {| run_top := [repoNamed "owner2" "repo2"];
            run_reportID := "2024-01-week2"; run_reportDate := "2024-01-14" |};
         {| run_top := [repoNamed "owner1" "repo1"];
            run_reportID := "2024-01-week3"; run_reportDate := "2024-01-21" |} ]).2
    = [Ok h1; Ok h2] /\
    HistoryMap h1 !! "owner1/repo1" = None /\
    WeeksInTop <$> HistoryMap h2 !! "owner1/repo1" = Some 1.
Proof.
  assert (Hgap : "owner1/repo1" ∉ Key <$> [repoNamed "owner2" "repo2"]).
  { apply (bool_decide_unpack _). vm_compute. exact I. }
  assert (Hback : inTop "owner1/repo1"
            {| run_top := [repoNamed "owner1" "repo1"];
               run_reportID := "2024-01-week3"; run_reportDate := "2024-01-21" |}).
  { split; apply (bool_decide_unpack _); vm_compute; exact I. }
  destruct (streak_resets_after_gap dataPath weekOneFile _ "owner1/repo1"
              {| run_top := [repoNamed "owner2" "repo2"];
                 run_reportID := "2024-01-week2"; run_reportDate := "2024-01-14" |}
              _ eq_refl Hgap Hback) as (h1 & h2 & Hruns & Hk1 & Hk2).
  exists h1, h2. split; [exact Hruns|]. split; [exact Hk1|]. rewrite Hk2. reflexivity.
Defined.

End HistoryStreaks.
(** ** Further properties of the ranking *)

Section RankExtras.
Import models errors slices calculator history.

(** The slice [RankAndSelectTop] returns for a count that is not
    negative. *)
Lemma RankAndSelectTop_elems (sc : ScoreCalculator) (h : Heap ScoredRepo)
    (s : Slice) (topN : Z) :
  valid h s -> 0 <= topN ->
  exists out h',
    RankAndSelectTop sc h s topN = (Some out, h') /\
    elems h' out = take (Z.to_nat topN) (ranking (elems h s)).
Proof.
  intros Hvalid HtopN. unfold RankAndSelectTop.
  rewrite RankRepositories_valid by done. cbv zeta.
  pose proof (elems_length h s Hvalid) as Hlen.
  pose proof (Permutation_length (ranking_perm (elems h s))) as Hrlen.
  destruct (Z.of_nat (len _) >? topN) eqn:Hcmp; simpl in Hcmp.
  - unfold upTo. simpl.
    replace ((0 <=? topN) && (topN <=? Z.of_nat (len s))) with true
      by (symmetry; apply andb_true_iff; lia).
    do 2 eexists. split; [reflexivity|].
    unfold elems. simpl. by rewrite backing_fresh.
  - do 2 eexists. split; [reflexivity|].
    rewrite elems_whole by (try done; simpl; lia).
    rewrite take_ge; [done|]. lia.
Qed.

Lemma StronglySorted_app_inv {B : Type} (R : B -> B -> Prop) (l1 l2 : list B) :
  StronglySorted R (l1 ++ l2) ->
  forall a b, a ∈ l1 -> b ∈ l2 -> R a b.
Proof.
  induction l1 as [|x l1 IH]; simpl; intros Hs a b Ha Hb.
  - by apply elem_of_nil in Ha.
  - apply StronglySorted_inv in Hs as [Hs Hall].
    apply elem_of_cons in Ha as [->|Ha].
    + rewrite Forall_forall in Hall. apply Hall. rewrite elem_of_app. by right.
    + by apply IH.
Qed.

(** A count that is not negative is in range for the ranked slice. *)
Lemma RankAndSelectTop_no_panic (sc : ScoreCalculator) (h : Heap ScoredRepo)
    (s : Slice) (topN : Z) :
  0 <= topN -> (RankAndSelectTop sc h s topN).1 <> None.
Proof.
  intros HtopN. unfold RankAndSelectTop.
  destruct (RankRepositories_fresh sc h s) as [fresh ->].
  simpl len. destruct (Z.gtb_spec (Z.of_nat (len s)) topN) as [Hgt|Hle]; simpl; [|done].
  unfold upTo. simpl.
  by destruct (Z.leb_spec 0 topN), (Z.leb_spec topN (Z.of_nat (len s))); simpl; try lia.
Qed.

(** X5: [RankAndSelectTop] panics exactly when [topN] is negative,
    whatever the slice, the empty one included; a count larger than
    the input is no error. *)
Theorem RankAndSelectTop_panics_iff_negative (sc : ScoreCalculator)
    (h : Heap ScoredRepo) (s : Slice) (topN : Z) :
  (RankAndSelectTop sc h s topN).1 = None <-> topN < 0.
Proof.
  unfold RankAndSelectTop.
  destruct (RankRepositories_fresh sc h s) as [fresh ->].
  simpl len. destruct (Z.gtb_spec (Z.of_nat (len s)) topN) as [Hgt|Hle]; simpl.
  - unfold upTo. simpl.
    destruct (Z.leb_spec 0 topN), (Z.leb_spec topN (Z.of_nat (len s))); simpl;
      split; (done || lia).
  - split; [done|lia].
Qed.

(** X6: the repos selected are the best ones. For a count that is not
    negative, the input is, up to order, the selected repos followed
    by the dropped ones, and every selected repo has a
    [(Heat_30, Score)] at least that of every dropped repo. *)
Theorem selected_dominate_dropped (sc : ScoreCalculator) (h : Heap ScoredRepo)
    (s : Slice) (topN : Z) :
  valid h s -> 0 <= topN ->
  exists out h' dropped,
    RankAndSelectTop sc h s topN = (Some out, h') /\
    Permutation (elems h' out ++ dropped) (elems h s) /\
    (forall a b, a ∈ elems h' out -> b ∈ dropped -> keyGe a b).
Proof.
  intros Hvalid HtopN.
  destruct (RankAndSelectTop_elems sc h s topN Hvalid HtopN) as (out & h' & Hrun & Hout).
  exists out, h', (drop (Z.to_nat topN) (ranking (elems h s))).
  split; [done|]. rewrite Hout, take_drop. split; [apply ranking_perm|].
  apply StronglySorted_app_inv. rewrite take_drop. apply ranking_sorted.
Qed.

(** The theorem at the four repos, top two. *)
Lemma selected_dominate_dropped_witness :
  valid fourRepos allFour /\ 0 <= 2 /\
  exists out h' dropped,
    RankAndSelectTop (New 30 7) fourRepos allFour 2 = (Some out, h') /\
    Permutation (elems h' out ++ dropped) (elems fourRepos allFour) /\
    (forall a b, a ∈ elems h' out -> b ∈ dropped -> keyGe a b).
Proof.
  assert (Hpos : 0 <= 2) by lia.
  split; [exact allFour_valid|]. split; [exact Hpos|].
  exact (selected_dominate_dropped (New 30 7) fourRepos allFour 2 allFour_valid Hpos).
Defined.

(** X7: [RankRepositories] returns a slice that is already in rank
    order as it is, and ranking its own result again changes nothing. *)
Theorem RankRepositories_keeps_ranked_input (sc : ScoreCalculator)
    (h : Heap ScoredRepo) (s : Slice) :
  valid h s ->
  (StronglySorted keyGe (elems h s) ->
   elems (RankRepositories sc h s).2 (RankRepositories sc h s).1 = elems h s) /\
  elems (RankRepositories sc (RankRepositories sc h s).2 (RankRepositories sc h s).1).2
        (RankRepositories sc (RankRepositories sc h s).2 (RankRepositories sc h s).1).1
  = elems (RankRepositories sc h s).2 (RankRepositories sc h s).1.
Proof.
  intros Hvalid.
  pose proof (Permutation_length (ranking_perm (elems h s))) as Hrlen.
  pose proof (elems_length h s Hvalid) as Hlen.
  rewrite (RankRepositories_valid sc h s Hvalid). cbn [fst snd].
  set (ranked := {| array := length h; offset := 0; len := len s; cap := len s |}).
  assert (Hwhole : elems (h ++ [ranking (elems h s)])%list ranked = ranking (elems h s)).
  { apply elems_whole; try done. simpl. lia. }
  assert (Hvalid' : valid (h ++ [ranking (elems h s)])%list ranked).
  { unfold valid. rewrite length_app, backing_fresh by done. simpl. lia. }
  rewrite Hwhole. split.
  - intros Hsorted. symmetry. by apply ranking_unique.
  - rewrite (RankRepositories_valid sc _ ranked Hvalid'). cbn [fst snd].
    rewrite elems_whole; try done.
    + rewrite Hwhole. symmetry. apply ranking_unique; [done|apply ranking_sorted|done].
    + simpl. rewrite Hwhole.
      rewrite (Permutation_length (ranking_perm (ranking (elems h s)))). lia.
Qed.

(** The theorem at the four repos. *)
Lemma RankRepositories_keeps_ranked_input_witness :
  valid fourRepos allFour /\
  elems (RankRepositories (New 30 7) (RankRepositories (New 30 7) fourRepos allFour).2
           (RankRepositories (New 30 7) fourRepos allFour).1).2
        (RankRepositories (New 30 7) (RankRepositories (New 30 7) fourRepos allFour).2
           (RankRepositories (New 30 7) fourRepos allFour).1).1
  = elems (RankRepositories (New 30 7) fourRepos allFour).2
          (RankRepositories (New 30 7) fourRepos allFour).1.
Proof.
  split; [exact allFour_valid|].
  exact (proj2 (RankRepositories_keeps_ranked_input (New 30 7) fourRepos allFour
                  allFour_valid)).
Defined.

(** X8: the top lists nest. For counts [0 <= n <= n'], the top [n] of
    a slice is the first [n] repos of its top [n']. *)
Theorem top_lists_nest (sc : ScoreCalculator) (h : Heap ScoredRepo)
    (s : Slice) (n n' : Z) :
  valid h s -> 0 <= n -> n <= n' ->
  exists out h1 out' h2,
    RankAndSelectTop sc h s n = (Some out, h1) /\
    RankAndSelectTop sc h s n' = (Some out', h2) /\
    elems h1 out = take (Z.to_nat n) (elems h2 out').
Proof.
  intros Hvalid Hn Hle.
  destruct (RankAndSelectTop_elems sc h s n Hvalid Hn) as (out & h1 & Hrun & Hout).
  destruct (RankAndSelectTop_elems sc h s n' Hvalid ltac:(lia)) as (out' & h2 & Hrun' & Hout').
  exists out, h1, out', h2. split; [done|]. split; [done|].
  rewrite Hout, Hout', take_take. f_equal. lia.
Qed.

(** The theorem at the four repos, top two and top three. *)
Lemma top_lists_nest_witness :
  valid fourRepos allFour /\ 0 <= 2 /\ 2 <= 3 /\
  exists out h1 out' h2,
    RankAndSelectTop (New 30 7) fourRepos allFour 2 = (Some out, h1) /\
    RankAndSelectTop (New 30 7) fourRepos allFour 3 = (Some out', h2) /\
    elems h1 out = take (Z.to_nat 2) (elems h2 out').
Proof.
  assert (Hpos : 0 <= 2) by lia. assert (Hle : 2 <= 3) by lia.
  split; [exact allFour_valid|]. split; [exact Hpos|]. split; [exact Hle|].
  exact (top_lists_nest (New 30 7) fourRepos allFour 2 3 allFour_valid Hpos Hle).
Defined.

(** X9: ranking feeds the history. When the repos of a slice have
    pairwise distinct keys, the top list selected from it has distinct
    keys too, so [UpdateHistory] on that list keeps one entry per
    selected repo, each with the count of its old entry raised by one
    (or a new entry of one week). *)
Theorem ranked_top_updates_history (sc : ScoreCalculator) (h : Heap ScoredRepo)
    (s : Slice) (topN : Z) (m : Manager) (fs : FileState) (h0 : History)
    (r d : string) :
  valid h s -> 0 <= topN ->
  NoDup (Key <$> elems h s) ->
  LoadHistory m fs = Ok h0 ->
  exists out h' hist,
    RankAndSelectTop sc h s topN = (Some out, h') /\
    NoDup (Key <$> elems h' out) /\
    UpdateHistory m fs (elems h' out) r d = Ok hist /\
    Z.of_nat (size (HistoryMap hist)) = Z.min topN (Z.of_nat (len s)) /\
    (forall repo, repo ∈ elems h' out ->
       HistoryMap hist !! Key repo = Some (bump r d (HistoryMap h0 !! Key repo))).
Proof.
  intros Hvalid HtopN Hnd Hload.
  destruct (RankAndSelectTop_elems sc h s topN Hvalid HtopN) as (out & h' & Hrun & Hout).
  assert (Hnd' : NoDup (Key <$> elems h' out)).
  { rewrite Hout. apply (sublist_NoDup _ (Key <$> ranking (elems h s))).
    - by rewrite (ranking_perm (elems h s)).
    - apply fmap_sublist, sublist_take. }
  exists out, h'. unfold UpdateHistory. rewrite Hload. eexists.
  split; [done|]. split; [done|]. split; [reflexivity|]. split.
  - rewrite <- (size_dom (D := gset string)).
    assert (Hdom : dom (HistoryMap (updateLoaded mapKeys h0 (elems h' out) r d))
                   = list_to_set (Key <$> elems h' out)).
    { apply set_eq. intros k. rewrite elem_of_dom, elem_of_list_to_set.
      rewrite updateLoaded_lookup by apply mapKeys_visitsKeys.
      destruct (decide (k ∈ Key <$> elems h' out)) as [Hin|Hnin].
      - rewrite touch_all_lookup_nodup by done. split; [done|by eexists].
      - split; [by intros [? ?]|done]. }
    rewrite Hdom, size_list_to_set by done.
    rewrite length_fmap, Hout, length_take.
    rewrite (Permutation_length (ranking_perm (elems h s))).
    rewrite (elems_length h s Hvalid). lia.
  - intros repo Hin. rewrite updateLoaded_lookup by apply mapKeys_visitsKeys.
    rewrite decide_True by (apply list_elem_of_fmap; by exists repo).
    apply touch_all_lookup_nodup; [done|]. apply list_elem_of_fmap. by exists repo.
Qed.

(** The theorem at the four repos, top two, on the first run. *)
Lemma ranked_top_updates_history_witness :
  valid fourRepos allFour /\ 0 <= 2 /\
  NoDup (Key <$> elems fourRepos allFour) /\
  LoadHistory dataPath NotExist = Ok NewHistory /\
  exists out h' hist,
    RankAndSelectTop (New 30 7) fourRepos allFour 2 = (Some out, h') /\
    UpdateHistory dataPath NotExist (elems h' out) "2024-01-week1" "2024-01-07" = Ok hist /\
    Z.of_nat (size (HistoryMap hist)) = 2.
Proof.
  assert (Hpos : 0 <= 2) by lia.
  assert (Hnd : NoDup (Key <$> elems fourRepos allFour)).
  { apply (bool_decide_unpack _). vm_compute. exact I. }
  split; [exact allFour_valid|]. split; [exact Hpos|]. split; [exact Hnd|].
  split; [reflexivity|].
  destruct (ranked_top_updates_history (New 30 7) fourRepos allFour 2 dataPath NotExist
              NewHistory "2024-01-week1" "2024-01-07" allFour_valid Hpos Hnd eq_refl)
    as (out & h' & hist & Hrun & _ & Hupd & Hsize & _).
  exists out, h', hist. split; [exact Hrun|]. split; [exact Hupd|]. exact Hsize.
Defined.

End RankExtras.
(** ** Further properties of the classifier *)

Section ClassifierExtras.
Import models config classifier.

Variable c : Classifier.

(** The sum, over the entries of a list of categories, of the number
    of keywords that match. *)
Definition categoryTotal (text : string) (entries : list (string * list string)) : Z :=
  foldr (fun entry acc => countMatches c text entry.2 + acc) 0 entries.

(** Every keyword match of a repo: the include keywords that match
    and, for each category of the configuration, its keywords that
    match. *)
Definition totalMatches (repo : RepoMetadata) : Z :=
  countMatches c (buildSearchText c repo) (Include (keywords c)) +
  categoryTotal (buildSearchText c repo) (map_to_list (Categories (keywords c))).

Lemma categoryTotal_fold (text : string) (order : list (string * list string)) (acc : Z) :
  fold_left (fun score '(_, keywords) =>
               fold_left (fun score keyword =>
                            if matchesKeyword c text keyword then score + 1 else score)
                         keywords score) order acc
  = acc + categoryTotal text order.
Proof.
  revert acc. induction order as [|[name kws] order IH]; intros acc; simpl.
  - lia.
  - rewrite IH, countMatches_from, countMatches_length. lia.
Qed.

Lemma categoryTotal_perm (text : string) (l1 l2 : list (string * list string)) :
  Permutation l1 l2 -> categoryTotal text l1 = categoryTotal text l2.
Proof. induction 1; simpl; lia. Qed.

Lemma countMatches_nonneg (text : string) (kws : list string) : 0 <= countMatches c text kws.
Proof. rewrite countMatches_length. lia. Qed.

Lemma categoryTotal_assigned (repo : RepoMetadata) (order : list (string * list string)) :
  Z.of_nat (length (assignCategories c order repo))
  <= categoryTotal (buildSearchText c repo) order.
Proof.
  rewrite assignCategories_filter, length_fmap.
  induction order as [|[name kws] order IH]; simpl; [lia|].
  unfold categoryMatches at 1. simpl.
  destruct (existsb _ kws) eqn:Hany; simpl.
  - assert (1 <= countMatches c (buildSearchText c repo) kws); [|lia].
    apply existsb_exists in Hany as (kw & Hin & Hkw).
    rewrite countMatches_length.
    assert (Hmem : kw ∈ List.filter (matchesKeyword c (buildSearchText c repo)) kws).
    { apply list_elem_of_In, filter_In. by split. }
    destruct (List.filter _ kws); [by apply elem_of_nil in Hmem|]. simpl. lia.
  - pose proof (countMatches_nonneg (buildSearchText c repo) kws). lia.
Qed.

(** X10: the match score does not depend on the order in which the
    map of categories is visited: it is the number of include keywords
    that match plus, over every category, the number of its keywords
    that match. For a repo that [Classify] returns it is at least one
    more than the number of categories assigned. *)
Theorem MatchScore_counts_all_matches (sched : nat -> list (string * list string))
    (repos : list RepoMetadata) (cr : ClassifiedRepo) :
  validSchedule c sched ->
  cr ∈ Classify c sched repos ->
  MatchScore cr = totalMatches (Metadata cr) /\
  1 + Z.of_nat (length (models.Categories cr)) <= MatchScore cr.
Proof.
  intros Hsched Hin.
  destruct (Classify_elem c sched repos cr Hin) as (i & Hpass & _ & Hcr).
  assert (Hscore : calculateMatchScore c (sched i) (Metadata cr) = totalMatches (Metadata cr)).
  { unfold calculateMatchScore, totalMatches. rewrite categoryTotal_fold.
    f_equal. apply categoryTotal_perm, Hsched. }
  rewrite Hcr. simpl. split; [exact Hscore|].
  pose proof (categoryTotal_assigned (Metadata cr) (sched i)) as Hcats.
  unfold calculateMatchScore. rewrite categoryTotal_fold.
  assert (1 <= countMatches c (buildSearchText c (Metadata cr)) (Include (keywords c))); [|lia].
  apply andb_true_iff in Hpass as [Hinc _]. unfold matchesInclude in Hinc.
  apply existsb_exists in Hinc as (kw & Hkw & Hmatch).
  rewrite countMatches_length.
  assert (Hmem : kw ∈ List.filter (matchesKeyword c (buildSearchText c (Metadata cr)))
                      (Include (keywords c))).
  { apply list_elem_of_In, filter_In. by split. }
  destruct (List.filter _ (Include (keywords c))); [by apply elem_of_nil in Hmem|].
  simpl. lia.
Qed.

(** X11: [assignCategories] returns each category at most once, and
    exactly the categories of the configuration that have a keyword
    matching the repo. *)
Theorem assignCategories_matching_once (order : list (string * list string))
    (repo : RepoMetadata) :
  enumerates order (Categories (keywords c)) ->
  NoDup (assignCategories c order repo) /\
  (forall name,
     name ∈ assignCategories c order repo <->
     exists kws keyword,
       Categories (keywords c) !! name = Some kws /\ keyword ∈ kws /\
       matchesKeyword c (buildSearchText c repo) keyword = true).
Proof.
  intros Henum. rewrite assignCategories_filter.
  assert (Hnd : NoDup order.*1).
  { unfold enumerates in Henum. rewrite Henum. apply NoDup_fst_map_to_list. }
  split.
  - clear Henum. induction order as [|[n kws] order IH]; [constructor|].
    rewrite fmap_cons in Hnd. apply NoDup_cons in Hnd as [Hnotin Hnd]. simpl in Hnotin.
    simpl List.filter.
    destruct (categoryMatches c repo (n, kws)); [|by apply IH].
    rewrite fmap_cons. apply NoDup_cons. split; [|by apply IH].
    intros ([n' kws'] & Heq & Hin)%list_elem_of_fmap. simpl in Heq. subst n'.
    apply list_elem_of_In, filter_In in Hin as [Hin _].
    apply Hnotin, list_elem_of_fmap. exists (n, kws'). split; [done|].
    by apply list_elem_of_In.
  - intros name. rewrite list_elem_of_fmap. split.
    + intros ([n kws] & -> & Hin). simpl.
      apply list_elem_of_In, filter_In in Hin as [Hin Hmatch].
      unfold categoryMatches in Hmatch. simpl in Hmatch.
      apply existsb_exists in Hmatch as (kw & Hkw & Hmatch).
      exists kws, kw. split; [|split; [by apply list_elem_of_In|done]].
      apply (enumerates_lookup order); [done|by apply list_elem_of_In].
    + intros (kws & kw & Hlook & Hkw & Hmatch).
      exists (name, kws). split; [done|].
      apply list_elem_of_In, filter_In. split.
      * apply list_elem_of_In. unfold enumerates in Henum. rewrite Henum.
        by apply elem_of_map_to_list.
      * unfold categoryMatches. simpl. apply existsb_exists.
        exists kw. split; [by apply list_elem_of_In|done].
Qed.

(** X12: the primary category of a repo that [Classify] returns is the
    empty string when no category was assigned, and one of the
    assigned categories otherwise. *)
Theorem PrimaryCategory_is_assigned (sched : nat -> list (string * list string))
    (repos : list RepoMetadata) (cr : ClassifiedRepo) :
  cr ∈ Classify c sched repos ->
  (models.Categories cr = [] /\ PrimaryCategory cr = "") \/
  PrimaryCategory cr ∈ models.Categories cr.
Proof.
  intros Hin. destruct (Classify_elem c sched repos cr Hin) as (i & _ & _ & Hcr).
  rewrite Hcr. simpl.
  destruct (assignCategories c (sched i) (Metadata cr)) as [|first rest] eqn:Hcats;
    [by left|right].
  rewrite selectPrimaryCategory_fold.
  pose proof (selectStep_fold c (Metadata cr) (first :: rest) 0 first) as Hfold.
  destruct (fold_left _ (first :: rest) (0, first)) as [m p]. simpl.
  destruct Hfold as [(_ & -> & _)|(pre & post & Heq & _)].
  - by left.
  - rewrite Heq. rewrite elem_of_app. right. by left.
Qed.

(** The repo with its name, description and topics in lower case. *)
Definition lowered (repo : RepoMetadata) : RepoMetadata :=
  {| Owner := Owner repo;
     Name := strings.ToLower (Name repo);
     URL := URL repo;
     Description := strings.ToLower (Description repo);
     Language := Language repo;
     Topics := strings.ToLower <$> Topics repo;
     Stars := Stars repo;
     Forks := Forks repo;
     StarsToday := StarsToday repo;
     StarsThisWeek := StarsThisWeek repo;
     StarsThisMonth := StarsThisMonth repo;
     CreatedAt := CreatedAt repo |}.

Lemma ToLower_app (a b : string) :
  strings.ToLower (a ++ b) = (strings.ToLower a ++ strings.ToLower b)%string.
Proof.
  induction a as [|ch a IH]; [by rewrite !append_nil|].
  rewrite append_cons. simpl. by rewrite append_cons, IH.
Qed.

Lemma ToLower_Join (parts : list string) :
  strings.ToLower (strings.Join parts " ")
  = strings.Join (strings.ToLower <$> parts) " ".
Proof.
  unfold strings.Join. induction parts as [|part parts IH]; [done|].
  destruct parts as [|part' parts]; [done|].
  change (String.concat " " (part :: part' :: parts))
    with (part ++ " " ++ String.concat " " (part' :: parts))%string.
  rewrite !ToLower_app, IH. done.
Qed.

Lemma buildSearchText_lowered (repo : RepoMetadata) :
  buildSearchText c (lowered repo) = buildSearchText c repo.
Proof.
  unfold buildSearchText, lowered. cbn [Name Description Topics app].
  change (strings.ToLower (Name repo) :: strings.ToLower (Description repo)
            :: (strings.ToLower <$> Topics repo))
    with (strings.ToLower <$> (Name repo :: Description repo :: Topics repo)).
  by rewrite <- ToLower_Join, ToLower_idempotent.
Qed.

(** X13: classification ignores case. A repo whose name, description
    and topics are put in lower case has the same search text, passes
    the filter in the same cases and gets the same categories; and a
    keyword matches a text exactly when its lower case matches the
    lower case of the text. *)
Theorem classification_ignores_case (repo : RepoMetadata)
    (order : list (string * list string)) (text keyword : string) :
  buildSearchText c (lowered repo) = buildSearchText c repo /\
  passes c (lowered repo) = passes c repo /\
  assignCategories c order (lowered repo) = assignCategories c order repo /\
  matchesKeyword c (strings.ToLower text) (strings.ToLower keyword)
  = matchesKeyword c text keyword.
Proof.
  split; [apply buildSearchText_lowered|]. split; [|split].
  - unfold passes, matchesInclude, matchesExclude.
    by rewrite buildSearchText_lowered.
  - unfold assignCategories. by rewrite buildSearchText_lowered.
  - unfold matchesKeyword. by rewrite !ToLower_idempotent.
Qed.

End ClassifierExtras.

Section ClassifierExtrasWitnesses.
Import models config classifier.

Lemma llmAgent_classified :
  classification agentAndLlm (agentFirst 0%nat) llmAgent
    ∈ Classify agentAndLlm agentFirst [llmAgent].
Proof. vm_compute. by left. Qed.

(** The theorem at a repo that matches the include keyword and both
    categories: the score is three. *)
Lemma MatchScore_counts_all_matches_witness :
  validSchedule agentAndLlm agentFirst /\
  classification agentAndLlm (agentFirst 0%nat) llmAgent
    ∈ Classify agentAndLlm agentFirst [llmAgent] /\
  1 + Z.of_nat (length (models.Categories
                          (classification agentAndLlm (agentFirst 0%nat) llmAgent)))
  <= MatchScore (classification agentAndLlm (agentFirst 0%nat) llmAgent).
Proof.
  split; [exact agentFirst_valid|]. split; [exact llmAgent_classified|].
  exact (proj2 (MatchScore_counts_all_matches agentAndLlm agentFirst [llmAgent] _
                  agentFirst_valid llmAgent_classified)).
Defined.

Lemma agentFirst_enumerates :
  enumerates (agentFirst 0%nat) (Categories (keywords agentAndLlm)).
Proof. apply agentFirst_valid. Qed.

(** The theorem at the same repo. *)
Lemma assignCategories_matching_once_witness :
  enumerates (agentFirst 0%nat) (Categories (keywords agentAndLlm)) /\
  NoDup (assignCategories agentAndLlm (agentFirst 0%nat) llmAgent).
Proof.
  split; [exact agentFirst_enumerates|].
  exact (proj1 (assignCategories_matching_once agentAndLlm (agentFirst 0%nat) llmAgent
                  agentFirst_enumerates)).
Defined.

(** The theorem at the same repo. *)
Lemma PrimaryCategory_is_assigned_witness :
  classification agentAndLlm (agentFirst 0%nat) llmAgent
    ∈ Classify agentAndLlm agentFirst [llmAgent] /\
  ((models.Categories (classification agentAndLlm (agentFirst 0%nat) llmAgent) = [] /\
    PrimaryCategory (classification agentAndLlm (agentFirst 0%nat) llmAgent) = "") \/
   PrimaryCategory (classification agentAndLlm (agentFirst 0%nat) llmAgent)
     ∈ models.Categories (classification agentAndLlm (agentFirst 0%nat) llmAgent)).
Proof.
  split; [exact llmAgent_classified|].
  exact (PrimaryCategory_is_assigned agentAndLlm agentFirst [llmAgent] _
           llmAgent_classified).
Defined.

End ClassifierExtrasWitnesses.
(** ** Further properties of the summary builder *)

Section SummaryExtras.
Import models errors config slices calculator history summary.

Lemma fold_left_snoc_map {A B : Type} (f : A -> B) (l : list A) :
  fold_left (fun acc x => (acc ++ [f x])%list) l [] = f <$> l.
Proof.
  rewrite (fold_left_append (fun x => [f x])). simpl.
  induction l as [|x l IH]; simpl; [done|]. by rewrite IH.
Qed.

(** The languages map [aggregateLanguages] builds. *)
Definition languageMap (repos : list ScoredRepo) : gmap string Z :=
  fold_left (fun (languageMap : gmap string Z) repo =>
               let language := Language (Metadata (Repo repo)) in
               <[language := default 0 (languageMap !! language) + 1]> languageMap)
            repos ∅.

(** How many repos of the list have the language. *)
Definition languageCount (lang : string) (repos : list ScoredRepo) : Z :=
  Z.of_nat (length (filter (fun repo => Language (Metadata (Repo repo)) = lang) repos)).

Lemma languageMap_lookup (repos : list ScoredRepo) (lang : string) :
  languageMap repos !! lang =
    if decide (languageCount lang repos = 0) then None
    else Some (languageCount lang repos).
Proof.
  unfold languageMap, languageCount.
  induction repos as [|repo repos IH] using rev_ind; [done|].
  rewrite fold_left_app, filter_app, length_app. simpl fold_left.
  rewrite filter_cons, filter_nil.
  destruct (decide (Language (Metadata (Repo repo)) = lang)) as [->|Hne].
  - rewrite lookup_insert_eq, IH. simpl length.
    repeat case_decide; simpl; try lia; f_equal; lia.
  - rewrite lookup_insert_ne by done. rewrite IH. simpl length.
    by rewrite Nat.add_0_r.
Qed.

(** Settings as the example configuration has them. *)
Definition exampleSettings : Settings :=
  {| WindowDays := 30; ShortWindowDays := 7; TopN := 10;
     NewRepoThresholdDays := 90; DarkHorseAccelThreshold := 100;
     CacheTTLHours := 24; ReportLanguage := "en";
     ReportIDFormat := "YYYY-MM-weekN"; FilterDomain := "AI" |}.

(** An environment whose [range] loops visit a map in key order. *)
Definition keyOrder : Env :=
  {| now := 0;
     rangeCategories := map_to_list;
     rangeLanguages := map_to_list |}.

(** X14: [aggregateLanguages] lists each language of the repos once,
    with the number of repos that have it; a language that no repo has
    is not listed, so every count is at least one. *)
Theorem aggregateLanguages_counts (b : Builder) (env : Env) (repos : list ScoredRepo) :
  (forall m, enumerates (rangeLanguages env m) m) ->
  NoDup (lang_Name <$> aggregateLanguages b env repos) /\
  (forall name count,
     {| lang_Name := name; lang_Count := count |} ∈ aggregateLanguages b env repos <->
     1 <= count /\ count = languageCount name repos).
Proof.
  intros Henum. unfold aggregateLanguages. fold (languageMap repos).
  specialize (Henum (languageMap repos)). unfold enumerates in Henum.
  rewrite (fold_left_ext _
    (fun acc entry => (acc ++ [ {| lang_Name := entry.1; lang_Count := entry.2 |} ])%list))
    by (by intros acc [lang count]).
  rewrite fold_left_snoc_map. split.
  - rewrite <- list_fmap_compose.
    change (NoDup (rangeLanguages env (languageMap repos)).*1).
    rewrite Henum. apply NoDup_fst_map_to_list.
  - intros name count. rewrite list_elem_of_fmap. split.
    + intros ([lang n] & [= -> ->] & Hin). rewrite Henum in Hin.
      apply elem_of_map_to_list in Hin. rewrite languageMap_lookup in Hin.
      case_decide; [done|]. injection Hin as <-. unfold languageCount in *. lia.
    + intros [Hpos ->]. exists (name, languageCount name repos). split; [done|].
      rewrite Henum. apply elem_of_map_to_list. rewrite languageMap_lookup.
      rewrite decide_False; [done|lia].
Qed.

(** The theorem at the four repos, which name no language. *)
Lemma aggregateLanguages_counts_witness :
  (forall m, enumerates (rangeLanguages keyOrder m) m) /\
  NoDup (lang_Name <$> aggregateLanguages (NewBuilder exampleSettings) keyOrder
                         (elems fourRepos allFour)).
Proof.
  assert (Henum : forall m, enumerates (rangeLanguages keyOrder m) m)
    by (intros m; apply Permutation_refl).
  split; [exact Henum|].
  exact (proj1 (aggregateLanguages_counts (NewBuilder exampleSettings) keyOrder
                  (elems fourRepos allFour) Henum)).
Defined.

(** The map of aggregators [aggregateCategories] builds. *)
Definition categoryMap (repos : list ScoredRepo) : gmap string categoryAggregator :=
  fold_left (fun (categoryMap : gmap string categoryAggregator) repo =>
               let category := PrimaryCategory (Repo repo) in
               let agg :=
                 default {| agg_name := category; agg_count := 0;
                            heat7Sum := 0; scoreSum := 0 |}
                         (categoryMap !! category) in
               <[category := {| agg_name := agg_name agg;
                                agg_count := agg_count agg + 1;
                                heat7Sum := GoInt.add (heat7Sum agg) (Heat7 repo);
                                scoreSum := GoInt.add (scoreSum agg) (Score repo) |}]>
                 categoryMap)
            repos ∅.

(** The repos of the list whose primary category is [category]. *)
Definition inCategory (category : string) (repos : list ScoredRepo) : list ScoredRepo :=
  filter (fun repo => PrimaryCategory (Repo repo) = category) repos.

(** A sum in Go's [int], added up from the left. *)
Definition sumInt (values : list Z) : Z := fold_left GoInt.add values 0.

(** The statistics of a category: its repos counted, and the sums of
    their [Heat7] and [Score] divided by the count. *)
Definition categoryStats (category : string) (repos : list ScoredRepo) : CategoryStats :=
  let members := inCategory category repos in
  let count := Z.of_nat (length members) in
  {| cat_Name := category;
     cat_Count := count;
     AvgHeat7 := float64.div (float64.ofInt (sumInt (Heat7 <$> members)))
                             (float64.ofInt count);
     AvgScore := float64.div (float64.ofInt (sumInt (Score <$> members)))
                             (float64.ofInt count) |}.

(** The aggregator a category with repos ends with. *)
Definition aggregatorOf (category : string) (repos : list ScoredRepo) : categoryAggregator :=
  let members := inCategory category repos in
  {| agg_name := category;
     agg_count := Z.of_nat (length members);
     heat7Sum := sumInt (Heat7 <$> members);
     scoreSum := sumInt (Score <$> members) |}.

Lemma categoryMap_lookup (repos : list ScoredRepo) (category : string) :
  categoryMap repos !! category =
    match inCategory category repos with
    | [] => None
    | _ => Some (aggregatorOf category repos)
    end.
Proof.
  unfold categoryMap, aggregatorOf, inCategory.
  induction repos as [|repo repos IH] using rev_ind; [done|].
  rewrite fold_left_app, filter_app. simpl fold_left.
  rewrite filter_cons, filter_nil.
  destruct (decide (PrimaryCategory (Repo repo) = category)) as [->|Hne].
  - rewrite lookup_insert_eq, IH.
    set (members := filter _ repos).
    assert (Hsnoc : (members ++ [repo])%list <> []) by (by destruct members).
    destruct (members ++ [repo])%list as [|x rest] eqn:Happ; [done|].
    rewrite <- Happ. rewrite !fmap_app, length_app. unfold sumInt.
    rewrite !fold_left_app. simpl.
    destruct members as [|y members']; simpl; f_equal; f_equal; lia.
  - rewrite lookup_insert_ne by done. rewrite IH. by rewrite app_nil_r.
Qed.

(** X15: [aggregateCategories] lists each primary category of the
    repos once, with the number of its repos and the averages of their
    [Heat7] and [Score] (sums in Go's [int], divided as [float64]). A
    category without repos is not listed, so no average divides by
    zero. *)
Theorem aggregateCategories_stats (b : Builder) (env : Env) (repos : list ScoredRepo) :
  (forall m, enumerates (rangeCategories env m) m) ->
  NoDup (cat_Name <$> aggregateCategories b env repos) /\
  (forall stats,
     stats ∈ aggregateCategories b env repos <->
     exists category,
       stats = categoryStats category repos /\ 1 <= cat_Count stats).
Proof.
  intros Henum. unfold aggregateCategories. fold (categoryMap repos).
  specialize (Henum (categoryMap repos)). unfold enumerates in Henum.
  set (statsOf := fun agg : categoryAggregator =>
         {| cat_Name := agg_name agg;
            cat_Count := agg_count agg;
            AvgHeat7 := float64.div (float64.ofInt (heat7Sum agg))
                                    (float64.ofInt (agg_count agg));
            AvgScore := float64.div (float64.ofInt (scoreSum agg))
                                    (float64.ofInt (agg_count agg)) |}).
  rewrite (fold_left_ext _ (fun acc entry => (acc ++ [statsOf entry.2])%list))
    by (by intros acc [name agg]).
  rewrite fold_left_snoc_map.
  assert (Hentry : forall name agg,
            (name, agg) ∈ rangeCategories env (categoryMap repos) <->
            inCategory name repos <> [] /\ agg = aggregatorOf name repos).
  { intros name agg. rewrite Henum, elem_of_map_to_list, categoryMap_lookup.
    destruct (inCategory name repos) as [|x members] eqn:Hmem.
    - split; [done|by intros [? _]].
    - split; [by intros [= <-]|by intros [_ ->]]. }
  split.
  - rewrite <- list_fmap_compose.
    assert (Hnames : (cat_Name ∘ (fun entry : string * categoryAggregator =>
                                    statsOf entry.2))
                       <$> rangeCategories env (categoryMap repos)
                     = (rangeCategories env (categoryMap repos)).*1).
    { apply list_fmap_ext. intros i [name agg] Hi. simpl.
      by apply list_elem_of_lookup_2, Hentry in Hi as (_ & ->). }
    rewrite Hnames, Henum. apply NoDup_fst_map_to_list.
  - intros stats. rewrite list_elem_of_fmap. split.
    + intros ([name agg] & -> & [Hne ->]%Hentry). exists name. split; [done|].
      simpl. unfold inCategory in *. destruct (filter _ repos); [done|]. simpl. lia.
    + intros (category & -> & Hpos). exists (category, aggregatorOf category repos).
      split; [done|]. apply Hentry. split; [|done].
      simpl in Hpos. intros Hnil. rewrite Hnil in Hpos. simpl in Hpos. lia.
Qed.

(** The theorem at the four repos, which have no category. *)
Lemma aggregateCategories_stats_witness :
  (forall m, enumerates (rangeCategories keyOrder m) m) /\
  NoDup (cat_Name <$> aggregateCategories (NewBuilder exampleSettings) keyOrder
                        (elems fourRepos allFour)).
Proof.
  assert (Henum : forall m, enumerates (rangeCategories keyOrder m) m)
    by (intros m; apply Permutation_refl).
  split; [exact Henum|].
  exact (proj1 (aggregateCategories_stats (NewBuilder exampleSettings) keyOrder
                  (elems fourRepos allFour) Henum)).
Defined.

(** X16: [buildTopRepos] numbers the repos 1, 2, ... in the order of
    the list and keeps one record per repo; built from what
    [RankAndSelectTop] returns, a record of better rank never has a
    smaller [(heat_30, score)]. *)
Theorem TopRepos_ranked_in_order (b : Builder) (sc : ScoreCalculator)
    (h : Heap ScoredRepo) (s : Slice) (topN : Z) :
  valid h s -> 0 <= topN ->
  exists out h',
    RankAndSelectTop sc h s topN = (Some out, h') /\
    top_RepoKey <$> buildTopRepos b (elems h' out) = Key <$> elems h' out /\
    (forall i info, buildTopRepos b (elems h' out) !! i = Some info ->
                    Rank info = Z.of_nat i + 1) /\
    (forall i j x y,
       buildTopRepos b (elems h' out) !! i = Some x ->
       buildTopRepos b (elems h' out) !! j = Some y ->
       (i < j)%nat ->
       top_Heat30 x > top_Heat30 y \/
       (top_Heat30 x = top_Heat30 y /\ top_Score x >= top_Score y)).
Proof.
  intros Hvalid HtopN.
  destruct (RankAndSelectTop_elems sc h s topN Hvalid HtopN) as (out & h' & Hrun & Hout).
  exists out, h'. split; [done|].
  assert (Hsorted : StronglySorted keyGe (elems h' out)).
  { rewrite Hout. apply StronglySorted_take, ranking_sorted. }
  unfold buildTopRepos. split; [|split].
  - apply list_eq. intros i. rewrite !list_lookup_fmap, list_lookup_imap.
    by destruct (elems h' out !! i).
  - intros i info. rewrite list_lookup_imap.
    destruct (elems h' out !! i); [|done]. by intros [= <-].
  - intros i j x y. rewrite !list_lookup_imap.
    destruct (elems h' out !! i) as [a|] eqn:Hi; [|done].
    destruct (elems h' out !! j) as [c|] eqn:Hj; [|done].
    intros [= <-] [= <-] Hij. simpl.
    change (keyGe a c).
    rewrite <- (take_drop_middle _ _ _ Hj) in Hsorted, Hi.
    apply (StronglySorted_app_inv _ _ _ Hsorted).
    + pose proof (lookup_lt_Some _ _ _ Hj) as Hlt.
      rewrite lookup_app_l in Hi by (rewrite length_take; lia).
      by apply list_elem_of_lookup_2 in Hi.
    + by left.
Qed.

(** The theorem at the four repos, top three. *)
Lemma TopRepos_ranked_in_order_witness :
  valid fourRepos allFour /\ 0 <= 3 /\
  exists out h',
    RankAndSelectTop (New 30 7) fourRepos allFour 3 = (Some out, h') /\
    top_RepoKey <$> buildTopRepos (NewBuilder exampleSettings) (elems h' out)
    = Key <$> elems h' out.
Proof.
  assert (Hpos : 0 <= 3) by lia.
  split; [exact allFour_valid|]. split; [exact Hpos|].
  destruct (TopRepos_ranked_in_order (NewBuilder exampleSettings) (New 30 7)
              fourRepos allFour 3 allFour_valid Hpos) as (out & h' & Hrun & Hkeys & _).
  exists out, h'. split; [exact Hrun|exact Hkeys].
Defined.

(** The record [identifyDarkHorses] emits for a repo. *)
Definition darkHorseOf (repo : ScoredRepo) : DarkHorseInfo :=
  {| dh_RepoKey := Key repo;
     dh_RepoName := Name (Metadata (Repo repo));
     dh_URL := URL (Metadata (Repo repo));
     dh_Score := Score repo;
     dh_Heat30 := Heat30 repo;
     dh_Heat7 := Heat7 repo;
     dh_Category := PrimaryCategory (Repo repo) |}.

Lemma identifyDarkHorses_filter (b : Builder) (repos : list ScoredRepo) :
  identifyDarkHorses b repos
  = darkHorseOf <$> filter (fun repo => DarkHorseAccelThreshold (settings b) <= Score repo)
                           repos.
Proof.
  unfold identifyDarkHorses.
  rewrite (fold_left_ext _
    (fun acc repo => (acc ++ (if Score repo >=? DarkHorseAccelThreshold (settings b)
                              then [darkHorseOf repo] else []))%list)).
  - rewrite fold_left_append. simpl.
    induction repos as [|repo repos IH]; [done|]. simpl flat_map.
    rewrite filter_cons.
    destruct (Z.geb_spec (Score repo) (DarkHorseAccelThreshold (settings b)));
      destruct (decide _); try lia; simpl; by rewrite IH.
  - intros acc repo. destruct (_ >=? _); [done|by rewrite app_nil_r].
Qed.

(** X17: the dark horses are the repos whose score reaches the
    threshold of the settings, in the order of the list, each with its
    own key and score; a repo below the threshold is never listed. *)
Theorem DarkHorses_reach_threshold (b : Builder) (repos : list ScoredRepo) :
  dh_RepoKey <$> identifyDarkHorses b repos
  = Key <$> filter (fun repo => DarkHorseAccelThreshold (settings b) <= Score repo) repos /\
  dh_Score <$> identifyDarkHorses b repos
  = Score <$> filter (fun repo => DarkHorseAccelThreshold (settings b) <= Score repo) repos /\
  Forall (fun info => DarkHorseAccelThreshold (settings b) <= dh_Score info)
         (identifyDarkHorses b repos).
Proof.
  rewrite identifyDarkHorses_filter, <- !list_fmap_compose.
  split; [done|]. split; [done|].
  apply Forall_fmap, Forall_forall. intros repo Hin. simpl.
  by apply list_elem_of_filter in Hin as [Hge _].
Qed.

(** X18: the summary right after the history update. With a top list
    of pairwise distinct keys, [UpdateHistory] followed by
    [BuildSummary] on the history it returns reports as repeaters
    exactly the repos of the top list that the stored history already
    held, each with its stored count raised by one, when that count is
    at least two; on a first run there is none. *)
Theorem Repeaters_after_update (m : Manager) (fs : FileState) (h0 : History)
    (b : Builder) (env : Env) (topRepos : list ScoredRepo) (r d runDate : string) :
  LoadHistory m fs = Ok h0 ->
  NoDup (Key <$> topRepos) ->
  exists hist,
    UpdateHistory m fs topRepos r d = Ok hist /\
    (forall info,
       info ∈ Repeaters (BuildSummary b env topRepos hist runDate) <->
       exists repo old,
         repo ∈ topRepos /\
         HistoryMap h0 !! Key repo = Some old /\
         GoInt.incr (WeeksInTop old) >= 2 /\
         info = repeaterOf repo (GoInt.incr (WeeksInTop old))) /\
    (HistoryMap h0 = ∅ -> Repeaters (BuildSummary b env topRepos hist runDate) = []).
Proof.
  intros Hload Hnd. unfold UpdateHistory. rewrite Hload. eexists. split; [reflexivity|].
  set (hist := updateLoaded mapKeys h0 topRepos r d).
  assert (Hlook : forall repo, repo ∈ topRepos ->
            HistoryMap hist !! Key repo = Some (bump r d (HistoryMap h0 !! Key repo))).
  { intros repo Hin. unfold hist.
    rewrite updateLoaded_lookup by apply mapKeys_visitsKeys.
    assert (Hk : Key repo ∈ Key <$> topRepos) by (apply list_elem_of_fmap; by exists repo).
    rewrite decide_True by done. by apply touch_all_lookup_nodup. }
  assert (Hiff : forall info,
       info ∈ Repeaters (BuildSummary b env topRepos hist runDate) <->
       exists repo old,
         repo ∈ topRepos /\
         HistoryMap h0 !! Key repo = Some old /\
         GoInt.incr (WeeksInTop old) >= 2 /\
         info = repeaterOf repo (GoInt.incr (WeeksInTop old))).
  { intros info. simpl. rewrite identifyRepeaters_flat_map.
    rewrite list_elem_of_In, in_flat_map. split.
    - intros (repo & Hin%list_elem_of_In & Hinfo). unfold repeaterFor in Hinfo.
      rewrite (Hlook repo Hin) in Hinfo.
      destruct (HistoryMap h0 !! Key repo) as [old|] eqn:Hold; simpl in Hinfo.
      + destruct (Z.geb_spec (GoInt.incr (WeeksInTop old)) 2); [|done].
        destruct Hinfo as [<-|[]]. exists repo, old.
        split; [done|]. split; [done|]. split; [lia|done].
      + done.
    - intros (repo & old & Hin & Hold & Hge & ->). exists repo.
      split; [by apply list_elem_of_In|]. unfold repeaterFor.
      rewrite (Hlook repo Hin), Hold. simpl.
      destruct (Z.geb_spec (GoInt.incr (WeeksInTop old)) 2); [by left|lia]. }
  split; [exact Hiff|].
  intros Hempty.
  destruct (Repeaters (BuildSummary b env topRepos hist runDate)) as [|info rest] eqn:Hrep;
    [done|].
  assert (Hin : info ∈ info :: rest) by (by left).
  apply Hiff in Hin as (repo & old & _ & Hold & _).
  rewrite Hempty in Hold. by rewrite lookup_empty in Hold.
Qed.

(** The theorem on a first run. *)
Lemma Repeaters_after_update_witness :
  LoadHistory dataPath NotExist = Ok NewHistory /\
  NoDup (Key <$> [repoNamed "owner1" "repo1"]) /\
  exists hist,
    UpdateHistory dataPath NotExist [repoNamed "owner1" "repo1"]
      "2024-01-week1" "2024-01-07" = Ok hist /\
    Repeaters (BuildSummary (NewBuilder exampleSettings) keyOrder
                 [repoNamed "owner1" "repo1"] hist "2024-01-07") = [].
Proof.
  assert (Hnd : NoDup (Key <$> [repoNamed "owner1" "repo1"])).
  { apply (bool_decide_unpack _). vm_compute. exact I. }
  split; [reflexivity|]. split; [exact Hnd|].
  destruct (Repeaters_after_update dataPath NotExist NewHistory (NewBuilder exampleSettings)
              keyOrder [repoNamed "owner1" "repo1"] "2024-01-week1" "2024-01-07"
              "2024-01-07" eq_refl Hnd) as (hist & Hupd & _ & Hfirst).
  exists hist. split; [exact Hupd|]. exact (Hfirst eq_refl).
Defined.

End SummaryExtras.
(** ** Repo keys *)

Section RepoKeys.
Import models.

(** No character of [s] is a slash. *)
Definition noSlash (s : string) : bool :=
  allChars (fun c => negb (Ascii.eqb c "/")) s.

Lemma noSlash_cons (c : ascii) (s : string) :
  noSlash (String c s) = negb (Ascii.eqb c "/") && noSlash s.
Proof. reflexivity. Qed.

Lemma substring_prefix (a s : string) : substring 0 (String.length a) (a ++ s) = a.
Proof.
  induction a as [|c a IH].
  - rewrite append_nil. by destruct s.
  - rewrite append_cons. simpl. by rewrite IH.
Qed.

Lemma substring_skip (a s : string) (n m : nat) :
  substring (String.length a + n) m (a ++ s) = substring n m s.
Proof.
  induction a as [|c a IH]; [by rewrite append_nil|].
  rewrite append_cons. simpl. by rewrite IH.
Qed.

Lemma length_append (a b : string) :
  String.length (a ++ b) = (String.length a + String.length b)%nat.
Proof.
  induction a as [|c a IH]; [by rewrite append_nil|].
  rewrite append_cons. simpl. by rewrite IH.
Qed.

Lemma parseLoop_cons (key : string) (ch : ascii) (rest : string) (i : nat)
    (parsed : list string) (n start : nat) :
  parseLoop key (String ch rest) i parsed n start =
    if Ascii.eqb ch "/"
    then
      if (2 <=? n)%nat then inl (Invalid (invalidKey key))
      else if (n <? 2)%nat
           then parseLoop key rest (S i) (<[n := sliceOf key start i]> parsed) (S n) (S i)
           else inl IndexPanic
    else parseLoop key rest (S i) parsed n start.
Proof. reflexivity. Qed.

(** The loop runs through a stretch without a slash. *)
Lemma parseLoop_noSlash (key seg rest : string) (i : nat) (parsed : list string)
    (n start : nat) :
  noSlash seg = true ->
  parseLoop key (seg ++ rest) i parsed n start
  = parseLoop key rest (i + String.length seg) parsed n start.
Proof.
  revert i. induction seg as [|c seg IH]; intros i Hseg.
  - rewrite append_nil. simpl. by rewrite Nat.add_0_r.
  - rewrite noSlash_cons in Hseg. apply andb_true_iff in Hseg as [Hc Hseg].
    rewrite append_cons, parseLoop_cons.
    apply negb_true_iff in Hc. rewrite Hc, IH by done.
    simpl. f_equal. lia.
Qed.

(** After two slashes the loop can only fail or run to the end. *)
Lemma parseLoop_full (key rest : string) (i : nat) (parsed : list string) (n start : nat) :
  (2 <= n)%nat ->
  parseLoop key rest i parsed n start = inl (Invalid (invalidKey key)) \/
  parseLoop key rest i parsed n start = inr (parsed, n, start).
Proof.
  intros Hn. revert i. induction rest as [|c rest IH]; intros i; [by right|].
  rewrite parseLoop_cons. destruct (Ascii.eqb c "/"); [|apply IH].
  left. by destruct (Nat.leb_spec 2 n); [|lia].
Qed.

(** A string has no slash, or a first one. *)
Lemma first_slash (s : string) :
  noSlash s = true \/
  exists a b, s = (a ++ "/" ++ b)%string /\ noSlash a = true.
Proof.
  induction s as [|c s IH]; [by left|].
  destruct (Ascii.eqb c "/") eqn:Hc.
  - right. apply Ascii.eqb_eq in Hc as ->. by exists "", s.
  - destruct IH as [Hs|(a & b & -> & Ha)].
    + left. by rewrite noSlash_cons, Hc, Hs.
    + right. exists (String c a), b. split; [by rewrite append_cons|].
      by rewrite noSlash_cons, Hc, Ha.
Qed.

Lemma noSlash_app (a b : string) : noSlash (a ++ b) = noSlash a && noSlash b.
Proof. apply allChars_app. Qed.

(** The round trip. *)
Lemma ParseRepoKey_Format (owner name : string) :
  noSlash owner = true -> noSlash name = true ->
  ParseRepoKey (FormatRepoKey owner name) = Parsed owner name.
Proof.
  intros Howner Hname. unfold ParseRepoKey, FormatRepoKey.
  set (key := (owner ++ "/" ++ name)%string).
  assert (Hloop : parseLoop key key 0 [""; ""] 0 0 =
                  inr ([owner; ""], 1%nat, S (String.length owner))).
  { unfold key at 2. rewrite parseLoop_noSlash by done.
    rewrite append_cons, append_nil, parseLoop_cons. simpl Ascii.eqb. cbv iota.
    simpl Nat.leb. cbv iota. simpl Nat.ltb. cbv iota.
    rewrite <- (append_nil_r name) at 1. rewrite parseLoop_noSlash by done.
    simpl parseLoop. f_equal. f_equal. f_equal.
    unfold sliceOf, key. simpl. rewrite Nat.sub_0_r. by rewrite substring_prefix. }
  rewrite Hloop. simpl. f_equal.
  unfold sliceOf, key. rewrite length_append, append_cons, append_nil. simpl String.length.
  replace (String.length owner + S (String.length name) - S (String.length owner))%nat
    with (String.length name) by lia.
  replace (S (String.length owner)) with (String.length owner + 1)%nat by lia.
  rewrite substring_skip. simpl.
  rewrite <- (append_nil_r name) at 2. apply substring_prefix.
Qed.

(** What [ParseRepoKey] returns, by the number of slashes of the key. *)
Lemma ParseRepoKey_cases (key : string) :
  (exists owner name,
     key = FormatRepoKey owner name /\ noSlash owner = true /\ noSlash name = true /\
     ParseRepoKey key = Parsed owner name) \/
  ((forall owner name, key = FormatRepoKey owner name ->
      noSlash owner && noSlash name = false) /\
   ParseRepoKey key = Invalid (invalidKey key)).
Proof.
  destruct (first_slash key) as [Hnone|(a & b & Hkey & Ha)].
  - right. split.
    + intros owner name ->. unfold FormatRepoKey in Hnone.
      rewrite !noSlash_app in Hnone.
      change (noSlash "/") with false in Hnone.
      by rewrite andb_false_r in Hnone.
    + unfold ParseRepoKey. rewrite <- (append_nil_r key) at 2.
      rewrite parseLoop_noSlash by done. reflexivity.
  - destruct (first_slash b) as [Hb|(b1 & b2 & Hb & Hb1)].
    + left. exists a, b. repeat split; try done. rewrite Hkey.
      by apply ParseRepoKey_Format.
    + right. split.
      * intros owner name Hform. apply andb_false_iff.
        destruct (noSlash owner) eqn:Howner; [right|by left].
        destruct (noSlash name) eqn:Hname; [|done].
        assert (Hparse : ParseRepoKey key = Parsed owner name)
          by (rewrite Hform; by apply ParseRepoKey_Format).
        exfalso. revert Hparse. unfold ParseRepoKey.
        rewrite Hkey at 2. rewrite parseLoop_noSlash by done.
        rewrite append_cons, append_nil, parseLoop_cons. simpl Ascii.eqb. cbv iota.
        simpl Nat.leb. cbv iota. simpl Nat.ltb. cbv iota.
        rewrite Hb, parseLoop_noSlash by done.
        rewrite append_cons, append_nil, parseLoop_cons. simpl Ascii.eqb. cbv iota.
        simpl Nat.leb. cbv iota. simpl Nat.ltb. cbv iota.
        match goal with |- context [parseLoop ?k ?r ?i ?p ?n ?s] =>
          destruct (parseLoop_full k r i p n s) as [-> | ->]; [lia|done|done] end.
      * unfold ParseRepoKey.
        rewrite Hkey at 2. rewrite parseLoop_noSlash by done.
        rewrite append_cons, append_nil, parseLoop_cons. simpl Ascii.eqb. cbv iota.
        simpl Nat.leb. cbv iota. simpl Nat.ltb. cbv iota.
        rewrite Hb, parseLoop_noSlash by done.
        rewrite append_cons, append_nil, parseLoop_cons. simpl Ascii.eqb. cbv iota.
        simpl Nat.leb. cbv iota. simpl Nat.ltb. cbv iota.
        match goal with |- context [parseLoop ?k ?r ?i ?p ?n ?s] =>
          destruct (parseLoop_full k r i p n s) as [-> | ->]; [lia|done|done] end.
Qed.

(** X19: [ParseRepoKey] inverts [FormatRepoKey]. It returns an owner
    and a name exactly for the keys that [FormatRepoKey] writes from an
    owner and a name without a slash, and then it returns those two;
    for every other key (no slash, or more than one) it returns the
    error that quotes the key. It never indexes its array out of
    range. The key of a repo is the key [FormatRepoKey] writes. *)
Theorem ParseRepoKey_inverts_FormatRepoKey (key : string) :
  (forall owner name,
     ParseRepoKey key = Parsed owner name <->
     key = FormatRepoKey owner name /\ noSlash owner = true /\ noSlash name = true) /\
  ((exists owner name, ParseRepoKey key = Parsed owner name) \/
   ParseRepoKey key = Invalid ("invalid repo key format: " ++ key)) /\
  (forall repo, RepoMetadata_Key repo = FormatRepoKey (Owner repo) (Name repo)).
Proof.
  split; [|split; [|done]].
  - intros owner name. split.
    + intros Hparse.
      destruct (ParseRepoKey_cases key) as [(o & n & Hkey & Ho & Hn & Hp)|[_ Hp]].
      * rewrite Hp in Hparse. by injection Hparse as <- <-.
      * by rewrite Hp in Hparse.
    + intros (-> & Ho & Hn). by apply ParseRepoKey_Format.
  - destruct (ParseRepoKey_cases key) as [(o & n & _ & _ & _ & Hp)|[_ Hp]].
    + left. by exists o, n.
    + by right.
Qed.

End RepoKeys.
(** ** Errors and configuration *)

Section ErrorsAndConfig.
Import models errors config slices calculator.

(** X20: no error is both critical and retryable. The errors of
    configuration, data fetch and file system are critical; those of
    rate limit, network and LLM are retryable; the error of a single
    repo fetch is neither. Adding context changes neither answer. *)
Theorem critical_errors_are_not_retried (e : AppError) :
  IsCritical e && IsRetryable e = false /\
  (forall message err, IsCritical (NewConfigError message err) = true) /\
  (forall message err, IsCritical (NewDataFetchError message err) = true) /\
  (forall message path err, IsCritical (NewFilesystemError message path err) = true) /\
  (forall resetTime, IsRetryable (NewRateLimitError resetTime) = true) /\
  (forall message err, IsRetryable (NewNetworkError message err) = true) /\
  (forall message err, IsRetryable (NewLLMError message err) = true) /\
  (forall owner repo err,
     IsCritical (NewRepoFetchError owner repo err) = false /\
     IsRetryable (NewRepoFetchError owner repo err) = false) /\
  (forall key value,
     IsCritical (WithContext e key value) = IsCritical e /\
     IsRetryable (WithContext e key value) = IsRetryable e).
Proof.
  repeat split; try done.
  unfold IsCritical, IsRetryable. by destruct (Type_ e).
Qed.

(** What [Validate] asks of a configuration. *)
Definition validConfig (c : Config) : Prop :=
  cfg_Languages c <> [] /\
  Include (cfg_Keywords c) <> [] /\
  Categories (cfg_Keywords c) <> ∅ /\
  0 < WindowDays (cfg_Settings c) /\
  0 < ShortWindowDays (cfg_Settings c) /\
  ShortWindowDays (cfg_Settings c) <= WindowDays (cfg_Settings c) /\
  0 < TopN (cfg_Settings c) /\
  ReportLanguage (cfg_Settings c) <> "" /\
  FilterDomain (cfg_Settings c) <> "" /\
  0 <= NewRepoThresholdDays (cfg_Settings c) /\
  0 <= DarkHorseAccelThreshold (cfg_Settings c) /\
  0 <= CacheTTLHours (cfg_Settings c) /\
  BaseURL (cfg_LLM c) <> "" /\
  Model (cfg_LLM c) <> "" /\
  0 < TimeoutSeconds (cfg_LLM c) /\
  0 <= MaxRetries (cfg_LLM c) /\
  RoleDescription (cfg_LLM c) <> "" /\
  OutputTone (cfg_LLM c) <> "" /\
  fltb (Temperature (cfg_LLM c)) (float64.ofInt 0) = false /\
  fltb (float64.ofInt 2) (Temperature (cfg_LLM c)) = false.

Lemma check_nil (cond : bool) (message : string) (errors : list string) :
  check cond message errors = [] <-> cond = false /\ errors = [].
Proof.
  unfold check. destruct cond.
  - split; [|by intros [? _]]. intros Hnil. by destruct errors.
  - split; [done|by intros [_ ?]].
Qed.

Lemma length_zero {A} (l : list A) : (length l =? 0)%nat = false <-> l <> [].
Proof. destruct l; simpl; split; done. Qed.

Lemma size_zero (m : gmap string (list string)) : (size m =? 0)%nat = false <-> m <> ∅.
Proof.
  rewrite Nat.eqb_neq. split; intros Hm Hempty; apply Hm.
  - by rewrite Hempty.
  - by apply map_size_empty_inv.
Qed.

Lemma eqb_empty (s : string) : String.eqb s "" = false <-> s <> "".
Proof. by rewrite String.eqb_neq. Qed.

Lemma Validate_nil (c : Config) : Validate c = [] <-> validConfig c.
Proof.
  unfold Validate, validConfig. cbv zeta.
  rewrite !check_nil, orb_false_iff, !length_zero, size_zero, !eqb_empty.
  rewrite !Z.leb_gt, !Z.ltb_ge, Z.gtb_ltb, Z.ltb_ge.
  intuition.
Qed.

(** X21: [Validate] returns no message exactly for the
    configurations that meet every requirement it checks, and then
    [RankAndSelectTop], called with the [top_n] of the settings, does
    not panic, whatever the slice. *)
Theorem Validate_accepts_exactly (c : Config) :
  (Validate c = [] <-> validConfig c) /\
  (Validate c = [] ->
   forall sc (h : Heap ScoredRepo) s,
     (RankAndSelectTop sc h s (TopN (cfg_Settings c))).1 <> None).
Proof.
  split; [apply Validate_nil|].
  intros Hvalid sc h s. apply RankAndSelectTop_no_panic.
  apply Validate_nil in Hvalid. unfold validConfig in Hvalid. lia.
Qed.

Lemma detectProvider_named (baseURL : string) : detectProvider baseURL <> "".
Proof.
  unfold detectProvider. destruct (String.eqb baseURL ""); [done|].
  by destruct (strings.Contains baseURL _).
Qed.

Lemma applySettingsDefaults_filled (s : Settings) :
  CacheTTLHours (applySettingsDefaults s) <> 0 /\
  NewRepoThresholdDays (applySettingsDefaults s) <> 0 /\
  DarkHorseAccelThreshold (applySettingsDefaults s) <> 0 /\
  ReportIDFormat (applySettingsDefaults s) <> "".
Proof.
  simpl. repeat split.
  - by destruct (Z.eqb_spec (CacheTTLHours s) 0).
  - by destruct (Z.eqb_spec (NewRepoThresholdDays s) 0).
  - by destruct (Z.eqb_spec (DarkHorseAccelThreshold s) 0).
  - by destruct (String.eqb_spec (ReportIDFormat s) "").
Qed.

Lemma applyLLMDefaults_filled (l : LLMConfig) :
  TimeoutSeconds (applyLLMDefaults l) <> 0 /\
  MaxRetries (applyLLMDefaults l) <> 0 /\
  OutputTone (applyLLMDefaults l) <> "" /\
  Provider (applyLLMDefaults l) <> "" /\
  feqb (Temperature (applyLLMDefaults l)) (float64.ofInt 0) = false.
Proof.
  simpl. repeat split.
  - by destruct (Z.eqb_spec (TimeoutSeconds l) 0).
  - by destruct (Z.eqb_spec (MaxRetries l) 0).
  - by destruct (String.eqb_spec (OutputTone l) "").
  - destruct (String.eqb_spec (Provider l) ""); [apply detectProvider_named|done].
  - destruct (feqb (Temperature l) _) eqn:Hzero; [by vm_compute|exact Hzero].
Qed.

Lemma applySettingsDefaults_idempotent (s : Settings) :
  applySettingsDefaults (applySettingsDefaults s) = applySettingsDefaults s.
Proof.
  destruct (applySettingsDefaults_filled s) as (Hc & Hn & Hd & Hr).
  unfold applySettingsDefaults at 1.
  apply Z.eqb_neq in Hc, Hn, Hd. apply String.eqb_neq in Hr.
  rewrite Hc, Hn, Hd, Hr. by destruct s.
Qed.

Lemma applyLLMDefaults_idempotent (l : LLMConfig) :
  applyLLMDefaults (applyLLMDefaults l) = applyLLMDefaults l.
Proof.
  destruct (applyLLMDefaults_filled l) as (Ht & Hm & Ho & Hp & Htemp).
  unfold applyLLMDefaults at 1.
  apply Z.eqb_neq in Ht, Hm. apply String.eqb_neq in Ho, Hp.
  rewrite Ht, Hm, Ho, Hp, Htemp. by destruct l.
Qed.

(** X22: [Load] reads languages.json, keywords.json, settings.json
    and llm.json in this order and fails at the first that cannot be
    read or decoded, with a critical error of type CONFIG that names
    the file and wraps the error of the read; it succeeds exactly when
    the four files decode, and then returns the languages and keywords
    as decoded, and the settings and the LLM configuration with their
    defaults applied. In the configuration it returns every optional
    field is filled: cache hours, new-repo days, dark-horse threshold,
    report id format, LLM timeout, retries, tone, provider and
    temperature are none of them at their zero value, and applying the
    defaults again changes nothing. *)
Theorem Load_fills_optional_fields (files : ConfigFiles) :
  match Load files with
  | Err e => Type_ e = ErrorTypeConfig /\ IsCritical e = true
  | Ok c =>
      CacheTTLHours (cfg_Settings c) <> 0 /\
      NewRepoThresholdDays (cfg_Settings c) <> 0 /\
      DarkHorseAccelThreshold (cfg_Settings c) <> 0 /\
      ReportIDFormat (cfg_Settings c) <> "" /\
      TimeoutSeconds (cfg_LLM c) <> 0 /\
      MaxRetries (cfg_LLM c) <> 0 /\
      OutputTone (cfg_LLM c) <> "" /\
      Provider (cfg_LLM c) <> "" /\
      feqb (Temperature (cfg_LLM c)) (float64.ofInt 0) = false /\
      applySettingsDefaults (cfg_Settings c) = cfg_Settings c /\
      applyLLMDefaults (cfg_LLM c) = cfg_LLM c
  end /\
  Load files =
    match languagesFile files, keywordsFile files, settingsFile files, llmFile files with
    | inr err, _, _, _ =>
        Err (NewConfigError "failed to load languages.json" (Some err))
    | inl _, inr err, _, _ =>
        Err (NewConfigError "failed to load keywords.json" (Some err))
    | inl _, inl _, inr err, _ =>
        Err (NewConfigError "failed to load settings.json" (Some err))
    | inl _, inl _, inl _, inr err =>
        Err (NewConfigError "failed to load llm.json" (Some err))
    | inl languages, inl keywords, inl settings, inl llm =>
        Ok {| cfg_Languages := languages;
              cfg_Keywords := keywords;
              cfg_Settings := applySettingsDefaults settings;
              cfg_LLM := applyLLMDefaults llm |}
    end /\
  ((exists c, Load files = Ok c) <->
   (exists languages keywords settings llm,
      languagesFile files = inl languages /\ keywordsFile files = inl keywords /\
      settingsFile files = inl settings /\ llmFile files = inl llm)) /\
  (forall e, Load files = Err e ->
     exists file err,
       e = NewConfigError ("failed to load " ++ file ++ ".json") (Some err) /\
       Error e = ("[CONFIG] failed to load " ++ file ++ ".json: " ++ err)%string /\
       (file = "languages" /\ languagesFile files = inr err \/
        file = "keywords" /\ keywordsFile files = inr err \/
        file = "settings" /\ settingsFile files = inr err \/
        file = "llm" /\ llmFile files = inr err)).
Proof.
  unfold Load.
  destruct (languagesFile files) as [languages|err].
  2: { split; [done|]. split; [done|]. split.
       - split; [by intros [? ?]|]. by intros (? & ? & ? & ? & ? & _).
       - intros e [= <-]. exists "languages", err. split; [done|]. split; [done|]. by left. }
  destruct (keywordsFile files) as [keywords|err].
  2: { split; [done|]. split; [done|]. split.
       - split; [by intros [? ?]|]. by intros (? & ? & ? & ? & _ & ? & _).
       - intros e [= <-]. exists "keywords", err. split; [done|]. split; [done|].
         right. by left. }
  destruct (settingsFile files) as [settings|err].
  2: { split; [done|]. split; [done|]. split.
       - split; [by intros [? ?]|]. by intros (? & ? & ? & ? & _ & _ & ? & _).
       - intros e [= <-]. exists "settings", err. split; [done|]. split; [done|].
         right. right. by left. }
  destruct (llmFile files) as [llm|err].
  2: { split; [done|]. split; [done|]. split.
       - split; [by intros [? ?]|]. by intros (? & ? & ? & ? & _ & _ & _ & ?).
       - intros e [= <-]. exists "llm", err. split; [done|]. split; [done|].
         right. right. by right. }
  cbv zeta. cbn [cfg_Settings cfg_LLM].
  destruct (applySettingsDefaults_filled settings) as (Hc & Hn & Hd & Hr).
  destruct (applyLLMDefaults_filled llm) as (Ht & Hm & Ho & Hp & Htemp).
  split; [|split; [done|split]].
  - split; [done|]. split; [done|]. split; [done|]. split; [done|].
    split; [done|]. split; [done|]. split; [done|]. split; [done|]. split; [done|].
    split; [apply applySettingsDefaults_idempotent|apply applyLLMDefaults_idempotent].
  - split; [|by eexists]. intros _. by exists languages, keywords, settings, llm.
  - by intros e.
Qed.

Lemma check_sublist (cond cond' : bool) (message : string) (errors errors' : list string) :
  (cond' = true -> cond = true) ->
  errors' `sublist_of` errors ->
  check cond' message errors' `sublist_of` check cond message errors.
Proof.
  intros Himpl Hsub. unfold check. destruct cond'.
  - rewrite Himpl by done. by apply sublist_app.
  - destruct cond; [|done]. by apply sublist_inserts_r.
Qed.

(** X23: the defaults never add a complaint. For files that decode,
    the messages [Validate] gives for the configuration [Load] returns
    are among the messages it gives for the decoded values as they
    are, in the same order; so a configuration that is valid as
    written is valid as loaded. *)
Theorem defaults_add_no_validation_error (languages : list string)
    (keywords : KeywordConfig) (settings : Settings) (llm : LLMConfig) :
  exists c,
    Load {| languagesFile := inl languages; keywordsFile := inl keywords;
            settingsFile := inl settings; llmFile := inl llm |} = Ok c /\
    Validate c `sublist_of`
      Validate {| cfg_Languages := languages; cfg_Keywords := keywords;
                  cfg_Settings := settings; cfg_LLM := llm |} /\
    (Validate {| cfg_Languages := languages; cfg_Keywords := keywords;
                 cfg_Settings := settings; cfg_LLM := llm |} = [] ->
     Validate c = []).
Proof.
  eexists. split; [reflexivity|].
  assert (Hsub : Validate {| cfg_Languages := languages; cfg_Keywords := keywords;
                             cfg_Settings := applySettingsDefaults settings;
                             cfg_LLM := applyLLMDefaults llm |}
                 `sublist_of`
                 Validate {| cfg_Languages := languages; cfg_Keywords := keywords;
                             cfg_Settings := settings; cfg_LLM := llm |}).
  { unfold Validate. cbv zeta. cbn [cfg_Languages cfg_Keywords cfg_Settings cfg_LLM].
    repeat apply check_sublist; try done; simpl.
    - destruct (feqb (Temperature llm) _); [by vm_compute|done].
    - destruct (String.eqb (OutputTone llm) "") eqn:Htone; [done|by rewrite Htone].
    - by destruct (MaxRetries llm =? 0).
    - by destruct (TimeoutSeconds llm =? 0).
    - by destruct (CacheTTLHours settings =? 0).
    - by destruct (DarkHorseAccelThreshold settings =? 0).
    - by destruct (NewRepoThresholdDays settings =? 0). }
  split; [exact Hsub|].
  intros Hnil. rewrite Hnil in Hsub. by apply sublist_nil_r in Hsub.
Qed.

End ErrorsAndConfig.
(** ** The fetcher *)

Section FetcherExtras.
Import models errors fetcher.

Variable f : TrendingFetcher.

(** The loop of [deduplicateRepos]. *)
Definition dedupStep (state : gmap string bool * list RepoMetadata) (repo : RepoMetadata)
    : gmap string bool * list RepoMetadata :=
  let '(seen, unique) := state in
  let key := RepoMetadata_Key repo in
  if negb (default false (seen !! key))
  then (<[key := true]> seen, (unique ++ [repo])%list)
  else (seen, unique).

Lemma deduplicateRepos_fold (repos : list RepoMetadata) :
  deduplicateRepos f repos = (fold_left dedupStep repos (∅, [])).2.
Proof.
  unfold deduplicateRepos. f_equal. apply fold_left_ext. by intros [seen unique] repo.
Qed.

(** The map [seen] holds the keys of [unique]. *)
Lemma dedup_seen (repos : list RepoMetadata) (k : string) :
  default false ((fold_left dedupStep repos (∅, [])).1 !! k)
  = bool_decide (k ∈ RepoMetadata_Key <$> (fold_left dedupStep repos (∅, [])).2).
Proof.
  induction repos as [|repo repos IH] using rev_ind.
  - simpl. by rewrite lookup_empty.
  - rewrite fold_left_app. simpl fold_left.
    destruct (fold_left dedupStep repos (∅, [])) as [seen unique]. simpl in IH.
    unfold dedupStep.
    destruct (default false (seen !! RepoMetadata_Key repo)) eqn:Hseen; simpl; [done|].
    rewrite fmap_app. simpl.
    destruct (decide (RepoMetadata_Key repo = k)) as [->|Hne].
    + rewrite lookup_insert_eq. simpl.
      symmetry. apply bool_decide_eq_true. rewrite elem_of_app. right. by left.
    + rewrite lookup_insert_ne by done. rewrite IH. apply bool_decide_ext.
      rewrite elem_of_app, list_elem_of_singleton.
      split; [by left|]. by intros [?|?].
Qed.

Lemma deduplicateRepos_snoc (repos : list RepoMetadata) (repo : RepoMetadata) :
  deduplicateRepos f (repos ++ [repo]) =
    if decide (RepoMetadata_Key repo ∈ RepoMetadata_Key <$> deduplicateRepos f repos)
    then deduplicateRepos f repos
    else (deduplicateRepos f repos ++ [repo])%list.
Proof.
  rewrite !deduplicateRepos_fold, fold_left_app. simpl fold_left.
  pose proof (dedup_seen repos (RepoMetadata_Key repo)) as Hseen.
  destruct (fold_left dedupStep repos (∅, [])) as [seen unique]. simpl in *.
  rewrite Hseen. case_decide as Hin.
  - by rewrite bool_decide_eq_true_2.
  - by rewrite bool_decide_eq_false_2.
Qed.

Lemma deduplicateRepos_nil : deduplicateRepos f [] = [].
Proof. reflexivity. Qed.

Lemma deduplicateRepos_keys (repos : list RepoMetadata) (k : string) :
  k ∈ RepoMetadata_Key <$> deduplicateRepos f repos <-> k ∈ RepoMetadata_Key <$> repos.
Proof.
  revert k. induction repos as [|repo repos IH] using rev_ind; intros k; [done|].
  rewrite deduplicateRepos_snoc, fmap_app, elem_of_app. simpl.
  rewrite list_elem_of_singleton. case_decide as Hin.
  - rewrite IH. split; [by left|]. intros [?| ->]; [done|]. by apply IH.
  - rewrite fmap_app, elem_of_app, IH. simpl. by rewrite list_elem_of_singleton.
Qed.

Lemma deduplicateRepos_NoDup (repos : list RepoMetadata) :
  NoDup (RepoMetadata_Key <$> deduplicateRepos f repos).
Proof.
  induction repos as [|repo repos IH] using rev_ind; [constructor|].
  rewrite deduplicateRepos_snoc. case_decide as Hin; [done|].
  rewrite fmap_app. apply NoDup_app. split; [done|]. split.
  - intros k Hk ->%list_elem_of_singleton. done.
  - apply NoDup_singleton.
Qed.

Lemma deduplicateRepos_sublist (repos : list RepoMetadata) :
  deduplicateRepos f repos `sublist_of` repos.
Proof.
  induction repos as [|repo repos IH] using rev_ind; [done|].
  rewrite deduplicateRepos_snoc. case_decide.
  - by apply sublist_inserts_r.
  - by apply sublist_app.
Qed.

Lemma deduplicateRepos_distinct (repos : list RepoMetadata) :
  NoDup (RepoMetadata_Key <$> repos) -> deduplicateRepos f repos = repos.
Proof.
  induction repos as [|repo repos IH] using rev_ind; [done|].
  rewrite fmap_app. intros (Hnd & Hfresh & _)%NoDup_app.
  rewrite deduplicateRepos_snoc, IH by done.
  rewrite decide_False; [done|]. intros Hin. apply (Hfresh _ Hin). by left.
Qed.

Lemma deduplicateRepos_first (repos : list RepoMetadata) (k : string) :
  filter (fun repo => RepoMetadata_Key repo = k) (deduplicateRepos f repos)
  = take 1 (filter (fun repo => RepoMetadata_Key repo = k) repos).
Proof.
  induction repos as [|repo repos IH] using rev_ind; [done|].
  rewrite deduplicateRepos_snoc, (filter_app _ repos).
  rewrite filter_cons, filter_nil.
  case_decide as Hin.
  - rewrite IH. rewrite deduplicateRepos_keys in Hin.
    destruct (decide (RepoMetadata_Key repo = k)) as [Hk|Hk]; [|by rewrite app_nil_r].
    rewrite Hk in Hin. apply list_elem_of_fmap in Hin as (first & Hkey & Hfirst).
    assert (Hmem : first ∈ filter (fun repo => RepoMetadata_Key repo = k) repos)
      by (by apply list_elem_of_filter).
    destruct (filter _ repos); [by apply elem_of_nil in Hmem|done].
  - rewrite filter_app, filter_cons, filter_nil, IH.
    destruct (decide (RepoMetadata_Key repo = k)) as [Hk|Hk]; [|by rewrite !app_nil_r].
    rewrite deduplicateRepos_keys in Hin.
    assert (Hnone : filter (fun repo => RepoMetadata_Key repo = k) repos = []).
    { destruct (filter _ repos) as [|x rest] eqn:Hfilter; [done|].
      assert (Hx : x ∈ filter (fun repo => RepoMetadata_Key repo = k) repos)
        by (rewrite Hfilter; by left).
      apply list_elem_of_filter in Hx as [Hxk Hx].
      exfalso. apply Hin. rewrite Hk, <- Hxk. apply list_elem_of_fmap. by exists x. }
    by rewrite Hnone.
Qed.

(** X24: [deduplicateRepos] keeps, of the repos of each key, the
    first one and no other, in the order of the input: the result has
    pairwise distinct keys, the same keys as the input, and is the
    input itself when its keys are distinct already, so running it
    twice changes nothing. *)
Theorem deduplicateRepos_keeps_first (repos : list RepoMetadata) :
  NoDup (RepoMetadata_Key <$> deduplicateRepos f repos) /\
  deduplicateRepos f repos `sublist_of` repos /\
  (forall k,
     filter (fun repo => RepoMetadata_Key repo = k) (deduplicateRepos f repos)
     = take 1 (filter (fun repo => RepoMetadata_Key repo = k) repos)) /\
  (forall k, k ∈ RepoMetadata_Key <$> deduplicateRepos f repos <->
             k ∈ RepoMetadata_Key <$> repos) /\
  (NoDup (RepoMetadata_Key <$> repos) -> deduplicateRepos f repos = repos) /\
  deduplicateRepos f (deduplicateRepos f repos) = deduplicateRepos f repos.
Proof.
  split; [apply deduplicateRepos_NoDup|].
  split; [apply deduplicateRepos_sublist|].
  split; [apply deduplicateRepos_first|].
  split; [apply deduplicateRepos_keys|].
  split; [apply deduplicateRepos_distinct|].
  apply deduplicateRepos_distinct, deduplicateRepos_NoDup.
Qed.

Variable fetchTrendingForLanguage : nat -> string -> result (list RepoMetadata).

(** A repo that some call for a language returned. *)
Definition fetched (langs : list string) (repo : RepoMetadata) : Prop :=
  exists i lang repos,
    langs !! i = Some lang /\
    fetchTrendingForLanguage i lang = Ok repos /\
    repo ∈ repos.

Lemma fetch_state (langs : list string) :
  exists allRepos lastErr,
    fold_left (fetchOne fetchTrendingForLanguage) langs (0%nat, [], None)
    = (length langs, allRepos, lastErr) /\
    (forall repo, repo ∈ allRepos <-> fetched langs repo).
Proof.
  induction langs as [|lang langs IH] using rev_ind.
  - exists [], None. split; [done|]. intros repo. split; [by intros ?%elem_of_nil|].
    by intros (i & l & repos & Hl & _).
  - destruct IH as (allRepos & lastErr & Hfold & Hall).
    rewrite fold_left_app, Hfold. simpl. rewrite length_app. simpl.
    replace (length langs + 1)%nat with (S (length langs)) by lia.
    assert (Hsnoc : forall repo, fetched (langs ++ [lang]) repo <->
              fetched langs repo \/
              exists repos, fetchTrendingForLanguage (length langs) lang = Ok repos /\
                            repo ∈ repos).
    { intros repo. unfold fetched. split.
      - intros (i & l & repos & Hl & Hfetch & Hin).
        apply lookup_app_Some in Hl as [Hl|[Hge Hl]].
        + left. by exists i, l, repos.
        + apply list_lookup_singleton_Some in Hl as [Hi ->].
          right. exists repos. replace (length langs) with i by lia. done.
      - intros [(i & l & repos & Hl & Hfetch & Hin)|(repos & Hfetch & Hin)].
        + exists i, l, repos. split; [|done]. by apply lookup_app_l_Some.
        + exists (length langs), lang, repos. split; [|done].
          rewrite lookup_app_r by lia. by rewrite Nat.sub_diag. }
    destruct (fetchTrendingForLanguage (length langs) lang) as [repos|err] eqn:Hfetch.
    + exists (allRepos ++ repos)%list, lastErr. split; [done|].
      intros repo. rewrite elem_of_app, Hsnoc, Hall.
      split; (intros [?|?]; [by left|right]).
      * by exists repos.
      * match goal with H : exists _, _ |- _ => by destruct H as (? & [= <-] & ?) end.
    + exists allRepos, (Some err). split; [done|].
      intros repo. rewrite Hsnoc, Hall. split; [by left|].
      by intros [?|(? & ? & _)].
Qed.

Lemma FetchTrending_Ok_distinct (repos : list RepoMetadata) :
  FetchTrending f fetchTrendingForLanguage = Ok repos ->
  NoDup (RepoMetadata_Key <$> repos).
Proof.
  unfold FetchTrending.
  destruct (fold_left _ (languages f) _) as [[n allRepos] lastErr].
  destruct (length allRepos =? 0)%nat; [by destruct lastErr|].
  intros [= <-]. apply deduplicateRepos_NoDup.
Qed.

(** X25: [FetchTrending] fails, with a critical error of type
    DATA_FETCH, only when no call for a language returned a repo; a
    language that fails does not fail the others. When it succeeds the
    list is not empty, its keys are pairwise distinct, every repo of it
    was returned for some language, and every key returned for some
    language is in it. *)
Theorem FetchTrending_distinct_or_error :
  match FetchTrending f fetchTrendingForLanguage with
  | Ok repos =>
      repos <> [] /\
      NoDup (RepoMetadata_Key <$> repos) /\
      (forall repo, repo ∈ repos -> fetched (languages f) repo) /\
      (forall repo, fetched (languages f) repo ->
                    RepoMetadata_Key repo ∈ RepoMetadata_Key <$> repos)
  | Err e =>
      Type_ e = ErrorTypeDataFetch /\ IsCritical e = true /\
      (forall repo, ~ fetched (languages f) repo)
  end.
Proof.
  unfold FetchTrending.
  destruct (fetch_state (languages f)) as (allRepos & lastErr & -> & Hall).
  destruct allRepos as [|first rest]; simpl Nat.eqb; cbv iota.
  - assert (Hnone : forall repo, ~ fetched (languages f) repo).
    { intros repo Hrepo. apply Hall in Hrepo. by apply elem_of_nil in Hrepo. }
    by destruct lastErr.
  - split; [|split; [apply deduplicateRepos_NoDup|split]].
    + intros Hnil.
      assert (Hin : RepoMetadata_Key first
                    ∈ RepoMetadata_Key <$> deduplicateRepos f (first :: rest)).
      { apply deduplicateRepos_keys. rewrite fmap_cons. by left. }
      rewrite Hnil in Hin. by apply elem_of_nil in Hin.
    + intros repo Hin. apply Hall.
      apply (elem_of_sublist _ _ _ Hin), deduplicateRepos_sublist.
    + intros repo Hrepo. apply deduplicateRepos_keys, list_elem_of_fmap.
      exists repo. split; [done|]. by apply Hall.
Qed.

Definition notDigit (c : ascii) : bool := negb (isDigit c).
Definition outside (c : ascii) : bool := negb (isDigitOrComma c).

(** [s] is empty or starts with a character that is neither a digit
    nor a comma. *)
Definition startsOutside (s : string) : bool :=
  match s with
  | EmptyString => true
  | String c _ => outside c
  end.

Lemma allChars_cons p (c : ascii) (s : string) :
  allChars p (String c s) = p c && allChars p s.
Proof. reflexivity. Qed.

Lemma takeRun_chars p (s : string) : allChars p s = true -> allChars p (takeRun s) = true.
Proof.
  induction s as [|c s IH]; [done|]. rewrite allChars_cons.
  intros [Hc Hs]%andb_true_iff. simpl. destruct (isDigitOrComma c); [|done].
  by rewrite allChars_cons, Hc, IH.
Qed.

Lemma takeRun_class (s : string) : allChars isDigitOrComma (takeRun s) = true.
Proof.
  induction s as [|c s IH]; [done|]. simpl.
  destruct (isDigitOrComma c) eqn:Hc; [|done]. by rewrite allChars_cons, Hc, IH.
Qed.

Lemma FindString_chars p (s : string) :
  allChars p s = true -> allChars p (FindString s) = true.
Proof.
  induction s as [|c s IH]; [done|]. rewrite allChars_cons.
  intros [Hc Hs]%andb_true_iff. simpl. destruct (isDigitOrComma c); [|by apply IH].
  by rewrite allChars_cons, Hc, takeRun_chars.
Qed.

Lemma FindString_class (s : string) : allChars isDigitOrComma (FindString s) = true.
Proof.
  induction s as [|c s IH]; [done|]. simpl.
  destruct (isDigitOrComma c) eqn:Hc; [|done].
  by rewrite allChars_cons, Hc, takeRun_class.
Qed.

Lemma removeCommas_chars p (s : string) :
  allChars p s = true -> allChars p (removeCommas s) = true.
Proof.
  induction s as [|c s IH]; [done|]. rewrite allChars_cons.
  intros [Hc Hs]%andb_true_iff. simpl. destruct (Ascii.eqb c ","); [by apply IH|].
  by rewrite allChars_cons, Hc, IH.
Qed.

Lemma removeCommas_digits (s : string) :
  allChars isDigitOrComma s = true -> allChars isDigit (removeCommas s) = true.
Proof.
  induction s as [|c s IH]; [done|]. rewrite allChars_cons.
  intros [Hc Hs]%andb_true_iff. simpl.
  destruct (Ascii.eqb c ",") eqn:Hcomma; [by apply IH|].
  unfold isDigitOrComma in Hc. rewrite Hcomma, orb_false_r in Hc.
  by rewrite allChars_cons, Hc, IH.
Qed.

Lemma isDigit_value (c : ascii) :
  isDigit c = true -> 0 <= Z.of_nat (nat_of_ascii c) - 48 <= 9.
Proof.
  by destruct c as [[] [] [] [] [] [] [] []]; vm_compute.
Qed.

Lemma digitsValue_nonneg (s : string) : allChars isDigit s = true -> 0 <= digitsValue s.
Proof.
  unfold digitsValue.
  assert (Hgen : forall acc, 0 <= acc -> allChars isDigit s = true ->
            0 <= fold_left (fun acc c => acc * 10 + (Z.of_nat (nat_of_ascii c) - 48))
                           (list_ascii_of_string s) acc).
  { induction s as [|c s IH]; intros a Ha Hs; [done|].
    rewrite allChars_cons in Hs. apply andb_true_iff in Hs as [Hc Hs].
    simpl. apply IH; [|done]. pose proof (isDigit_value c Hc). lia. }
  intros Hs. by apply Hgen.
Qed.

Lemma parseStars_bounds (text : string) : 0 <= parseStars f text <= GoInt.maxInt.
Proof.
  unfold parseStars, Atoi.
  destruct (String.eqb (FindString text) ""); [done|].
  destruct (String.eqb (removeCommas (FindString text)) ""); [done|].
  destruct (Z.gtb_spec (digitsValue (removeCommas (FindString text))) GoInt.maxInt);
    [done|].
  split; [|done]. apply digitsValue_nonneg, removeCommas_digits, FindString_class.
Qed.

Lemma parseStars_no_digit (text : string) :
  allChars notDigit text = true -> parseStars f text = 0.
Proof.
  intros Htext. unfold parseStars, Atoi.
  destruct (String.eqb (FindString text) ""); [done|].
  pose proof (removeCommas_digits _ (FindString_class text)) as Hdigits.
  pose proof (removeCommas_chars _ _ (FindString_chars _ _ Htext)) as Hnone.
  destruct (removeCommas (FindString text)) as [|c rest]; [done|].
  rewrite allChars_cons in Hdigits, Hnone. unfold notDigit in Hnone.
  apply andb_true_iff in Hdigits as [Hc _]. by rewrite Hc in Hnone.
Qed.

Lemma takeRun_app (run post : string) :
  allChars isDigitOrComma run = true -> startsOutside post = true ->
  takeRun (run ++ post) = run.
Proof.
  intros Hrun Hpost. induction run as [|c run IH].
  - rewrite append_nil. destruct post as [|c post]; [done|].
    simpl in *. unfold outside in Hpost. by destruct (isDigitOrComma c).
  - rewrite allChars_cons in Hrun. apply andb_true_iff in Hrun as [Hc Hrun].
    rewrite append_cons. simpl. by rewrite Hc, IH.
Qed.

Lemma FindString_first_run (pre run post : string) :
  allChars outside pre = true ->
  allChars isDigitOrComma run = true -> run <> "" ->
  startsOutside post = true ->
  FindString (pre ++ run ++ post) = run.
Proof.
  intros Hpre Hrun Hne Hpost. induction pre as [|c pre IH].
  - rewrite append_nil. destruct run as [|c run]; [done|].
    rewrite allChars_cons in Hrun. apply andb_true_iff in Hrun as [Hc Hrun].
    rewrite append_cons. simpl. by rewrite Hc, takeRun_app.
  - rewrite allChars_cons in Hpre. apply andb_true_iff in Hpre as [Hc Hpre].
    rewrite append_cons. simpl. unfold outside in Hc.
    destruct (isDigitOrComma c); [done|]. by apply IH.
Qed.

(** X26: [parseStars] never returns a negative number, nor one that
    [int] cannot hold; it returns 0 for a text without a digit; and it
    reads the first run of digits and commas only: what stands before
    and after that run changes nothing. *)
Theorem parseStars_reads_first_run (text : string) :
  0 <= parseStars f text <= GoInt.maxInt /\
  (allChars notDigit text = true -> parseStars f text = 0) /\
  (forall pre run post,
     text = (pre ++ run ++ post)%string ->
     allChars outside pre = true ->
     allChars isDigitOrComma run = true -> run <> "" ->
     startsOutside post = true ->
     parseStars f text = parseStars f run).
Proof.
  split; [apply parseStars_bounds|]. split; [apply parseStars_no_digit|].
  intros pre run post -> Hpre Hrun Hne Hpost. unfold parseStars.
  rewrite FindString_first_run by done.
  assert (Hself : FindString run = run).
  { pose proof (FindString_first_run "" run "" eq_refl Hrun Hne eq_refl) as Hfind.
    by rewrite append_nil, append_nil_r in Hfind. }
  by rewrite Hself.
Qed.

End FetcherExtras.
(** ** From the trending list to the history *)

Section PipelineExtras.
Import models errors config classifier slices calculator history fetcher.

Lemma Key_scoreRepo (repo : ClassifiedRepo) :
  Key (scoreRepo repo) = RepoMetadata_Key (Metadata repo).
Proof. reflexivity. Qed.

(** The keys of the scored repos are the keys of the trending repos
    that pass the filter, in their order. *)
Lemma scored_keys (c : Classifier) (sc : ScoreCalculator)
    (sched : nat -> list (string * list string)) (trending : list RepoMetadata) :
  Key <$> CalculateScores sc (Classify c sched trending)
  = RepoMetadata_Key <$> List.filter (passes c) trending.
Proof.
  rewrite CalculateScores_map, <- (Classify_Metadata c sched), <- !list_fmap_compose.
  done.
Qed.

Lemma List_filter_sublist {A} (p : A -> bool) (l : list A) : List.filter p l `sublist_of` l.
Proof.
  induction l as [|x l IH]; simpl; [done|].
  destruct (p x); [by apply sublist_skip|by apply sublist_cons].
Qed.

(** X27: the steps of a run, one after the other. With a
    configuration that [Validate] accepts, from a trending list that
    [FetchTrending] returned, [Classify], [CalculateScores] and
    [RankAndSelectTop] with the [top_n] of the settings give, without a
    panic, a top list of pairwise distinct keys, whose repos are
    trending repos that pass the filter; and [UpdateHistory] on that
    list leaves one entry for each of its repos and no other, the
    stored count raised by one, or a first week. *)
Theorem run_keeps_one_entry_per_top_repo (cfg : Config)
    (fetchTrendingForLanguage : nat -> string -> result (list RepoMetadata))
    (trending : list RepoMetadata) (sched : nat -> list (string * list string))
    (sc : ScoreCalculator) (h : Heap ScoredRepo) (s : Slice)
    (m : Manager) (fs : FileState) (h0 : History) (r d : string) :
  Validate cfg = [] ->
  FetchTrending (fetcher.New (cfg_Languages cfg)) fetchTrendingForLanguage = Ok trending ->
  valid h s ->
  elems h s = CalculateScores sc (Classify (classifier.New (cfg_Keywords cfg)) sched trending) ->
  LoadHistory m fs = Ok h0 ->
  exists out h' hist,
    RankAndSelectTop sc h s (TopN (cfg_Settings cfg)) = (Some out, h') /\
    NoDup (Key <$> elems h' out) /\
    (forall repo, repo ∈ elems h' out ->
       Metadata (Repo repo) ∈ trending /\
       passes (classifier.New (cfg_Keywords cfg)) (Metadata (Repo repo)) = true) /\
    UpdateHistory m fs (elems h' out) r d = Ok hist /\
    dom (HistoryMap hist) = list_to_set (Key <$> elems h' out) /\
    size (HistoryMap hist) = length (elems h' out) /\
    (forall repo, repo ∈ elems h' out ->
       HistoryMap hist !! Key repo = Some (bump r d (HistoryMap h0 !! Key repo))).
Proof.
  intros Hcfg Hfetch Hvalid Hscored Hload.
  set (c := classifier.New (cfg_Keywords cfg)) in *.
  assert (HtopN : 0 <= TopN (cfg_Settings cfg)).
  { apply Validate_nil in Hcfg. unfold validConfig in Hcfg. lia. }
  destruct (RankAndSelectTop_elems sc h s _ Hvalid HtopN) as (out & h' & Hrun & Hout).
  assert (Hsub : elems h' out ⊆+ elems h s).
  { rewrite Hout. etrans; [apply sublist_submseteq, sublist_take|].
    apply Permutation_submseteq, ranking_perm. }
  assert (Hnd : NoDup (Key <$> elems h' out)).
  { rewrite Hout. apply (sublist_NoDup _ (Key <$> ranking (elems h s)));
      [|apply fmap_sublist, sublist_take].
    rewrite (ranking_perm (elems h s)), Hscored, scored_keys.
    apply (sublist_NoDup _ (RepoMetadata_Key <$> trending)).
    - exact (FetchTrending_Ok_distinct _ _ _ Hfetch).
    - apply fmap_sublist, List_filter_sublist. }
  exists out, h'. unfold UpdateHistory. rewrite Hload. eexists.
  split; [done|]. split; [done|]. split; [|split; [reflexivity|]].
  - intros repo Hin. apply (elem_of_submseteq _ _ _ Hin) in Hsub.
    rewrite Hscored, CalculateScores_map in Hsub.
    apply list_elem_of_fmap in Hsub as (cr & -> & Hcr). simpl.
    assert (Hmeta : Metadata cr ∈ Metadata <$> Classify c sched trending)
      by (apply list_elem_of_fmap; by exists cr).
    rewrite Classify_Metadata in Hmeta.
    apply list_elem_of_In, filter_In in Hmeta as [Hmeta Hpass].
    split; [by apply list_elem_of_In|done].
  - assert (Hlook : forall k, k ∈ Key <$> elems h' out ->
              HistoryMap (updateLoaded mapKeys h0 (elems h' out) r d) !! k
              = Some (bump r d (HistoryMap h0 !! k))).
    { intros k Hk. rewrite updateLoaded_lookup by apply mapKeys_visitsKeys.
      rewrite decide_True by done. by apply touch_all_lookup_nodup. }
    assert (Hdom : dom (HistoryMap (updateLoaded mapKeys h0 (elems h' out) r d))
                   = list_to_set (Key <$> elems h' out)).
    { apply set_eq. intros k. rewrite elem_of_dom, elem_of_list_to_set.
      destruct (decide (k ∈ Key <$> elems h' out)) as [Hin|Hnin].
      - rewrite Hlook by done. split; [done|by eexists].
      - rewrite updateLoaded_lookup by apply mapKeys_visitsKeys.
        rewrite decide_False by done. split; [by intros [? ?]|done]. }
    split; [exact Hdom|]. split.
    + rewrite <- (size_dom (D := gset string)), Hdom, size_list_to_set by done.
      by rewrite length_fmap.
    + intros repo Hin. apply Hlook, list_elem_of_fmap. by exists repo.
Qed.

(** A configuration that [Validate] accepts. *)
Definition exampleConfig : Config :=
  {| cfg_Languages := ["python"];
     cfg_Keywords := keywords agentAndLlm;
     cfg_Settings := exampleSettings;
     cfg_LLM := {| BaseURL := "https://api.openai.com/v1"; Model := "gpt-4";
                   Provider := "openai"; TimeoutSeconds := 60; MaxRetries := 3;
                   RoleDescription := "analyst"; OutputTone := "concise";
                   Temperature := float64.constant 7 10 |} |}.

(** One language, for which the page lists one repo. *)
Definition oneRepoPage (i : nat) (lang : string) : result (list RepoMetadata) :=
  Ok [llmAgent].

(** The theorem at a run with one trending repo, on no history. *)
Lemma run_keeps_one_entry_per_top_repo_witness :
  Validate exampleConfig = [] /\
  FetchTrending (fetcher.New (cfg_Languages exampleConfig)) oneRepoPage = Ok [llmAgent] /\
  exists out h' hist,
    RankAndSelectTop (calculator.New 30 7)
      [CalculateScores (calculator.New 30 7)
         (Classify (classifier.New (cfg_Keywords exampleConfig)) agentFirst [llmAgent])]
      {| array := 0; offset := 0; len := 1; cap := 1 |}
      (TopN (cfg_Settings exampleConfig)) = (Some out, h') /\
    UpdateHistory dataPath NotExist (elems h' out) "2024-01-week1" "2024-01-07" = Ok hist /\
    size (HistoryMap hist) = length (elems h' out).
Proof.
  assert (Hcfg : Validate exampleConfig = []) by (by vm_compute).
  assert (Hfetch : FetchTrending (fetcher.New (cfg_Languages exampleConfig)) oneRepoPage
                   = Ok [llmAgent]) by (by vm_compute).
  assert (Hvalid : valid
            [CalculateScores (calculator.New 30 7)
               (Classify (classifier.New (cfg_Keywords exampleConfig)) agentFirst [llmAgent])]
            {| array := 0; offset := 0; len := 1; cap := 1 |}).
  { unfold valid. vm_compute. lia. }
  split; [exact Hcfg|]. split; [exact Hfetch|].
  destruct (run_keeps_one_entry_per_top_repo exampleConfig oneRepoPage [llmAgent] agentFirst
              (calculator.New 30 7) _ _ dataPath NotExist NewHistory
              "2024-01-week1" "2024-01-07" Hcfg Hfetch Hvalid eq_refl eq_refl)
    as (out & h' & hist & Hrun & _ & _ & Hupd & _ & Hsize & _).
  exists out, h', hist. split; [exact Hrun|]. split; [exact Hupd|exact Hsize].
Defined.

End PipelineExtras.
(** ** The sanitisers and the number format of the report *)

Section ReportExtras.
Import strings fetcher report.

Lemma HasPrefix_app (p s : string) : HasPrefix (p ++ s) p = true.
Proof. unfold HasPrefix. apply prefix_spec. by exists s. Qed.

Lemma allChars_Trim p (s cutset : string) :
  allChars p s = true -> allChars p (Trim s cutset) = true.
Proof.
  intros Hs. unfold Trim.
  destruct (TrimLeft_spec s cutset) as (pre & Hleft & _).
  destruct (TrimRight_spec (TrimLeft s cutset) cutset) as (post & Hright & _).
  rewrite Hleft, allChars_app in Hs. apply andb_true_iff in Hs as [_ Hs].
  rewrite Hright, allChars_app in Hs. by apply andb_true_iff in Hs as [Hs _].
Qed.

(** A trimmed string neither starts nor ends with a character of the
    cutset. *)
Lemma Trim_ends (s cutset : string) :
  match Trim s cutset with
  | String c _ => inCutset cutset c = false
  | EmptyString => True
  end /\
  match lastChar (Trim s cutset) with
  | Some c => inCutset cutset c = false
  | None => True
  end.
Proof.
  unfold Trim.
  destruct (TrimLeft_spec s cutset) as (pre & _ & _ & Hfirst).
  destruct (TrimRight_spec (TrimLeft s cutset) cutset) as (post & Hright & _ & Hlast).
  split; [|done].
  destruct (TrimRight (TrimLeft s cutset) cutset) as [|c kept]; [done|].
  rewrite Hright, append_cons in Hfirst. exact Hfirst.
Qed.

Definition notBracket (c : ascii) : bool :=
  negb (Ascii.eqb c "[") && negb (Ascii.eqb c "]")
  && negb (Ascii.eqb c "(") && negb (Ascii.eqb c ")").

Lemma ReplaceAll_cons (c old : ascii) (s new : string) :
  ReplaceAll (String c s) old new =
    if Ascii.eqb c old then (new ++ ReplaceAll s old new)%string
    else String c (ReplaceAll s old new).
Proof. reflexivity. Qed.

Lemma ReplaceAll_keeps p (s : string) (old : ascii) :
  allChars p s = true -> allChars p (ReplaceAll s old "") = true.
Proof.
  induction s as [|c s IH]; [done|]. rewrite allChars_cons, ReplaceAll_cons.
  intros [Hc Hs]%andb_true_iff. destruct (Ascii.eqb c old).
  - rewrite append_nil. by apply IH.
  - by rewrite allChars_cons, Hc, IH.
Qed.

Lemma ReplaceAll_removes (s : string) (old : ascii) :
  allChars (fun c => negb (Ascii.eqb c old)) (ReplaceAll s old "") = true.
Proof.
  induction s as [|c s IH]; [done|]. rewrite ReplaceAll_cons.
  destruct (Ascii.eqb c old) eqn:Hc.
  - by rewrite append_nil.
  - by rewrite allChars_cons, Hc, IH.
Qed.

Lemma allChars_and p q (s : string) :
  allChars p s = true -> allChars q s = true ->
  allChars (fun c => p c && q c) s = true.
Proof.
  induction s as [|c s IH]; [done|]. rewrite !allChars_cons.
  intros [Hp Hps]%andb_true_iff [Hq Hqs]%andb_true_iff.
  by rewrite Hp, Hq, IH.
Qed.

(** The characters of [s] that satisfy [p], in their order. *)
Fixpoint keepChars (p : ascii -> bool) (s : string) : string :=
  match s with
  | EmptyString => EmptyString
  | String c rest => if p c then String c (keepChars p rest) else keepChars p rest
  end.

(** A character of ASCII white space: tab, line feed, vertical tab,
    form feed, carriage return, space. *)
Definition isBlank (c : ascii) : bool :=
  existsb (Nat.eqb (nat_of_ascii c)) [9; 10; 11; 12; 13; 32]%nat.

Lemma inCutset_asciiSpace (c : ascii) : inCutset asciiSpace c = isBlank c.
Proof. by destruct c as [[] [] [] [] [] [] [] []]. Qed.

Lemma ReplaceAll_delete (s : string) (old : ascii) :
  ReplaceAll s old "" = keepChars (fun c => negb (Ascii.eqb c old)) s.
Proof.
  induction s as [|c s IH]; [done|]. rewrite ReplaceAll_cons. simpl.
  destruct (Ascii.eqb c old); simpl; by rewrite IH.
Qed.

Lemma keepChars_twice p q (s : string) :
  keepChars q (keepChars p s) = keepChars (fun c => p c && q c) s.
Proof.
  induction s as [|c s IH]; [done|]. simpl.
  destruct (p c); simpl; [|done]. destruct (q c); by rewrite IH.
Qed.

Lemma keepChars_ext p q (s : string) :
  (forall c, p c = q c) -> keepChars p s = keepChars q s.
Proof. intros Hpq. induction s as [|c s IH]; [done|]. simpl. by rewrite Hpq, IH. Qed.

Lemma SanitizeRepoName_keepChars (name : string) :
  SanitizeRepoName name = TrimSpace (keepChars notBracket name).
Proof.
  unfold SanitizeRepoName. cbv zeta. f_equal.
  rewrite !ReplaceAll_delete, !keepChars_twice. apply keepChars_ext.
  intros c. unfold notBracket. by rewrite !andb_assoc.
Qed.

(** X28: the two parts of a link of the report. [SanitizeURL] leaves
    a URL that starts with http:// or https:// as it is and puts
    https:// before any other, so that its result starts with one of
    the two and sanitising twice is sanitising once. [SanitizeRepoName]
    returns a name without square brackets or parentheses, which
    neither starts nor ends with white space; for an ASCII name it is
    the name without its brackets and parentheses and without the
    white space before and after what is left. *)
Theorem link_parts_are_clean (url name : string) :
  (HasPrefix (SanitizeURL url) "http://" = true \/
   HasPrefix (SanitizeURL url) "https://" = true) /\
  SanitizeURL (SanitizeURL url) = SanitizeURL url /\
  (HasPrefix url "http://" = true \/ HasPrefix url "https://" = true ->
   SanitizeURL url = url) /\
  (HasPrefix url "http://" = false -> HasPrefix url "https://" = false ->
   SanitizeURL url = ("https://" ++ url)%string) /\
  SanitizeURL "http://github.com/a/b" = "http://github.com/a/b" /\
  SanitizeURL "https://github.com/a/b" = "https://github.com/a/b" /\
  SanitizeURL "github.com/a/b" = "https://github.com/a/b" /\
  allChars notBracket (SanitizeRepoName name) = true /\
  match SanitizeRepoName name with
  | String c _ => inCutset asciiSpace c = false
  | EmptyString => True
  end /\
  match lastChar (SanitizeRepoName name) with
  | Some c => inCutset asciiSpace c = false
  | None => True
  end /\
  (isASCII name = true ->
   exists before after,
     keepChars (fun c => negb (existsb (Ascii.eqb c) ["["; "]"; "("; ")"]%char)) name
       = (before ++ SanitizeRepoName name ++ after)%string /\
     allChars isBlank before = true /\ allChars isBlank after = true) /\
  SanitizeRepoName " [awesome] (ai) list " = "awesome ai list".
Proof.
  assert (Hscheme : HasPrefix (SanitizeURL url) "http://" = true \/
                    HasPrefix (SanitizeURL url) "https://" = true).
  { unfold SanitizeURL.
    destruct (HasPrefix url "http://") eqn:Hhttp; [by left|].
    destruct (HasPrefix url "https://") eqn:Hhttps; [by right|].
    right. apply HasPrefix_app. }
  split; [exact Hscheme|]. split.
  { unfold SanitizeURL at 1. by destruct Hscheme as [-> | ->]; rewrite ?andb_false_r. }
  split.
  { unfold SanitizeURL. by intros [-> | ->]; rewrite ?andb_false_r. }
  split.
  { unfold SanitizeURL. by intros -> ->. }
  split; [reflexivity|]. split; [reflexivity|]. split; [reflexivity|].
  split.
  { unfold SanitizeRepoName, TrimSpace. cbv zeta.
    apply allChars_Trim. unfold notBracket.
    repeat apply allChars_and.
    + do 3 apply ReplaceAll_keeps. apply ReplaceAll_removes.
    + do 2 apply ReplaceAll_keeps. apply ReplaceAll_removes.
    + apply ReplaceAll_keeps. apply ReplaceAll_removes.
    + apply ReplaceAll_removes. }
  split; [|split; [|split; [|reflexivity]]].
  - unfold SanitizeRepoName, TrimSpace. cbv zeta. apply Trim_ends.
  - unfold SanitizeRepoName, TrimSpace. cbv zeta. apply Trim_ends.
  - intros _. rewrite SanitizeRepoName_keepChars.
    rewrite (keepChars_ext _ notBracket)
      by (intros c; by destruct c as [[] [] [] [] [] [] [] []]).
    unfold TrimSpace, Trim.
    destruct (TrimLeft_spec (keepChars notBracket name) asciiSpace)
      as (before & Hname & Hbefore & _).
    destruct (TrimRight_spec (TrimLeft (keepChars notBracket name) asciiSpace) asciiSpace)
      as (after & Hleft & Hafter & _).
    exists before, after. split; [by rewrite <- Hleft|].
    rewrite (allChars_ext isBlank (inCutset asciiSpace)),
            (allChars_ext isBlank (inCutset asciiSpace))
      by (intros c; by rewrite inCutset_asciiSpace).
    done.
Qed.

(** A character that is a space or no white space of the class [\s]. *)
Definition spaceOrInk (c : ascii) : bool := Ascii.eqb c " " || negb (isReSpace c).

Lemma collapseSpace_clean (inRun : bool) (s : string) :
  allChars spaceOrInk (collapseSpace inRun s) = true.
Proof.
  revert inRun. induction s as [|c s IH]; intros inRun; [done|]. simpl.
  destruct (isReSpace c) eqn:Hc.
  - destruct inRun; [apply IH|]. by rewrite allChars_cons, IH.
  - rewrite allChars_cons, IH. unfold spaceOrInk. by rewrite Hc, orb_true_r.
Qed.

Lemma length_substring (n : nat) (s : string) :
  (n <= String.length s)%nat -> String.length (substring 0 n s) = n.
Proof.
  revert s. induction n as [|n IH]; intros s Hn.
  - by destruct s.
  - destruct s as [|c s]; simpl in *; [lia|]. rewrite IH; [done|lia].
Qed.

Lemma allChars_substring p (n : nat) (s : string) :
  allChars p s = true -> allChars p (substring 0 n s) = true.
Proof.
  revert s. induction n as [|n IH]; intros s Hs.
  - by destruct s.
  - destruct s as [|c s]; [done|]. rewrite allChars_cons in Hs.
    apply andb_true_iff in Hs as [Hc Hs]. simpl. by rewrite Hc, IH.
Qed.

Lemma lastChar_app (a : string) (c : ascii) (b : string) :
  lastChar (a ++ String c b) = lastChar (String c b).
Proof.
  induction a as [|d a IH]; [by rewrite append_nil|].
  rewrite append_cons. simpl lastChar at 1. rewrite IH.
  destruct a; by rewrite ?append_nil, ?append_cons.
Qed.

(** X29: [SanitizeDescription] returns at most 200 characters, among
    them no tab, line feed, form feed or carriage return, and its
    result neither starts nor ends with white space: a description
    that is longer, once cleaned, is cut to 197 characters and three
    full stops. *)
Theorem SanitizeDescription_short_and_flat (desc : string) :
  (String.length (SanitizeDescription desc) <= 200)%nat /\
  allChars spaceOrInk (SanitizeDescription desc) = true /\
  match SanitizeDescription desc with
  | String c _ => inCutset asciiSpace c = false
  | EmptyString => True
  end /\
  match lastChar (SanitizeDescription desc) with
  | Some c => inCutset asciiSpace c = false
  | None => True
  end.
Proof.
  unfold SanitizeDescription. cbv zeta.
  set (flat := collapseSpace false _).
  assert (Hflat : allChars spaceOrInk (TrimSpace flat) = true)
    by apply allChars_Trim, collapseSpace_clean.
  pose proof (Trim_ends flat asciiSpace) as [Hfirst Hlast].
  fold (TrimSpace flat) in Hfirst, Hlast.
  destruct (Nat.ltb_spec 200 (String.length (TrimSpace flat))) as [Hlong|Hshort];
    [|done].
  assert (Hlen : String.length (substring 0 197 (TrimSpace flat)) = 197%nat)
    by (apply length_substring; lia).
  split; [|split; [|split]].
  - rewrite length_append, Hlen. simpl. lia.
  - rewrite allChars_app, allChars_substring by done. done.
  - destruct (TrimSpace flat) as [|c rest]; [simpl in Hlong; lia|].
    simpl. exact Hfirst.
  - by rewrite lastChar_app.
Qed.

(** [digitsValue], from a number already read. *)
Definition valueFrom (acc : Z) (s : string) : Z :=
  fold_left (fun acc c => acc * 10 + (Z.of_nat (nat_of_ascii c) - 48))
            (list_ascii_of_string s) acc.

Lemma valueFrom_cons (acc : Z) (c : ascii) (s : string) :
  valueFrom acc (String c s) = valueFrom (acc * 10 + (Z.of_nat (nat_of_ascii c) - 48)) s.
Proof. reflexivity. Qed.

Lemma valueFrom_app (acc : Z) (a b : string) :
  valueFrom acc (a ++ b) = valueFrom (valueFrom acc a) b.
Proof.
  revert acc. induction a as [|c a IH]; intros acc; [by rewrite append_nil|].
  by rewrite append_cons, !valueFrom_cons, IH.
Qed.

Lemma valueFrom_shift (acc : Z) (s : string) :
  valueFrom acc s = acc * 10 ^ Z.of_nat (String.length s) + valueFrom 0 s.
Proof.
  revert acc. induction s as [|c s IH]; intros acc.
  - unfold valueFrom. simpl. lia.
  - rewrite !valueFrom_cons, IH, (IH (0 * 10 + _)).
    simpl String.length. rewrite Nat2Z.inj_succ, Z.pow_succ_r by lia. lia.
Qed.

Lemma digitsValue_app (a b : string) :
  digitsValue (a ++ b) = digitsValue a * 10 ^ Z.of_nat (String.length b) + digitsValue b.
Proof.
  change (valueFrom 0 (a ++ b)
          = valueFrom 0 a * 10 ^ Z.of_nat (String.length b) + valueFrom 0 b).
  by rewrite valueFrom_app, valueFrom_shift.
Qed.

Lemma digitOf_spec (d : Z) :
  0 <= d <= 9 ->
  isDigit (digitOf d) = true /\ Z.of_nat (nat_of_ascii (digitOf d)) - 48 = d.
Proof.
  intros Hd.
  assert (Hcases : d = 0 \/ d = 1 \/ d = 2 \/ d = 3 \/ d = 4 \/
                   d = 5 \/ d = 6 \/ d = 7 \/ d = 8 \/ d = 9) by lia.
  by destruct Hcases as [->|[->|[->|[->|[->|[->|[->|[->|[->| ->]]]]]]]]].
Qed.

(** The digits of a number below [10 ^ k]. *)
Lemma decimal_spec (fuel : nat) :
  forall (k : nat) (n : Z),
    (1 <= k <= fuel)%nat -> 0 <= n < 10 ^ Z.of_nat k ->
    allChars isDigit (decimal fuel n) = true /\
    decimal fuel n <> "" /\
    (String.length (decimal fuel n) <= k)%nat /\
    digitsValue (decimal fuel n) = n.
Proof.
  induction fuel as [|fuel IH]; intros k n Hk Hn; [lia|].
  simpl decimal.
  pose proof (Z.mod_pos_bound n 10 ltac:(lia)) as Hmod.
  destruct (digitOf_spec (n mod 10) ltac:(lia)) as [Hdigit Hvalue].
  destruct (Z.ltb_spec n 10) as [Hsmall|Hbig].
  - rewrite append_nil. rewrite Z.mod_small in * by lia.
    split; [|split; [|split]].
    + by rewrite allChars_cons, Hdigit.
    + done.
    + simpl. lia.
    + unfold digitsValue. simpl. lia.
  - destruct k as [|k]; [lia|].
    assert (Hk' : (1 <= k)%nat).
    { destruct k; [|lia]. simpl in Hn. lia. }
    destruct (IH k (n / 10)) as (Hall & Hne & Hlen & Hval); [lia| |].
    { rewrite Nat2Z.inj_succ, Z.pow_succ_r in Hn by lia.
      split; [apply Z.div_pos; lia|]. apply Z.div_lt_upper_bound; lia. }
    split; [|split; [|split]].
    + by rewrite allChars_app, Hall, allChars_cons, Hdigit.
    + destruct (decimal fuel (n / 10)); [done|by rewrite append_cons].
    + rewrite length_append. simpl. lia.
    + rewrite digitsValue_app, Hval. simpl String.length.
      unfold digitsValue at 1. simpl fold_left. rewrite Hvalue.
      change (10 ^ Z.of_nat 1) with 10. pose proof (Z.div_mod n 10 ltac:(lia)). lia.
Qed.

Lemma zeros_spec (k : nat) :
  allChars isDigit (zeros k) = true /\ String.length (zeros k) = k /\
  digitsValue (zeros k) = 0.
Proof.
  induction k as [|k (Hall & Hlen & Hval)]; [done|]. simpl zeros.
  split; [|split].
  - by rewrite allChars_cons, Hall.
  - simpl. by rewrite Hlen.
  - change (String "0" (zeros k)) with ("0" ++ zeros k)%string.
    rewrite digitsValue_app, Hval. by vm_compute.
Qed.

Lemma removeCommas_digits_id (s : string) :
  allChars isDigit s = true -> removeCommas s = s.
Proof.
  induction s as [|c s IH]; [done|]. rewrite allChars_cons.
  intros [Hc Hs]%andb_true_iff. simpl.
  destruct (Ascii.eqb_spec c ",") as [->|_]; [done|]. by rewrite IH.
Qed.

Lemma removeCommas_app (a b : string) :
  removeCommas (a ++ b) = (removeCommas a ++ removeCommas b)%string.
Proof.
  induction a as [|c a IH]; [by rewrite !append_nil|].
  rewrite append_cons. simpl. destruct (Ascii.eqb c ","); [done|].
  by rewrite append_cons, IH.
Qed.

Lemma allChars_weaken (p q : ascii -> bool) (s : string) :
  (forall c, p c = true -> q c = true) -> allChars p s = true -> allChars q s = true.
Proof.
  intros Hpq. induction s as [|c s IH]; [done|]. rewrite !allChars_cons.
  intros [Hc Hs]%andb_true_iff. by rewrite (Hpq c Hc), IH.
Qed.

Lemma digits_in_class (s : string) :
  allChars isDigit s = true -> allChars isDigitOrComma s = true.
Proof.
  apply allChars_weaken. intros c Hc. unfold isDigitOrComma. by rewrite Hc.
Qed.

Lemma formatNumber_S (fuel : nat) (n : Z) :
  formatNumber (S fuel) n =
    if n <? 0
    then match formatNumber fuel (GoInt.wrap (- n)) with
         | Some s => Some ("-" ++ s)%string
         | None => None
         end
    else if n <? 1000 then Some (formatInt n)
    else match formatNumber fuel (Z.quot n 1000) with
         | Some s => Some (s ++ "," ++ formatInt03 (Z.rem n 1000))%string
         | None => None
         end.
Proof. reflexivity. Qed.

(** What [formatNumber] writes for a number that is not negative. *)
Lemma formatNumber_nonneg (fuel : nat) :
  forall n, 0 <= n < 1000 ^ Z.of_nat (S fuel) ->
    exists s,
      formatNumber (S fuel) n = Some s /\
      allChars isDigitOrComma s = true /\
      removeCommas s <> "" /\
      digitsValue (removeCommas s) = n.
Proof.
  induction fuel as [|fuel IH]; intros n Hn.
  - change (1000 ^ Z.of_nat 1) with 1000 in Hn.
    rewrite formatNumber_S. destruct (Z.ltb_spec n 0); [lia|].
    destruct (Z.ltb_spec n 1000); [|lia].
    unfold formatInt. destruct (Z.ltb_spec n 0); [lia|].
    destruct (decimal_spec 20 3 n ltac:(lia) ltac:(change (10 ^ Z.of_nat 3) with 1000; lia)) as (Hall & Hne & _ & Hval).
    eexists. split; [done|].
    rewrite removeCommas_digits_id by done. by split; [apply digits_in_class|].
  - rewrite formatNumber_S. destruct (Z.ltb_spec n 0); [lia|].
    destruct (Z.ltb_spec n 1000) as [Hsmall|Hbig].
    + unfold formatInt. destruct (Z.ltb_spec n 0); [lia|].
      destruct (decimal_spec 20 3 n ltac:(lia) ltac:(change (10 ^ Z.of_nat 3) with 1000; lia))
        as (Hall & Hne & _ & Hval).
      eexists. split; [done|].
      rewrite removeCommas_digits_id by done. by split; [apply digits_in_class|].
    + rewrite Z.quot_div_nonneg, Z.rem_mod_nonneg by lia.
      pose proof (Z.mod_pos_bound n 1000 ltac:(lia)) as Hmod.
      destruct (IH (n / 1000)) as (s & Hs & Hclass & Hne & Hval).
      { rewrite (Nat2Z.inj_succ (S fuel)), Z.pow_succ_r in Hn by lia.
        split; [apply Z.div_pos; lia|]. apply Z.div_lt_upper_bound; lia. }
      rewrite Hs.
      unfold formatInt03. destruct (Z.ltb_spec (n mod 1000) 0); [lia|]. cbv zeta.
      destruct (decimal_spec 20 3 (n mod 1000) ltac:(lia) ltac:(change (10 ^ Z.of_nat 3) with 1000; lia))
        as (Hall & Hne3 & Hlen & Hval3).
      set (digits := decimal 20 (n mod 1000)) in *.
      destruct (zeros_spec (3 - String.length digits)) as (Hzall & Hzlen & Hzval).
      set (group := (zeros (3 - String.length digits) ++ digits)%string).
      assert (Hgroup : allChars isDigit group = true)
        by (unfold group; by rewrite allChars_app, Hzall, Hall).
      assert (Hglen : String.length group = 3%nat)
        by (unfold group; rewrite length_append, Hzlen; lia).
      assert (Hgval : digitsValue group = n mod 1000).
      { unfold group. rewrite digitsValue_app, Hzval, Hval3. lia. }
      eexists. split; [reflexivity|].
      rewrite !removeCommas_app, (removeCommas_digits_id group) by done.
      change (removeCommas ",") with "". rewrite append_nil.
      split; [|split].
      * rewrite !allChars_app, Hclass, (digits_in_class group) by done. done.
      * destruct (removeCommas s); [done|by rewrite append_cons].
      * rewrite digitsValue_app, Hval, Hglen, Hgval.
        change (10 ^ Z.of_nat 3) with 1000.
        pose proof (Z.div_mod n 1000 ltac:(lia)). lia.
Qed.

Lemma FindString_whole (s : string) :
  allChars isDigitOrComma s = true -> FindString s = s.
Proof.
  intros Hs. destruct (String.eqb_spec s "") as [->|Hne]; [done|].
  pose proof (FindString_first_run "" s "" eq_refl Hs Hne eq_refl) as Hfind.
  by rewrite append_nil, append_nil_r in Hfind.
Qed.

Lemma formatNumber_minInt (fuel : nat) : formatNumber fuel GoInt.minInt = None.
Proof.
  induction fuel as [|fuel IH]; [done|]. rewrite formatNumber_S.
  change (GoInt.minInt <? 0) with true. cbv iota.
  change (GoInt.wrap (- GoInt.minInt)) with GoInt.minInt. by rewrite IH.
Qed.

(** X30: [formatNumber] and [parseStars] are inverse on the numbers
    that are not negative: for [0 <= n <= maxInt], [formatNumber]
    returns within seven calls a text that [parseStars] reads back as
    [n]. For a negative [n] above the least [int] it writes a minus
    sign before the text of [-n]. For the least [int], whose negation
    is itself, the recursion never ends. *)
Theorem formatNumber_parseStars_round_trip (f : TrendingFetcher) (n : Z) :
  (0 <= n <= GoInt.maxInt ->
   exists s, formatNumber 7 n = Some s /\ parseStars f s = n) /\
  (GoInt.minInt < n < 0 ->
   exists s, formatNumber 7 (- n) = Some s /\
             formatNumber 8 n = Some ("-" ++ s)%string) /\
  (forall fuel, formatNumber fuel GoInt.minInt = None).
Proof.
  assert (Hbound : GoInt.maxInt < 1000 ^ Z.of_nat 7) by (by vm_compute).
  split; [|split; [|apply formatNumber_minInt]].
  - intros Hn. destruct (formatNumber_nonneg 6 n ltac:(lia)) as (s & Hs & Hclass & Hne & Hval).
    exists s. split; [done|]. unfold parseStars, Atoi.
    rewrite FindString_whole by done.
    destruct (String.eqb_spec s "") as [->|_]; [done|].
    destruct (String.eqb_spec (removeCommas s) ""); [done|].
    rewrite Hval. destruct (Z.gtb_spec n GoInt.maxInt); [lia|done].
  - intros Hn.
    assert (Hmin : GoInt.minInt = - 2 ^ 63) by done.
    assert (Hmax : GoInt.maxInt = 2 ^ 63 - 1) by done.
    destruct (formatNumber_nonneg 6 (- n) ltac:(lia)) as (s & Hs & _).
    exists s. split; [done|]. rewrite formatNumber_S.
    destruct (Z.ltb_spec n 0); [|lia].
    rewrite wrap_inRange by (unfold GoInt.inRange; lia).
    by rewrite Hs.
Qed.

End ReportExtras.
(** ** Examples for the fetcher, the keys and the report *)

Section MoreExamples.
Import models errors config fetcher report.

(** [TestDeduplicateRepos]: of five repos, two of them repeated, three
    are kept. *)
Example deduplicate_five :
  RepoMetadata_Key <$>
    deduplicateRepos (fetcher.New ["go"])
      ((fun entry => Metadata (Repo (repoNamed entry.1 entry.2))) <$>
         [("owner1", "repo1"); ("owner1", "repo1"); ("owner2", "repo2");
          ("owner1", "repo1"); ("owner3", "repo3")])
  = ["owner1/repo1"; "owner2/repo2"; "owner3/repo3"].
Proof. by vm_compute. Qed.

(** The text of the comment of [parseStars], and texts without a
    number. *)
Example parseStars_texts :
  parseStars (fetcher.New []) "1,234 stars today" = 1234 /\
  parseStars (fetcher.New []) "  57 stars this week" = 57 /\
  parseStars (fetcher.New []) "no stars" = 0 /\
  parseStars (fetcher.New []) ", and more" = 0 /\
  parseStars (fetcher.New []) "99999999999999999999 stars" = 0.
Proof. by vm_compute. Qed.

Example formatNumber_texts :
  formatNumber 7 0 = Some "0" /\
  formatNumber 7 999 = Some "999" /\
  formatNumber 7 1000 = Some "1,000" /\
  formatNumber 7 1234567 = Some "1,234,567" /\
  formatNumber 8 (-1234) = Some "-1,234" /\
  formatNumber 7 GoInt.maxInt = Some "9,223,372,036,854,775,807".
Proof. by vm_compute. Qed.

(** The two cases of the comment of [formatAcceleration]. *)
Example formatAcceleration_texts :
  formatAcceleration 45 = "+45%" /\ formatAcceleration (-12) = "-12%" /\
  formatAcceleration 0 = "0%".
Proof. by vm_compute. Qed.

Example ParseRepoKey_texts :
  ParseRepoKey "owner/repo" = Parsed "owner" "repo" /\
  ParseRepoKey "/" = Parsed "" "" /\
  ParseRepoKey "owner" = Invalid "invalid repo key format: owner" /\
  ParseRepoKey "a/b/c" = Invalid "invalid repo key format: a/b/c" /\
  ParseRepoKey "a/b/c/d" = Invalid "invalid repo key format: a/b/c/d".
Proof. by vm_compute. Qed.

Example sanitize_texts :
  SanitizeURL "github.com/owner/repo" = "https://github.com/owner/repo" /\
  SanitizeURL "http://example.org" = "http://example.org" /\
  SanitizeRepoName " my[repo](x) " = "myrepox" /\
  SanitizeDescription ("  A   tool" ++ String (ascii_of_nat 10) "for  agents ")
  = "A tool for agents".
Proof. by vm_compute. Qed.

Example detectProvider_texts :
  detectProvider "" = "openai" /\
  detectProvider "https://generativelanguage.googleapis.com/v1beta" = "gemini" /\
  detectProvider "https://api.openai.com/v1" = "openai".
Proof. by vm_compute. Qed.

Example Error_texts :
  Error (NewConfigError "failed to load llm.json" (Some "no such file"))
  = "[CONFIG] failed to load llm.json: no such file" /\
  Error (NewConfigError "failed to load llm.json" (Some ""))
  = "[CONFIG] failed to load llm.json: " /\
  Error (NewRateLimitError "12:00") = "[RATE_LIMIT] GitHub API rate limit exceeded".
Proof. by vm_compute. Qed.

End MoreExamples.
